(** * canvas2markdown: the HTML-to-Markdown conversion core

    A shallow embedding of the conversion pipeline of [src/App.tsx]
    ([detectLanguage], [postProcessMarkdown], [convertToMarkdown]), of the
    handlers of its component, and of the earlier Turndown-based facade kept
    in the repository with its rules, together with the properties the
    specification states about them and further properties of the code.

    JavaScript strings are sequences of UTF-16 code units; regular
    expressions are interpreted by a backtracking matcher that follows the
    ECMAScript semantics (continuation passing, greedy quantifiers, leftmost
    alternative first). *)

From Stdlib Require Import Ascii String.
From Stdlib Require Import List NArith Bool Arith Lia.
Import ListNotations.

Set Warnings "-register-all".

(** ** JavaScript strings *)

Module JS.

(** A UTF-16 code unit.  Code units are below 65536; every definition below
    is total on [N], so no range side condition is carried around. *)
Definition char := N.
Definition jsstring := list char.

Definition hexval (a : ascii) : option N :=
  let n := N_of_ascii a in
  if ((48 <=? n) && (n <=? 57))%N then Some (n - 48)%N
  else if ((97 <=? n) && (n <=? 102))%N then Some (n - 87)%N
  else if ((65 <=? n) && (n <=? 70))%N then Some (n - 55)%N
  else None.

(** String literals are written with the escapes of the source language:
    backslash-n, backslash-t, backslash-r, a doubled backslash, and
    backslash-x followed by two hexadecimal digits. *)
Fixpoint unescape (l : list ascii) : jsstring :=
  match l with
  | [] => []
  | a :: t =>
      if (N_of_ascii a =? 92)%N then
        match t with
        | [] => [92%N]
        | b :: t' =>
            if (N_of_ascii b =? 110)%N then 10%N :: unescape t'
            else if (N_of_ascii b =? 116)%N then 9%N :: unescape t'
            else if (N_of_ascii b =? 114)%N then 13%N :: unescape t'
            else if (N_of_ascii b =? 92)%N then 92%N :: unescape t'
            else if (N_of_ascii b =? 120)%N then
              match t' with
              | h1 :: h2 :: t'' =>
                  match hexval h1, hexval h2 with
                  | Some x, Some y => (16 * x + y)%N :: unescape t''
                  | _, _ => 120%N :: unescape t'
                  end
              | _ => 120%N :: unescape t'
              end
            else N_of_ascii b :: unescape t'
        end
      else N_of_ascii a :: unescape t
  end.

Definition js (s : string) : jsstring := unescape (list_ascii_of_string s).

(** *** Character classes *)

Definition is_line_terminator (c : char) : bool :=
  ((c =? 10) || (c =? 13) || (c =? 8232) || (c =? 8233))%N.

Definition is_white_space (c : char) : bool :=
  ((c =? 9) || (c =? 11) || (c =? 12) || (c =? 32) || (c =? 160) ||
   (c =? 5760) || ((8192 <=? c) && (c <=? 8202)) || (c =? 8239) ||
   (c =? 8287) || (c =? 12288) || (c =? 65279))%N.

(** The class [\s], also the set stripped by [String.prototype.trim]. *)
Definition is_space (c : char) : bool :=
  is_white_space c || is_line_terminator c.

Definition is_digit (c : char) : bool := ((48 <=? c) && (c <=? 57))%N.

(** The class [\w]. *)
Definition is_word (c : char) : bool :=
  (((97 <=? c) && (c <=? 122)) || ((65 <=? c) && (c <=? 90)) ||
   ((48 <=? c) && (c <=? 57)) || (c =? 95))%N.

Definition is_char (a c : char) : bool := (c =? a)%N.
Definition one_of (l : jsstring) (c : char) : bool := existsb (N.eqb c) l.
Definition none_of (l : jsstring) (c : char) : bool := negb (one_of l c).

(** *** String methods *)

Fixpoint trimStart (s : jsstring) : jsstring :=
  match s with
  | c :: t => if is_space c then trimStart t else s
  | [] => []
  end.

Definition trimEnd (s : jsstring) : jsstring := rev (trimStart (rev s)).

Definition trim (s : jsstring) : jsstring := trimEnd (trimStart s).

Fixpoint startsWith (s p : jsstring) : bool :=
  match p, s with
  | [], _ => true
  | a :: p', c :: s' => (c =? a)%N && startsWith s' p'
  | _ :: _, [] => false
  end.

Definition endsWith (s p : jsstring) : bool := startsWith (rev s) (rev p).

Fixpoint includes (s p : jsstring) : bool :=
  startsWith s p ||
  match s with
  | [] => false
  | _ :: t => includes t p
  end.

(** [s.split('\n')[0]]: the part of [s] before its first line feed. *)
Fixpoint firstSegment (s : jsstring) : jsstring :=
  match s with
  | [] => []
  | c :: t => if (c =? 10)%N then [] else c :: firstSegment t
  end.

(** [s.slice(a, -b)]: without the first [a] and the last [b] code units
    (empty when fewer than [a + b] are there). *)
Definition slice (a b : nat) (s : jsstring) : jsstring :=
  firstn (length s - a - b) (skipn a s).

End JS.
Import JS.

(** ** Regular expressions *)

Module RegExp.

Inductive regex : Type :=
| Eps : regex
| Chr (p : char -> bool) : regex
| Seq (r1 r2 : regex) : regex
| Alt (r1 r2 : regex) : regex
| Star (r : regex) : regex
| Grp (i : nat) (r : regex) : regex
| Bol : regex
| Eol : regex
| WordB : regex.

(** Derived forms. *)
Fixpoint lit (s : jsstring) : regex :=
  match s with
  | [] => Eps
  | [c] => Chr (is_char c)
  | c :: t => Seq (Chr (is_char c)) (lit t)
  end.

Definition Plus (r : regex) : regex := Seq r (Star r).
Definition Opt (r : regex) : regex := Alt r Eps.

(** [r{n,}] and [r{0,n}] (greedy). *)
Fixpoint AtLeast (n : nat) (r : regex) : regex :=
  match n with
  | 0 => Star r
  | S n' => Seq r (AtLeast n' r)
  end.

Fixpoint UpTo (n : nat) (r : regex) : regex :=
  match n with
  | 0 => Eps
  | S n' => Opt (Seq r (UpTo n' r))
  end.

Fixpoint alts (l : list regex) : regex :=
  match l with
  | [] => Chr (fun _ => false)
  | [r] => r
  | r :: t => Alt r (alts t)
  end.

(** The matcher state: the code units before the current position (nearest
    first), the code units from the current position on, the number of code
    units consumed since the match attempt began, and the captures recorded
    so far. *)
Record mstate : Type := MState {
  prev : jsstring;
  rest : jsstring;
  pos : nat;
  caps : list (nat * jsstring)
}.

Definition cont := mstate -> option mstate.

Definition advance (c : char) (t : jsstring) (s : mstate) : mstate :=
  MState (c :: prev s) t (S (pos s)) (caps s).

(** Greedy iteration: try one more round of [step] (which has to consume
    input), fall back to the continuation.  The fuel is the length of the
    remaining input, an upper bound on the number of rounds. *)
Fixpoint star (step : cont -> cont) (fuel : nat) (k : cont) (s : mstate)
  : option mstate :=
  match fuel with
  | 0 => k s
  | S f =>
      match step (fun s' =>
                    if length (rest s') <? length (rest s)
                    then star step f k s' else None) s with
      | Some x => Some x
      | None => k s
      end
  end.

Definition captured (s s' : mstate) : jsstring :=
  rev (firstn (pos s' - pos s) (prev s')).

Definition at_bol (multiline : bool) (s : mstate) : bool :=
  match prev s with
  | [] => true
  | c :: _ => multiline && is_line_terminator c
  end.

Definition at_eol (multiline : bool) (s : mstate) : bool :=
  match rest s with
  | [] => true
  | c :: _ => multiline && is_line_terminator c
  end.

Definition word_before (s : mstate) : bool :=
  match prev s with c :: _ => is_word c | [] => false end.

Definition word_after (s : mstate) : bool :=
  match rest s with c :: _ => is_word c | [] => false end.

Fixpoint interp (multiline : bool) (r : regex) (k : cont) (s : mstate)
  : option mstate :=
  match r with
  | Eps => k s
  | Chr p =>
      match rest s with
      | c :: t => if p c then k (advance c t s) else None
      | [] => None
      end
  | Seq a b => interp multiline a (interp multiline b k) s
  | Alt a b =>
      match interp multiline a k s with
      | Some x => Some x
      | None => interp multiline b k s
      end
  | Star a => star (interp multiline a) (length (rest s)) k s
  | Grp i a =>
      interp multiline a
        (fun s' => k (MState (prev s') (rest s') (pos s')
                             ((i, captured s s') :: caps s')))
        s
  | Bol => if at_bol multiline s then k s else None
  | Eol => if at_eol multiline s then k s else None
  | WordB => if xorb (word_before s) (word_after s) then k s else None
  end.

(** One match attempt at the current position. *)
Definition exec (multiline : bool) (r : regex) (before s : jsstring)
  : option mstate :=
  interp multiline r Some (MState before s 0 []).

Definition capture (i : nat) (m : mstate) : jsstring :=
  match find (fun p => Nat.eqb (fst p) i) (caps m) with
  | Some p => snd p
  | None => []
  end.

(** [String.prototype.match] for a regular expression without the [g]
    flag: the first position, from the left, at which a match attempt
    succeeds. *)
Fixpoint search (multiline : bool) (r : regex) (before s : jsstring)
  : option mstate :=
  match exec multiline r before s with
  | Some m => Some m
  | None =>
      match s with
      | [] => None
      | c :: t => search multiline r (c :: before) t
      end
  end.

Definition match_first (multiline : bool) (r : regex) (s : jsstring)
  : option mstate :=
  search multiline r [] s.

(** [RegExp.prototype.test], also the truthiness of the result of [match]. *)
Definition test (multiline : bool) (r : regex) (s : jsstring) : bool :=
  match match_first multiline r s with
  | Some _ => true
  | None => false
  end.

(** Replacement templates: [Ref i] stands for the capture [$i], [Txt c] for
    a literal code unit. *)
Inductive piece : Type :=
| Txt (c : char)
| Ref (i : nat).

Definition digit_val (c : char) : nat := N.to_nat (c - 48).

(** The template syntax of [String.prototype.replace] for a pattern with [m]
    capturing groups: a dollar sign followed by two digits is the capture of
    that number when there are that many groups, otherwise the dollar sign
    with its first digit is a capture and the second digit is literal text;
    a doubled dollar sign is one dollar sign.  (The forms that refer to the
    whole match or to its context do not occur in the source.) *)
Fixpoint template (m : nat) (t : jsstring) : list piece :=
  match t with
  | [] => []
  | c :: t1 =>
      if (c =? 36)%N then
        match t1 with
        | d1 :: t2 =>
            if (d1 =? 36)%N then Txt 36%N :: template m t2
            else if is_digit d1 then
              let one :=
                if (1 <=? digit_val d1) && (digit_val d1 <=? m)
                then Ref (digit_val d1) :: template m t2
                else Txt c :: template m t1 in
              match t2 with
              | d2 :: t3 =>
                  if is_digit d2 &&
                     (1 <=? 10 * digit_val d1 + digit_val d2) &&
                     (10 * digit_val d1 + digit_val d2 <=? m)
                  then Ref (10 * digit_val d1 + digit_val d2) :: template m t3
                  else one
              | [] => one
              end
            else Txt c :: template m t1
        | [] => [Txt c]
        end
      else Txt c :: template m t1
  end.

Fixpoint substitute (tpl : list piece) (m : mstate) : jsstring :=
  match tpl with
  | [] => []
  | Txt c :: t => c :: substitute t m
  | Ref i :: t => capture i m ++ substitute t m
  end.

(** [String.prototype.replace] with a regular expression carrying the [g]
    flag: scan from left to right, replace every match, resume after it.
    [skip] counts the code units of the current match still to be passed
    over. *)
Fixpoint replace_loop (multiline : bool) (r : regex) (tpl : list piece)
  (before s : jsstring) (skip : nat) {struct s} : jsstring :=
  match skip with
  | S n =>
      match s with
      | c :: t => replace_loop multiline r tpl (c :: before) t n
      | [] => []
      end
  | 0 =>
      match exec multiline r before s with
      | Some m =>
          substitute tpl m ++
          match pos m with
          | 0 => (* empty match: copy one code unit and move on *)
              match s with
              | c :: t => c :: replace_loop multiline r tpl (c :: before) t 0
              | [] => []
              end
          | S n =>
              match s with
              | c :: t => replace_loop multiline r tpl (c :: before) t n
              | [] => []
              end
          end
      | None =>
          match s with
          | c :: t => c :: replace_loop multiline r tpl (c :: before) t 0
          | [] => []
          end
      end
  end.

Definition replace_g (multiline : bool) (r : regex) (tpl : list piece)
  (s : jsstring) : jsstring :=
  replace_loop multiline r tpl [] s 0.

End RegExp.
Import RegExp.

(** ** Language detection ([detectLanguage], src/App.tsx) *)

Definition keyword (ws : list string) : regex :=
  Seq Bol (Seq (Grp 1 (alts (map (fun w => lit (js w)) ws))) WordB).

(** [/^(npm|npx|yarn|pnpm|cd|ls|git|docker|curl|wget|brew|sudo|apt|yum|echo|cat|grep|pip|python|node)\b/] *)
Definition re_shell : regex :=
  keyword ["npm"; "npx"; "yarn"; "pnpm"; "cd"; "ls"; "git"; "docker"; "curl";
           "wget"; "brew"; "sudo"; "apt"; "yum"; "echo"; "cat"; "grep"; "pip";
           "python"; "node"]%string.

(** [/^(import|export|const|let|var|function|class|async|interface|type)\b/] *)
Definition re_javascript : regex :=
  keyword ["import"; "export"; "const"; "let"; "var"; "function"; "class";
           "async"; "interface"; "type"]%string.

(** [/^(def|class|import|from|if __name__)\b/] *)
Definition re_python : regex :=
  keyword ["def"; "class"; "import"; "from"; "if __name__"]%string.

(** [/^(body|div|span|h[1-6]|#|\.)/] *)
Definition re_css : regex :=
  Seq Bol
    (Grp 1 (alts [lit (js "body"); lit (js "div"); lit (js "span");
                  Seq (Chr (is_char 104%N)) (Chr (fun c => (49 <=? c) && (c <=? 54))%N);
                  Chr (is_char 35%N); Chr (is_char 46%N)])).

Definition detectLanguage (code : jsstring) : jsstring :=
  let trimmed := trim code in
  match trimmed with
  | [] => js "text"
  | _ :: _ =>
      let firstLine := trim (firstSegment trimmed) in
      if startsWith firstLine (js "$") || test false re_shell firstLine
      then js "shell"
      else if test false re_javascript firstLine
              || includes trimmed (js "console.log")
              || includes trimmed (js "=>")
              || includes trimmed (js "document.getElementById")
      then js "javascript"
      else if test false re_python firstLine
              || (includes firstLine (js ":")
                  && negb (includes firstLine (js "{"))
                  && negb (includes firstLine (js ";")))
      then js "python"
      else if startsWith trimmed (js "<") && endsWith trimmed (js ">")
      then js "html"
      else if startsWith trimmed (js "{") && endsWith trimmed (js "}")
      then js "json"
      else if includes trimmed (js "{") && test false re_css firstLine
      then js "css"
      else js "shell"
  end.

(** ** Lint post-processing ([postProcessMarkdown], src/App.tsx) *)

(** [/^(\s* )\*\*([^*\n]+)\*\*(\s* )$/gm] (a blank is put between a star and
    a closing parenthesis, here and below, to keep the comment well formed) *)
Definition re_bold_line : regex :=
  Seq Bol
 (Seq (Grp 1 (Star (Chr is_space)))
 (Seq (lit (js "**"))
 (Seq (Grp 2 (Plus (Chr (none_of (js "*\n")))))
 (Seq (lit (js "**"))
 (Seq (Grp 3 (Star (Chr is_space)))
      Eol))))).

(** [/^(\s* )\d+\.\s/gm] *)
Definition re_ordered : regex :=
  Seq Bol
 (Seq (Grp 1 (Star (Chr is_space)))
 (Seq (Plus (Chr is_digit))
 (Seq (Chr (is_char 46%N))
      (Chr is_space)))).

(** The list marker [([-*]|\d+\.)] as capture [2]. *)
Definition re_marker : regex :=
  Grp 2 (Alt (Chr (one_of (js "-*")))
             (Seq (Plus (Chr is_digit)) (Chr (is_char 46%N)))).

(** [/^( {2})([-*]|\d+\.)/gm] *)
Definition re_indent2 : regex :=
  Seq Bol (Seq (Grp 1 (lit (js "  "))) re_marker).

(** [/^( {4})([-*]|\d+\.)/gm] *)
Definition re_indent4 : regex :=
  Seq Bol (Seq (Grp 1 (lit (js "    "))) re_marker).

(** [/^(#{1,6}\s+\d+)\\\. /gm] *)
Definition re_heading_number : regex :=
  Seq Bol
 (Seq (Grp 1 (Seq (Seq (Chr (is_char 35%N)) (UpTo 5 (Chr (is_char 35%N))))
             (Seq (Plus (Chr is_space)) (Plus (Chr is_digit)))))
      (lit (js "\\. "))).

(** [/([^\n])\n(```)/g] *)
Definition re_fence_before : regex :=
  Seq (Grp 1 (Chr (none_of (js "\n"))))
 (Seq (Chr (is_char 10%N))
      (Grp 2 (lit (js "```")))).

(** [/(```)\n([^\n])/g] *)
Definition re_fence_after : regex :=
  Seq (Grp 1 (lit (js "```")))
 (Seq (Chr (is_char 10%N))
      (Grp 2 (Chr (none_of (js "\n"))))).

(** Step 1, MD036: emphasis used as heading. *)
Definition fixEmphasisHeading (md : jsstring) : jsstring :=
  replace_g true re_bold_line (template 3 (js "$1### $2$3")) md.

(** Step 2, MD029: ordered list item prefix. *)
Definition fixOrderedPrefix (md : jsstring) : jsstring :=
  replace_g true re_ordered (template 1 (js "$11. ")) md.

(** Step 3, MD007 / MD032: list indentation, two replacements in a row. *)
Definition fixIndent2 (md : jsstring) : jsstring :=
  replace_g true re_indent2 (template 2 (js "    $2")) md.

Definition fixIndent4 (md : jsstring) : jsstring :=
  replace_g true re_indent4 (template 2 (js "        $2")) md.

Definition fixIndentation (md : jsstring) : jsstring :=
  fixIndent4 (fixIndent2 md).

(** Step 4: escaped periods in headers. *)
Definition fixEscapedPeriod (md : jsstring) : jsstring :=
  replace_g true re_heading_number (template 1 (js "$1. ")) md.

(** Step 5, MD031: blank lines around fenced code blocks. *)
Definition fixFenceBefore (md : jsstring) : jsstring :=
  replace_g false re_fence_before (template 2 (js "$1\n\n$2")) md.

Definition fixFenceAfter (md : jsstring) : jsstring :=
  replace_g false re_fence_after (template 2 (js "$1\n\n$2")) md.

Definition fixFences (md : jsstring) : jsstring :=
  fixFenceAfter (fixFenceBefore md).

(** Step 6, MD047: single trailing newline. *)
Definition fixTrailingNewline (md : jsstring) : jsstring :=
  trim md ++ js "\n".

Definition postProcessMarkdown (md : jsstring) : jsstring :=
  let clean := md in
  let clean := fixEmphasisHeading clean in
  let clean := fixOrderedPrefix clean in
  let clean := fixIndent2 clean in
  let clean := fixIndent4 clean in
  let clean := fixEscapedPeriod clean in
  let clean := fixFenceBefore clean in
  let clean := fixFenceAfter clean in
  trim clean ++ js "\n".

(** ** The parsed document *)

Module DOM.

(** A node of the parsed tree.  The elements are HTML elements: an element
    carries its local name (lower case, as the HTML parser produces it), the
    value of its [class] attribute, which is what [className] reads (empty
    when absent), its other attributes and its children. *)
Inductive node : Type :=
| Text (data : jsstring)
| Comment (data : jsstring)
| Element (tag : jsstring) (className : jsstring)
          (attrs : list (jsstring * jsstring)) (children : list node).

Fixpoint eqs (a b : jsstring) : bool :=
  match a, b with
  | [], [] => true
  | x :: a', y :: b' => (x =? y)%N && eqs a' b'
  | _, _ => false
  end.

(** [textContent] of a node: the data of its text descendants, in tree
    order. *)
Fixpoint textContent (n : node) : jsstring :=
  match n with
  | Text d => d
  | Comment _ => []
  | Element _ _ _ ch =>
      (fix all (l : list node) : jsstring :=
         match l with
         | [] => []
         | c :: t => textContent c ++ all t
         end) ch
  end.

(** *** [classList.add] *)

Definition is_ascii_whitespace (c : char) : bool :=
  ((c =? 9) || (c =? 10) || (c =? 12) || (c =? 13) || (c =? 32))%N.

(** Split on ASCII whitespace; [cur] is the token being read, reversed. *)
Fixpoint tokens_from (cur : jsstring) (s : jsstring) : list jsstring :=
  match s with
  | [] => match cur with [] => [] | _ => [rev cur] end
  | c :: t =>
      if is_ascii_whitespace c
      then match cur with
           | [] => tokens_from [] t
           | _ => rev cur :: tokens_from [] t
           end
      else tokens_from (c :: cur) t
  end.

Fixpoint ordered_set (seen l : list jsstring) : list jsstring :=
  match l with
  | [] => []
  | x :: t =>
      if existsb (eqs x) seen then ordered_set seen t
      else x :: ordered_set (x :: seen) t
  end.

Fixpoint join_space (l : list jsstring) : jsstring :=
  match l with
  | [] => []
  | [x] => x
  | x :: t => x ++ 32%N :: join_space t
  end.

Definition classListAdd (className token : jsstring) : jsstring :=
  let set := ordered_set [] (tokens_from [] className) in
  join_space (if existsb (eqs token) set then set else set ++ [token]).

(** *** DOM clean-up of [convertToMarkdown] *)

(** Step 1: every [p] that is a child of an [li] is replaced by its own
    children ([querySelectorAll('li > p')], a static list taken before the
    first mutation). *)
Fixpoint unwrapListParagraphs (n : node) : node :=
  match n with
  | Element tag cls attrs ch =>
      Element tag cls attrs
        ((fix each (l : list node) : list node :=
            match l with
            | [] => []
            | c :: t =>
                match c with
                | Element ctag _ _ cch =>
                    if eqs tag (js "li") && eqs ctag (js "p")
                    then (fix inner (l' : list node) : list node :=
                            match l' with
                            | [] => []
                            | d :: t' => unwrapListParagraphs d :: inner t'
                            end) cch
                    else [unwrapListParagraphs c]
                | _ => [c]
                end ++ each t
            end) ch)
  | _ => n
  end.

(** [/(?:language-|lang-)(\w+)/] *)
Definition re_language : regex :=
  Seq (Alt (lit (js "language-")) (lit (js "lang-")))
      (Grp 1 (Plus (Chr is_word))).

(** The value left in [element.textContent] by
    [if (element.textContent) element.textContent = element.textContent.trim()]. *)
Definition trimmedText (n : node) : jsstring :=
  match textContent n with
  | [] => []
  | _ :: _ => trim (textContent n)
  end.

(** Every element of the list, unless the function throws on one of
    them. *)
Fixpoint sequence {A : Type} (l : list (option A)) : option (list A) :=
  match l with
  | [] => Some []
  | None :: _ => None
  | Some a :: t =>
      match sequence t with
      | Some t' => Some (a :: t')
      | None => None
      end
  end.

(** The class of a [code] element after the body of the [forEach] of step 2
    has run on it.  [parent] is the class of [element.parentElement], [None]
    when the element has no parent element: then
    [element.className || parent.className] reads a property of [null] as
    soon as the class of the element is empty, and a TypeError is thrown
    ([None]). *)
Definition taggedClass (parent : option jsstring) (cls text : jsstring)
  : option jsstring :=
  match (match cls with
         | _ :: _ => Some cls
         | [] => parent
         end) with
  | None => None
  | Some existingClass =>
      Some (if test false re_language existingClass then cls
            else
              let lang := detectLanguage text in
              match lang with
              | [] => cls
              | _ :: _ => classListAdd cls (js "language-" ++ lang)
              end)
  end.

(** Step 2: every [code] element below a [pre] ([querySelectorAll('pre
    code')], a static list in document order) has its text trimmed and
    receives a language class unless one is found.  [inPre] tells whether
    the node had a [pre] above it when the list was taken, [parent] is the
    class of its parent element at the time it is visited.

    Assigning [textContent] replaces the children by one text node (by
    nothing when the string is empty).  The old children leave the document
    but stay in the list: they are visited next, the direct ones without a
    parent element, and what is done to them is lost unless it throws.  A
    [code] element without any text keeps its children, which then see the
    class their parent has just received.  The result is [None] when the
    loop throws. *)
Fixpoint tagCodeBlocks (inPre : bool) (parent : option jsstring) (n : node)
  : option node :=
  match n with
  | Element tag cls attrs ch =>
      if inPre && eqs tag (js "code") then
        match taggedClass parent cls (trimmedText n) with
        | None => None
        | Some cls' =>
            match textContent n with
            | [] =>
                match sequence (map (tagCodeBlocks true (Some cls')) ch) with
                | Some ch' => Some (Element tag cls' attrs ch')
                | None => None
                end
            | _ :: _ =>
                match sequence (map (tagCodeBlocks true None) ch) with
                | Some _ =>
                    Some (Element tag cls' attrs
                            match trim (textContent n) with
                            | [] => []
                            | t => [Text t]
                            end)
                | None => None
                end
            end
        end
      else
        match sequence
                (map (tagCodeBlocks (inPre || eqs tag (js "pre")) (Some cls))
                     ch) with
        | Some ch' => Some (Element tag cls attrs ch')
        | None => None
        end
  | _ => Some n
  end.

(** The children of [body] after both clean-up steps, [None] when the
    second one throws.  Nothing below [body] asks for the class of [body]
    itself: a [code] element of the list has a [pre] between them. *)
Definition cleanup (body : list node) : option (list node) :=
  sequence (map (tagCodeBlocks false (Some [])) (map unwrapListParagraphs body)).

End DOM.
Import DOM.

(** ** The conversion facade ([convertToMarkdown], src/App.tsx) *)

Section Facade.

(** The platform parser ([DOMParser.parseFromString], giving the children
    of [body]), the serializer behind [innerHTML], and the translator of
    the [node-html-markdown] package with the options of the source. *)
Variable parseFromString : jsstring -> list node.
Variable innerHTML : list node -> jsstring.
Variable translate : jsstring -> jsstring.

(** [None] when the clean-up throws: the facade has no handler of its
    own. *)
Definition convertToMarkdown (html : jsstring) : option jsstring :=
  let doc := parseFromString html in
  match cleanup doc with
  | None => None
  | Some doc =>
      let cleanHtml := innerHTML doc in
      let md := translate cleanHtml in
      Some (postProcessMarkdown md)
  end.

End Facade.

(** ** The Turndown-based facade kept in the repository *)

Module Turndown.

(** [/^\*\*[^*]+\*\*$/] *)
Definition re_bold_only : regex :=
  Seq Bol
 (Seq (lit (js "**"))
 (Seq (Plus (Chr (none_of (js "*"))))
 (Seq (lit (js "**"))
      Eol))).

(** The replacement of the rule [emphasisHeading] (filter [p]). *)
Definition emphasisHeading (content : jsstring) : jsstring :=
  let trimmed := trim content in
  if test false re_bold_only trimmed && (length trimmed <? 100)
  then js "\n\n### " ++ slice 2 2 trimmed ++ js "\n\n"
  else js "\n\n" ++ trimmed ++ js "\n\n".

(** The replacement of the rule [fencedCodeBlock], from the text of the
    [code] element and the class found on it or on the [pre]. *)
Definition fencedCodeBlock (rawCode classSource : jsstring) : jsstring :=
  let lang :=
    match match_first false re_language classSource with
    | Some m => capture 1 m
    | None => []
    end in
  let lang := match lang with [] => detectLanguage rawCode | _ => lang end in
  js "\n\n```" ++ lang ++ js "\n" ++ trim rawCode ++ js "\n```\n\n".

(** [/[ \t]+$/gm] *)
Definition re_trailing_blanks : regex :=
  Seq (Plus (Chr (one_of (js " \t")))) Eol.

(** [/\n{3,}/g] *)
Definition re_blank_lines : regex := AtLeast 3 (Chr (is_char 10%N)).

Section Facade.

(** [turndownService.turndown] with the three rules installed. *)
Variable turndown : jsstring -> jsstring.

Definition convertToMarkdown (html : jsstring) : jsstring :=
  let md := turndown html in
  let md := replace_g false re_blank_lines (template 0 (js "\n\n"))
              (replace_g true re_trailing_blanks (template 0 []) md) in
  trim md ++ js "\n".

End Facade.

End Turndown.

(** ** Vocabulary of the statements *)

(** The longest prefix of code units in the class, and what follows. *)
Fixpoint span (p : char -> bool) (s : jsstring) : jsstring * jsstring :=
  match s with
  | c :: t => if p c then (c :: fst (span p t), snd (span p t)) else ([], s)
  | [] => ([], [])
  end.


(** Lines joined by line feeds. *)
Fixpoint unlines (l : list jsstring) : jsstring :=
  match l with
  | [] => []
  | [x] => x
  | x :: t => x ++ 10%N :: unlines t
  end.

(** A [pre] element holding one [code] element holding one text node. *)
Definition pre_code (preClass codeClass text : jsstring) : node :=
  Element (js "pre") preClass [] [Element (js "code") codeClass [] [Text text]].

(** A line feed followed by a fence. *)
Definition fence_line : jsstring := [10; 96; 96; 96]%N.

(** A fence opens the line right after [c], and [c] is not a line feed: the
    fence has no blank line before it. *)
Definition crowds (c : char) (t : jsstring) : bool :=
  negb (c =? 10)%N && startsWith t fence_line.

(** Some fence of the document directly follows a non-blank line. *)
Fixpoint crowded_fence (s : jsstring) : bool :=
  match s with
  | [] => false
  | c :: t => crowds c t || crowded_fence t
  end.

(** The lines of a document: the segments between line feeds. *)
Fixpoint lines_from (cur s : jsstring) : list jsstring :=
  match s with
  | [] => [rev cur]
  | c :: t => if (c =? 10)%N then rev cur :: lines_from [] t
              else lines_from (c :: cur) t
  end.

Definition lines (s : jsstring) : list jsstring := lines_from [] s.







(** A space or a tab. *)
Definition is_blank (c : char) : bool := one_of (js " \t") c.

(** The document is a body that does not end in white space, followed by
    one line feed: it ends with exactly one line break. *)
Definition ends_with_single_newline (s : jsstring) : bool :=
  match rev s with
  | c :: [] => (c =? 10)%N
  | c :: d :: _ => (c =? 10)%N && negb (is_space d)
  | [] => false
  end.

(** No line ends in a space or a tab: after a space or a tab comes one more
    code unit, and it is not a line terminator. *)
Fixpoint trailing_blank_free (s : jsstring) : bool :=
  match s with
  | [] => true
  | c :: t =>
      (negb (is_blank c) ||
       match t with
       | [] => false
       | d :: _ => negb (is_line_terminator d)
       end)
      && trailing_blank_free t
  end.

(** The code unit [c] does not occur in [t]. *)
Definition free_of (c : char) (t : jsstring) : bool :=
  forallb (fun x => negb (x =? c)%N) t.

(** Text between strong-emphasis markers. *)
Definition bold (t : jsstring) : jsstring := js "**" ++ t ++ js "**".

(** An ordered-list marker read at the start of a line: optional white
    space, digits, a period and one white-space code unit.  The result is
    the white space, the digits, the code unit after the period and the
    rest of the text. *)
Definition ordered_marker (s : jsstring)
  : option (jsstring * jsstring * char * jsstring) :=
  let (w, s1) := span is_space s in
  let (d, s2) := span is_digit s1 in
  match d, s2 with
  | _ :: _, dot :: c :: r =>
      if (dot =? 46)%N && is_space c then Some (w, d, c, r) else None
  | _, _ => None
  end.

(** The position after the code units [before] (nearest first) starts a
    line. *)
Definition line_start (before : jsstring) : bool :=
  match before with
  | [] => true
  | c :: _ => is_line_terminator c
  end.

(** The ordered-list marker at the start of the document, if there is one,
    is the literal marker: the digit 1, a period and a space. *)
Definition marker_is_one (s : jsstring) : bool :=
  match ordered_marker s with
  | Some (_, d, c, _) => eqs d [49%N] && (c =? 32)%N
  | None => true
  end.

(** Every ordered-list marker that starts a line of the document is the
    literal marker; [bol] tells whether the document begins at the start of
    a line. *)
Fixpoint markers_all_one (bol : bool) (s : jsstring) : bool :=
  (if bol then marker_is_one s else true) &&
  match s with
  | [] => true
  | c :: t => markers_all_one (is_line_terminator c) t
  end.

(** ** The other rules of the Turndown-based facade *)

Module TurndownRules.

(** The filter of the rule [fencedCodeBlock]: a [pre] whose first child is
    a [code] element. *)
Definition isFencedCodeBlock (n : node) : bool :=
  match n with
  | Element tag _ _ (Element ctag _ _ _ :: _) =>
      eqs tag (js "pre") && eqs ctag (js "code")
  | _ => false
  end.

(** The rule [fencedCodeBlock] on a node: where the filter holds, the
    replacement computed from the text of the first child and from the
    class found on it or on the [pre]. *)
Definition fencedCodeBlockRule (n : node) : option jsstring :=
  match n with
  | Element _ preClass _ (Element ctag codeClass cattrs cch :: _) =>
      if isFencedCodeBlock n
      then Some (Turndown.fencedCodeBlock
                   (textContent (Element ctag codeClass cattrs cch))
                   match codeClass with
                   | _ :: _ => codeClass
                   | [] => preClass
                   end)
      else None
  | _ => None
  end.

(** [parent && (parent.nodeName === 'LI' || parent.nodeName === 'OL' ||
    parent.nodeName === 'UL')]; [parentName] is the node name of the
    parent, if there is one. *)
Definition isNested (parentName : option jsstring) : bool :=
  match parentName with
  | Some n => eqs n (js "LI") || eqs n (js "OL") || eqs n (js "UL")
  | None => false
  end.

(** [content.split('\n').map(line => line.trimEnd()).join('\n').trim()] *)
Definition cleanContent (content : jsstring) : jsstring :=
  trim (unlines (map trimEnd (lines content))).

(** The replacement of the rule [listSpacing] (filter [ul], [ol]). *)
Definition listSpacing (content : jsstring) (parentName : option jsstring)
  : jsstring :=
  if isNested parentName
  then js "\n" ++ cleanContent content ++ js "\n"
  else js "\n\n" ++ cleanContent content ++ js "\n\n".

End TurndownRules.

(** ** The component ([App], src/App.tsx) *)

Module Component.

(** The values of the state variable [status]. *)
Inductive Status : Type :=
| idle | scanning | copied | error | no_selection | dev_mode | copy_failed.

(** The element behind a ref, as far as the handlers touch it (of the
    text area behind [outputRef] only [scrollTop] is used). *)
Record element : Type := Element_ {
  innerHTML : jsstring;
  scrollTop : N
}.

(** What the handlers read and write: the two state variables, the two
    refs ([None] while the element is not mounted), the text on the system
    clipboard, the callbacks handed to [setTimeout] (delay and the status
    they set) and the messages sent to the console, latest first. *)
Record app : Type := App {
  markdownOutput : jsstring;
  status : Status;
  editorRef : option element;
  outputRef : option element;
  clipboard : jsstring;
  timers : list (nat * Status);
  console : list jsstring
}.

(** The outcome of an awaited promise. *)
Inductive settled_promise (A : Type) : Type :=
| Fulfilled (a : A)
| Rejected.
Arguments Fulfilled {A} a.
Arguments Rejected {A}.

(** A tab as [chrome.tabs.query] reports it: [id?: number]. *)
Record tab : Type := Tab { id : option N }.

(** [window.chrome]: the properties [tabs] and [scripting] may be missing.
    [tabs] stands for the outcome of [chrome.tabs.query] for the active tab
    of the current window; [scripting] for that of
    [chrome.scripting.executeScript] with the function that reads the
    selection, as the list of the [result] fields ([None] for [null]). *)
Record chromeAPI : Type := Chrome {
  tabs : option (settled_promise (list tab));
  scripting : option (N -> settled_promise (list (option jsstring)))
}.

(** The platform around the component: [window.chrome] ([None] outside an
    extension) and whether [navigator.clipboard.writeText] fulfils. *)
Record platform : Type := Platform {
  chrome : option chromeAPI;
  writeText : jsstring -> bool
}.

(** A downloaded file: the name, the media type and the text. *)
Record file : Type := File {
  download : jsstring;
  type : jsstring;
  contents : jsstring
}.

(** *** Effects: state and exceptions *)

(** A computation either returns a value or throws, and leaves a state. *)
Definition M (A : Type) : Type := app -> option A * app.

Definition ret {A} (a : A) : M A := fun s => (Some a, s).

Definition bind {A B} (m : M A) (f : A -> M B) : M B :=
  fun s => match m s with
           | (Some a, s') => f a s'
           | (None, s') => (None, s')
           end.

Definition throw {A} : M A := fun s => (None, s).

(** [try { body } catch { handler }] *)
Definition try_catch {A} (body handler : M A) : M A :=
  fun s => match body s with
           | (Some a, s') => (Some a, s')
           | (None, s') => handler s'
           end.

Notation "x <- m ;; f" := (bind m (fun x => f))
  (at level 61, m at next level, right associativity).
Notation "m ;; f" := (bind m (fun _ => f))
  (at level 61, right associativity).

Definition await {A} (p : settled_promise A) : M A :=
  match p with
  | Fulfilled a => ret a
  | Rejected => throw
  end.

Definition setMarkdownOutput (md : jsstring) : M unit :=
  fun s => (Some tt, App md (status s) (editorRef s) (outputRef s)
                         (clipboard s) (timers s) (console s)).

Definition setStatus (st : Status) : M unit :=
  fun s => (Some tt, App (markdownOutput s) st (editorRef s) (outputRef s)
                         (clipboard s) (timers s) (console s)).

Definition setTimeout (st : Status) (ms : nat) : M unit :=
  fun s => (Some tt, App (markdownOutput s) (status s) (editorRef s)
                         (outputRef s) (clipboard s)
                         (timers s ++ [(ms, st)]) (console s)).

Definition log (msg : jsstring) : M unit :=
  fun s => (Some tt, App (markdownOutput s) (status s) (editorRef s)
                         (outputRef s) (clipboard s) (timers s)
                         (msg :: console s)).

(** [if (editorRef.current) { editorRef.current.innerHTML = html;
    editorRef.current.scrollTop = 0 }]; [reparse] is what the element
    holds once the assigned text has been parsed. *)
Definition setEditor (reparse : jsstring -> jsstring) (html : jsstring)
  : M unit :=
  fun s => (Some tt,
            App (markdownOutput s) (status s)
                (match editorRef s with
                 | Some _ => Some (Element_ (reparse html) 0)
                 | None => None
                 end)
                (outputRef s) (clipboard s) (timers s) (console s)).

(** [if (editorRef.current) editorRef.current.innerHTML = html] *)
Definition setEditorHTML (reparse : jsstring -> jsstring) (html : jsstring)
  : M unit :=
  fun s => (Some tt,
            App (markdownOutput s) (status s)
                (match editorRef s with
                 | Some e => Some (Element_ (reparse html) (scrollTop e))
                 | None => None
                 end)
                (outputRef s) (clipboard s) (timers s) (console s)).

(** [if (outputRef.current) outputRef.current.scrollTop = 0] *)
Definition scrollOutputToTop : M unit :=
  fun s => (Some tt,
            App (markdownOutput s) (status s) (editorRef s)
                (match outputRef s with
                 | Some e => Some (Element_ (innerHTML e) 0)
                 | None => None
                 end)
                (clipboard s) (timers s) (console s)).

(** [await navigator.clipboard.writeText(text)] *)
Definition clipboardWriteText (pf : platform) (text : jsstring) : M unit :=
  fun s => if writeText pf text
           then (Some tt, App (markdownOutput s) (status s) (editorRef s)
                              (outputRef s) text (timers s) (console s))
           else (None, s).

(** The tab id when [tab?.id] is truthy. *)
Definition truthyId (tabs : list tab) : option N :=
  match tabs with
  | t :: _ =>
      match id t with
      | Some n => if (n =? 0)%N then None else Some n
      | None => None
      end
  | [] => None
  end.

(** [results[0]?.result] when it is truthy: a string that is not empty. *)
Definition truthyResult (results : list (option jsstring)) : option jsstring :=
  match results with
  | Some (c :: h) :: _ => Some (c :: h)
  | _ => None
  end.

Section Handlers.

(** The platform functions behind [convertToMarkdown], and the parsing
    done by the setter of [innerHTML].  A handler is run as a whole, without
    another handler between two of its steps. *)
Variable parseFromString : jsstring -> list node.
Variable serialize : list node -> jsstring.
Variable translate : jsstring -> jsstring.
Variable reparse : jsstring -> jsstring.

Variable pf : platform.

(** The call [convertToMarkdown(html)]: it returns the Markdown text or
    throws. *)
Definition convert (html : jsstring) : M jsstring :=
  match convertToMarkdown parseFromString serialize translate html with
  | Some md => ret md
  | None => throw
  end.

(** The effect run once after mounting. *)
Definition autoLoadSelection : M unit :=
  match chrome pf with
  | Some (Chrome (Some tabsQuery) (Some execute)) =>
      try_catch
        (setStatus scanning ;;
         tabs <- await tabsQuery ;;
         match truthyId tabs with
         | None => setStatus idle
         | Some tabId =>
             results <- await (execute tabId) ;;
             match truthyResult results with
             | Some html =>
                 setEditor reparse html ;;
                 md <- convert html ;;
                 setMarkdownOutput md ;;
                 scrollOutputToTop ;;
                 try_catch
                   (clipboardWriteText pf md ;;
                    setStatus copied ;;
                    setTimeout idle 3000)
                   (log (js "Auto-copy failed") ;;
                    setStatus copy_failed)
             | None => setStatus no_selection
             end
         end)
        (log (js "Auto-load failed") ;;
         setStatus error)
  | _ => setStatus dev_mode
  end.

(** [onInput] of the editor; it has no handler for what the conversion
    throws. *)
Definition handleInput : M unit :=
  fun s => match editorRef s with
           | Some e => (md <- convert (innerHTML e) ;; setMarkdownOutput md) s
           | None => ret tt s
           end.


Definition clearAll : M unit :=
  setEditorHTML reparse [] ;;
  setMarkdownOutput [] ;;
  setStatus idle.

(** The file that [downloadMarkdown] hands to the browser: a [Blob] of the
    output, offered under a fixed name through a temporary link. *)
Definition downloadMarkdown (s : app) : file :=
  File (js "converted_canvas.md") (js "text/markdown") (markdownOutput s).

(** [disabled={!markdownOutput}] on the button that saves the file. *)
Definition saveDisabled (s : app) : bool :=
  match markdownOutput s with
  | [] => true
  | _ :: _ => false
  end.

(** The state an action leaves. *)
Definition after (m : M unit) (s : app) : app := snd (m s).

End Handlers.

End Component.


(** ** More vocabulary *)

(** The values [detectLanguage] can return. *)
Definition languages : list jsstring :=
  [js "text"; js "shell"; js "javascript"; js "python"; js "html"; js "json";
   js "css"].

(** [element.className || parent.className || '']. *)
Definition existingClass (parentClass cls : jsstring) : jsstring :=
  match cls with
  | _ :: _ => cls
  | [] => parentClass
  end.

Definition is_element (tag : jsstring) (n : node) : bool :=
  match n with
  | Element t _ _ _ => eqs t tag
  | _ => false
  end.

(** Some list item has a paragraph as a child: [li > p] selects something. *)
Fixpoint has_li_p (n : node) : bool :=
  match n with
  | Element tag _ _ ch =>
      (eqs tag (js "li") && existsb (is_element (js "p")) ch)
      || existsb has_li_p ch
  | _ => false
  end.

(** Some paragraph has a paragraph as a child. *)
Fixpoint has_p_p (n : node) : bool :=
  match n with
  | Element tag _ _ ch =>
      (eqs tag (js "p") && existsb (is_element (js "p")) ch)
      || existsb has_p_p ch
  | _ => false
  end.

(** The tree holds a [pre] element. *)
Fixpoint has_pre (n : node) : bool :=
  match n with
  | Element tag _ _ ch => eqs tag (js "pre") || existsb has_pre ch
  | _ => false
  end.

(** A [code] element without a class. *)
Definition bare_code (n : node) : bool :=
  match n with
  | Element tag [] _ _ => eqs tag (js "code")
  | _ => false
  end.

(** Some [code] element below a [pre] holds text and has a [code] element
    without a class as a child; [inPre] tells whether [n] is below a
    [pre]. *)
Fixpoint orphans_code (inPre : bool) (n : node) : bool :=
  match n with
  | Element tag _ _ ch =>
      (inPre && eqs tag (js "code")
       && match textContent n with
          | [] => false
          | _ :: _ => true
          end
       && existsb bare_code ch)
      || existsb (orphans_code (inPre || eqs tag (js "pre"))) ch
  | _ => false
  end.

(** Every [code] element below a [pre] has a language annotation on it or
    on its parent, and its text is trimmed; [inPre] and [parentClass]
    describe the place of [n] as in [tagCodeBlocks]. *)
Fixpoint annotated (inPre : bool) (parentClass : jsstring) (n : node) : bool :=
  match n with
  | Element tag cls _ ch =>
      (if inPre && eqs tag (js "code")
       then test false re_language (existingClass parentClass cls)
            && eqs (trim (textContent n)) (textContent n)
       else true)
      && forallb (annotated (inPre || eqs tag (js "pre")) cls) ch
  | _ => true
  end.

(** The code units the rewrites of the post-processor look for: a star, a
    hyphen, a hash mark, a backtick or a digit. *)
Definition is_markup (c : char) : bool := one_of (js "*-#`") c || is_digit c.

(** A text without any of them. *)
Definition prose (s : jsstring) : bool :=
  forallb (fun c => negb (is_markup c)) s.

(** A text within one line: it holds no line terminator. *)
Definition one_line (s : jsstring) : bool :=
  forallb (fun c => negb (is_line_terminator c)) s.

(** What [Turndown.convertToMarkdown] does to the text [md] that [turndown]
    hands back. *)
Definition tidy (md : jsstring) : jsstring :=
  Turndown.convertToMarkdown (fun _ => md) [].

(** White space other than the line feed. *)
Definition is_inline_space (c : char) : bool := is_space c && negb (c =? 10)%N.

(** No line (between line feeds) ends in white space: a white-space code
    unit other than a line feed is followed by one more code unit, and it
    is not a line feed. *)
Fixpoint line_ends_clean (s : jsstring) : bool :=
  match s with
  | [] => true
  | c :: t =>
      (negb (is_inline_space c) ||
       match t with
       | [] => false
       | d :: _ => negb (d =? 10)%N
       end)
      && line_ends_clean t
  end.

(** A platform for the examples: an extension page whose active tab has the
    id 7 and whose selection is one paragraph; [copies] tells whether the
    clipboard accepts text. *)
Definition example_platform (copies : bool) : Component.platform :=
  Component.Platform
    (Some (Component.Chrome
             (Some (Component.Fulfilled [Component.Tab (Some 7%N)]))
             (Some (fun _ => Component.Fulfilled [Some (js "<p>Hello</p>")]))))
    (fun _ => copies).

(** A platform outside an extension. *)
Definition plain_page : Component.platform :=
  Component.Platform None (fun _ => true).

(** The component right after mounting. *)
Definition mounted : Component.app :=
  Component.App [] Component.idle
    (Some (Component.Element_ [] 0%N)) (Some (Component.Element_ [] 0%N))
    [] [] [].

(** The text holds no line terminator other than the line feed. *)
Definition lf_only (s : jsstring) : bool :=
  forallb (fun c => negb (is_line_terminator c) || (c =? 10)%N) s.

(** The position after the text [p] starts a line: [p] is empty or ends
    with a line feed. *)
Definition at_line_start (p : jsstring) : bool :=
  match rev p with
  | [] => true
  | c :: _ => (c =? 10)%N
  end.

(** The position before the text [r] ends a line: [r] is empty or begins
    with a line feed. *)
Definition at_line_end (r : jsstring) : bool :=
  match r with
  | [] => true
  | c :: _ => (c =? 10)%N
  end.


(** ** Auxiliary definitions of the proofs *)

Module Aux.

Local Open Scope N_scope.

(** [s'] is [s] after some more input has been consumed. *)
Definition extends (s s' : mstate) : Prop :=
  exists x, rest s = x ++ rest s' /\
            prev s' = rev x ++ prev s /\
            pos s' = (length x + pos s)%nat.

(** A matcher only hands to its continuation states that extend the one it
    started from. *)
Definition forwards (f : cont -> cont) : Prop :=
  forall k s m, f k s = Some m -> exists s', extends s s' /\ k s' = Some m.

(** [p*] followed by [k], written out: take the longest run first, give
    back one code unit at a time. *)
Fixpoint star_chr (p : char -> bool) (k : cont)
  (pv rs : jsstring) (n : nat) (cs : list (nat * jsstring)) : option mstate :=
  match rs with
  | c :: t =>
      if p c then
        match star_chr p k (c :: pv) t (S n) cs with
        | Some x => Some x
        | None => k (MState pv rs n cs)
        end
      else k (MState pv rs n cs)
  | [] => k (MState pv rs n cs)
  end.

(** A continuation that fails whenever the next code unit is in [p]. *)
Definition rejects (p : char -> bool) (k : cont) : Prop :=
  forall pv c t n cs, p c = true -> k (MState pv (c :: t) n cs) = None.


(** *** Step 5 of the post-processor *)

(** The two loops of step 5. *)
Definition loopA (before s : jsstring) : jsstring :=
  replace_loop false re_fence_before (template 2 (js "$1\n\n$2")) before s 0.

Definition loopB (before s : jsstring) : jsstring :=
  replace_loop false re_fence_after (template 2 (js "$1\n\n$2")) before s 0.

(** Where the first pattern matches: a code unit other than a line feed,
    then a line feed and a fence. *)
Definition before_view (c : char) (t : jsstring) : option jsstring :=
  match t with
  | a :: b1 :: b2 :: b3 :: r =>
      if negb (c =? 10) && (a =? 10) && (b1 =? 96) && (b2 =? 96) && (b3 =? 96)
      then Some r else None
  | _ => None
  end.

(** Where the second pattern matches: a fence, a line feed, then a code
    unit other than a line feed. *)
Definition after_view (c : char) (t : jsstring) : option (char * jsstring) :=
  match t with
  | b2 :: b3 :: a :: z :: r =>
      if (c =? 96) && (b2 =? 96) && (b3 =? 96) && (a =? 10) && negb (z =? 10)
      then Some (z, r) else None
  | _ => None
  end.





(** *** The clean-up of the Turndown-based facade *)

Definition loopS (before s : jsstring) : jsstring :=
  replace_loop true Turndown.re_trailing_blanks (template 0 []) before s 0.

Definition loopC (before s : jsstring) : jsstring :=
  replace_loop false Turndown.re_blank_lines (template 0 (js "\n\n")) before s 0.

(** The position is the end of a line. *)
Definition eol (s : jsstring) : bool :=
  match s with
  | [] => true
  | c :: _ => is_line_terminator c
  end.

(** The next code unit exists and is not a line terminator. *)
Definition goes_on (s : jsstring) : bool :=
  match s with
  | [] => false
  | d :: _ => negb (is_line_terminator d)
  end.

(** *** Step 2 of the post-processor *)

Definition loopO (before s : jsstring) : jsstring :=
  replace_loop true re_ordered (template 1 (js "$11. ")) before s 0.

(** Text that may follow the digits of a marker: its period and a
    white-space code unit. *)
Definition marker_end (s : jsstring) : bool :=
  match s with
  | dot :: c :: _ => (dot =? 46) && is_space c
  | _ => false
  end.

(** The text begins with an ordered-list marker. *)
Definition has_marker (s : jsstring) : bool :=
  match ordered_marker s with
  | Some _ => true
  | None => false
  end.

(** The text begins with digits (none allowed) that complete a marker. *)
Definition tail_marker (s : jsstring) : bool :=
  marker_end (snd (span is_digit s)).

(** The text begins with the digits, at least one, of a marker. *)
Definition digits_marker (s : jsstring) : bool :=
  match s with
  | c :: t => is_digit c && tail_marker t
  | [] => false
  end.

(** *** Rewrites anchored at the start of a line *)

(** No line of the document begins with a text of the given shape; [bol]
    tells whether the document begins at the start of a line. *)
Fixpoint no_shape (shape : jsstring -> bool) (bol : bool) (s : jsstring)
  : bool :=
  (if bol then negb (shape s) else true) &&
  match s with
  | [] => true
  | c :: t => no_shape shape (is_line_terminator c) t
  end.

(** *** Step 3 of the post-processor *)

Definition spaces (k : nat) : jsstring := repeat 32 k.

(** [/^( {k})([-*]|\d+\.)/gm] *)
Definition re_indent (k : nat) : regex :=
  Seq Bol (Seq (Grp 1 (lit (spaces k))) re_marker).

(** The replacement of [k] spaces by [2k] spaces. *)
Definition tpl_indent (k : nat) : list piece :=
  map Txt (spaces (2 * k)) ++ [Ref 2].

Definition loopI (k : nat) (before s : jsstring) : jsstring :=
  replace_loop true (re_indent k) (tpl_indent k) before s 0.

(** The digits of a numbered marker are followed by a period. *)
Definition dot_after_digits (s : jsstring) : bool :=
  match snd (span is_digit s) with
  | d :: _ => (d =? 46)
  | [] => false
  end.

(** A list marker at the start of the text: a hyphen or a star, or digits
    and a period; with the text after it. *)
Definition marker_split (s : jsstring) : option (jsstring * jsstring) :=
  match s with
  | [] => None
  | c :: t =>
      if one_of [45; 42] c then Some ([c], t)
      else if is_digit c && dot_after_digits t
      then Some (c :: fst (span is_digit t) ++ [46],
                 skipn 1 (snd (span is_digit t)))
      else None
  end.

Definition has_list_marker (s : jsstring) : bool :=
  match marker_split s with
  | Some _ => true
  | None => false
  end.

(** The text begins with exactly [k] spaces and a list marker. *)
Fixpoint indent_shape (k : nat) (s : jsstring) : bool :=
  match k with
  | 0%nat => has_list_marker s
  | S k' =>
      match s with
      | c :: t => (c =? 32) && indent_shape k' t
      | [] => false
      end
  end.

(** *** Step 4 of the post-processor *)

Definition loopH (before s : jsstring) : jsstring :=
  replace_loop true re_heading_number (template 1 (js "$1. ")) before s 0.

Definition is_hash (c : char) : bool := is_char 35 c.

(** The escaped period and the space that end the pattern. *)
Definition escaped_period : jsstring := [92; 46; 32].

(** The parts of a heading that begins with a number and an escaped
    period: the hashes (one to six), the white space, the digits, and the
    text after the escaped period and its space. *)
Definition heading_view (s : jsstring)
  : option (jsstring * jsstring * jsstring * jsstring) :=
  let h := fst (span is_hash s) in
  let s1 := snd (span is_hash s) in
  let w := fst (span is_space s1) in
  let s2 := snd (span is_space s1) in
  let d := fst (span is_digit s2) in
  let s3 := snd (span is_digit s2) in
  if (1 <=? length h)%nat && (length h <=? 6)%nat &&
     (1 <=? length w)%nat && (1 <=? length d)%nat &&
     startsWith s3 escaped_period
  then Some (h, w, d, skipn 3 s3)
  else None.

Definition heading_shape (s : jsstring) : bool :=
  match heading_view s with
  | Some _ => true
  | None => false
  end.

(** The stages of reading such a heading. *)
Definition digits_then_period (s : jsstring) : bool :=
  startsWith (snd (span is_digit s)) escaped_period.

Definition number_then_period (s : jsstring) : bool :=
  match s with
  | d :: t => is_digit d && digits_then_period t
  | [] => false
  end.

Definition space_then_number (s : jsstring) : bool :=
  match s with
  | w :: t => is_space w && number_then_period (snd (span is_space t))
  | [] => false
  end.

(** *** Step 1 of the post-processor *)

Definition loopE (before s : jsstring) : jsstring :=
  replace_loop true re_bold_line (template 3 (js "$1### $2$3")) before s 0.

(** A code unit of the text between the markers: [[^*\n]]. *)
Definition text_char (c : char) : bool := none_of [42; 10] c.

(** The white space up to the end of a line, as the greedy [(\s* )$] takes
    it: the longest run of white space after which the text ends or a line
    terminator comes; with the text after it. *)
Fixpoint eol_split (s : jsstring) : option (jsstring * jsstring) :=
  match s with
  | [] => Some ([], [])
  | c :: t =>
      if is_space c then
        match eol_split t with
        | Some (w, r) => Some (c :: w, r)
        | None => if is_line_terminator c then Some ([], s) else None
        end
      else None
  end.

(** The parts of a bold-only line: the white space before the opening
    marker, the text, the white space after the closing marker, and what
    follows. *)
Definition bold_view (s : jsstring)
  : option (jsstring * jsstring * jsstring * jsstring) :=
  let w1 := fst (span is_space s) in
  match snd (span is_space s) with
  | a :: b :: s2 =>
      let t := fst (span text_char s2) in
      match snd (span text_char s2) with
      | c :: d :: s4 =>
          if (a =? 42) && (b =? 42) && (1 <=? length t)%nat &&
             (c =? 42) && (d =? 42)
          then match eol_split s4 with
               | Some (w3, r) => Some (w1, t, w3, r)
               | None => None
               end
          else None
      | _ => None
      end
  | _ => None
  end.

Definition bold_shape (s : jsstring) : bool :=
  match bold_view s with
  | Some _ => true
  | None => false
  end.

(** *** Documents that the post-processor leaves alone *)

(** Some fence of the document is directly followed by a non-empty line. *)
Fixpoint fence_crowds_next (s : jsstring) : bool :=
  match s with
  | [] => false
  | c :: t =>
      match after_view c t with
      | Some _ => true
      | None => fence_crowds_next t
      end
  end.

(** A document of two code units or more does not begin with white space. *)
Definition starts_with_text (s : jsstring) : bool :=
  match s with
  | c :: _ :: _ => negb (is_space c)
  | _ => true
  end.

(** No line is bold-only text, every ordered marker is the literal one, no
    list marker is indented by exactly two or four spaces, no heading number
    has an escaped period, every fence has a blank line or a fence around
    it, and the document is trimmed and ends with one line feed. *)
Definition settled (s : jsstring) : bool :=
  no_shape bold_shape true s &&
  markers_all_one true s &&
  no_shape (indent_shape 2) true s &&
  no_shape (indent_shape 4) true s &&
  no_shape heading_shape true s &&
  negb (crowded_fence s) &&
  negb (fence_crowds_next s) &&
  starts_with_text s &&
  ends_with_single_newline s.

(** *** The language annotation of a class *)

(** The word that follows the prefix [p] at the start of [s], as [(\w+)]
    takes it, and the text after it. *)
Definition language_word (p s : jsstring) : option (jsstring * jsstring) :=
  if startsWith s p then
    match skipn (length p) s with
    | c :: t =>
        if is_word c
        then Some (c :: fst (span is_word t), snd (span is_word t))
        else None
    | [] => None
    end
  else None.

(** Where [/(?:language-|lang-)(\w+)/] matches at the start of [s]: the
    prefix, the word and the rest. *)
Definition language_view (s : jsstring)
  : option (jsstring * jsstring * jsstring) :=
  match language_word (js "language-") s with
  | Some (w, r) => Some (js "language-", w, r)
  | None =>
      match language_word (js "lang-") s with
      | Some (w, r) => Some (js "lang-", w, r)
      | None => None
      end
  end.

(** *** The clean-up of the parsed document *)

(** The children an element keeps when the paragraphs that are children of
    list items are unwrapped: [c] seen as a child of an element [tag]. *)
Definition unwrapChild (tag : jsstring) (c : node) : list node :=
  match c with
  | Element ctag _ _ cch =>
      if eqs tag (js "li") && eqs ctag (js "p")
      then map unwrapListParagraphs cch
      else [unwrapListParagraphs c]
  | _ => [c]
  end.

(** *** The clean-up of the Turndown-based facade *)

(** No run of line feeds is longer than two; [run] is the number of line
    feeds right before the text. *)
Fixpoint feeds_bounded (run : nat) (s : jsstring) : bool :=
  match s with
  | [] => true
  | c :: t =>
      if c =? 10 then (run <? 2)%nat && feeds_bounded (S run) t
      else feeds_bounded 0 t
  end.

(** The number of line feeds the text begins with. *)
Definition leading_feeds (s : jsstring) : nat :=
  length (fst (span (is_char 10) s)).

(** *** The component *)

(** The ways [autoLoadSelection] can end, from the state [s]; [conv] is the
    conversion, [None] where it throws. *)
Inductive outcome (conv : jsstring -> option jsstring)
  (pf : Component.platform) (s : Component.app) : Component.app -> Prop :=
| NoExtension :
    outcome conv pf s
      (Component.App (Component.markdownOutput s) Component.dev_mode
         (Component.editorRef s) (Component.outputRef s)
         (Component.clipboard s) (Component.timers s) (Component.console s))
| NoTab :
    outcome conv pf s
      (Component.App (Component.markdownOutput s) Component.idle
         (Component.editorRef s) (Component.outputRef s)
         (Component.clipboard s) (Component.timers s) (Component.console s))
| Failed :
    outcome conv pf s
      (Component.App (Component.markdownOutput s) Component.error
         (Component.editorRef s) (Component.outputRef s)
         (Component.clipboard s) (Component.timers s)
         (js "Auto-load failed" :: Component.console s))
| NoSelection :
    outcome conv pf s
      (Component.App (Component.markdownOutput s) Component.no_selection
         (Component.editorRef s) (Component.outputRef s)
         (Component.clipboard s) (Component.timers s) (Component.console s))
| NotConverted html e :
    html <> [] -> conv html = None ->
    outcome conv pf s
      (Component.App (Component.markdownOutput s) Component.error e
         (Component.outputRef s) (Component.clipboard s) (Component.timers s)
         (js "Auto-load failed" :: Component.console s))
| Copied html md e o :
    html <> [] -> conv html = Some md -> Component.writeText pf md = true ->
    outcome conv pf s
      (Component.App md Component.copied e o md
         (Component.timers s ++ [(3000%nat, Component.idle)])
         (Component.console s))
| NotCopied html md e o :
    html <> [] -> conv html = Some md -> Component.writeText pf md = false ->
    outcome conv pf s
      (Component.App md Component.copy_failed e o
         (Component.clipboard s) (Component.timers s)
         (js "Auto-copy failed" :: Component.console s)).

(** *** The pass over the code blocks where it does not throw *)

(** The class [taggedClass] gives an element whose parent element has the
    class [parentClass]. *)
Definition tagged_class (parentClass cls text : jsstring) : jsstring :=
  if test false re_language (existingClass parentClass cls) then cls
  else
    match detectLanguage text with
    | [] => cls
    | _ :: _ => classListAdd cls (js "language-" ++ detectLanguage text)
    end.

(** The tree [tagCodeBlocks] returns when it returns. *)
Fixpoint tagged (inPre : bool) (parentClass : jsstring) (n : node) : node :=
  match n with
  | Element tag cls attrs ch =>
      if inPre && eqs tag (js "code") then
        Element tag (tagged_class parentClass cls (trimmedText n)) attrs
          match textContent n with
          | [] =>
              map (tagged true
                     (tagged_class parentClass cls (trimmedText n))) ch
          | _ :: _ =>
              match trim (textContent n) with
              | [] => []
              | t => [Text t]
              end
          end
      else
        Element tag cls attrs
          (map (tagged (inPre || eqs tag (js "pre")) cls) ch)
  | _ => n
  end.

(** *** Reading a bold-only line, one part at a time *)

(** White space up to the end of a line. *)
Definition trailing_ok (s : jsstring) : bool :=
  match eol_split s with
  | Some _ => true
  | None => false
  end.

(** The closing marker, then white space up to the end of a line. *)
Definition closing (s : jsstring) : bool :=
  match s with
  | a :: b :: s4 => (a =? 42) && (b =? 42) && trailing_ok s4
  | _ => false
  end.

(** What is left of the text, then the closing marker. *)
Definition rest_closing (s : jsstring) : bool :=
  closing (snd (span text_char s)).

(** The text, of one code unit at least, then the closing marker. *)
Definition text_then_closing (s : jsstring) : bool :=
  match s with
  | c :: t => text_char c && rest_closing t
  | [] => false
  end.

(** The opening marker and all that follows it. *)
Definition tail_bold (s : jsstring) : bool :=
  match s with
  | a :: b :: s2 => (a =? 42) && (b =? 42) && text_then_closing s2
  | _ => false
  end.

End Aux.
Import Aux.

(** * Facts about the matcher *)

Module RegExpFacts.

Lemma extends_refl s : extends s s.
Proof. exists []. auto. Qed.

Lemma extends_trans s1 s2 s3 :
  extends s1 s2 -> extends s2 s3 -> extends s1 s3.
Proof.
  intros (x & Hx1 & Hx2 & Hx3) (y & Hy1 & Hy2 & Hy3).
  exists (x ++ y). rewrite Hx1, Hy1, Hy2, Hx2, Hy3, Hx3.
  rewrite rev_app_distr, !app_assoc, length_app. repeat split; lia.
Qed.

Lemma star_forwards step fuel : forwards step -> forwards (star step fuel).
Proof.
  intros Hstep. induction fuel as [|f IH]; intros k s m H; simpl in H.
  - exists s. split; [apply extends_refl | exact H].
  - destruct (step _ s) as [x|] eqn:E.
    + inversion H; subst x. apply Hstep in E. destruct E as (s1 & E1 & E2).
      destruct (length (rest s1) <? length (rest s)); [|discriminate].
      apply IH in E2. destruct E2 as (s2 & E3 & E4).
      exists s2. split; [eapply extends_trans; eauto | exact E4].
    + exists s. split; [apply extends_refl | exact H].
Qed.

Lemma interp_forwards ml r : forwards (interp ml r).
Proof.
  induction r as [|p|a IHa b IHb|a IHa b IHb|a IHa|i a IHa| | |];
    intros k s m H; simpl in H.
  - exists s. split; [apply extends_refl | exact H].
  - destruct (rest s) as [|c t] eqn:E; [discriminate|].
    destruct (p c); [|discriminate].
    exists (advance c t s). split; [|exact H].
    exists [c]. simpl. rewrite E. auto.
  - apply IHa in H. destruct H as (s1 & E1 & H).
    apply IHb in H. destruct H as (s2 & E2 & H).
    exists s2. split; [eapply extends_trans; eauto | exact H].
  - destruct (interp ml a k s) eqn:E.
    + inversion H; subst. apply IHa in E. exact E.
    + apply IHb in H. exact H.
  - apply (star_forwards _ _ IHa) in H. exact H.
  - apply IHa in H. destruct H as (s1 & E1 & H).
    eexists. split; [|exact H].
    destruct E1 as (x & X1 & X2 & X3). exists x. simpl. auto.
  - destruct (at_bol ml s); [|discriminate].
    exists s. split; [apply extends_refl | exact H].
  - destruct (at_eol ml s); [|discriminate].
    exists s. split; [apply extends_refl | exact H].
  - destruct (xorb _ _); [|discriminate].
    exists s. split; [apply extends_refl | exact H].
Qed.

(** A successful attempt splits the input into the matched text and the
    rest. *)
Lemma exec_split ml r before s m :
  exec ml r before s = Some m ->
  exists x, s = x ++ rest m /\ prev m = rev x ++ before /\ pos m = length x.
Proof.
  intros H. apply interp_forwards in H. destruct H as (s' & (x & X1 & X2 & X3) & E).
  inversion E; subst s'. exists x. simpl in *. repeat split; auto. lia.
Qed.

(** *** Unfolding the replacement loop *)

Section Loop.
Variables (ml : bool) (r : regex) (tpl : list piece).

Lemma replace_loop_nil before :
  replace_loop ml r tpl before [] 0 =
  match exec ml r before [] with
  | Some m => substitute tpl m
  | None => []
  end.
Proof.
  cbn [replace_loop]. destruct (exec ml r before []) as [m|]; [|reflexivity].
  destruct (pos m); rewrite app_nil_r; reflexivity.
Qed.

Lemma replace_loop_skip x : forall before s,
  replace_loop ml r tpl before (x ++ s) (length x) =
  replace_loop ml r tpl (rev x ++ before) s 0.
Proof.
  induction x as [|c x IH]; intros before s.
  - simpl. destruct s; reflexivity.
  - simpl. rewrite IH, <- app_assoc. reflexivity.
Qed.

Lemma replace_loop_hit before s m :
  exec ml r before s = Some m -> pos m <> 0 ->
  replace_loop ml r tpl before s 0 =
  substitute tpl m ++ replace_loop ml r tpl (prev m) (rest m) 0.
Proof.
  intros H Hpos. destruct (exec_split _ _ _ _ _ H) as (x & X1 & X2 & X3).
  destruct x as [|c x]; [simpl in X3; lia|].
  subst s. change ((c :: x) ++ rest m) with (c :: (x ++ rest m)) in *.
  cbn [replace_loop]. rewrite H.
  simpl in X3. rewrite X3. f_equal.
  rewrite replace_loop_skip, X2. simpl. rewrite <- app_assoc. reflexivity.
Qed.

Lemma replace_loop_miss before c t :
  exec ml r before (c :: t) = None ->
  replace_loop ml r tpl before (c :: t) 0 =
  c :: replace_loop ml r tpl (c :: before) t 0.
Proof. intros H. cbn [replace_loop]. rewrite H. reflexivity. Qed.

End Loop.

(** *** Greedy iteration of a character class *)

Lemma star_chr_eq ml p k : forall rs fuel pv n cs,
  length rs <= fuel ->
  star (interp ml (Chr p)) fuel k (MState pv rs n cs) = star_chr p k pv rs n cs.
Proof.
  induction rs as [|c t IH]; intros fuel pv n cs Hf.
  - destruct fuel; reflexivity.
  - destruct fuel as [|f]; [simpl in Hf; lia|].
    simpl. destruct (p c); [|reflexivity].
    unfold advance; simpl.
    assert (L : (length t <? S (length t)) = true) by (apply Nat.ltb_lt; lia).
    rewrite L, IH by (simpl in Hf; lia). reflexivity.
Qed.

Lemma interp_star_chr ml p k pv rs n cs :
  interp ml (Star (Chr p)) k (MState pv rs n cs) = star_chr p k pv rs n cs.
Proof. exact (star_chr_eq ml p k rs (length rs) pv n cs (le_n _)). Qed.

Lemma span_app p s : fst (span p s) ++ snd (span p s) = s.
Proof.
  induction s as [|c t IH]; simpl; [reflexivity|].
  destruct (p c); simpl; [rewrite IH|]; reflexivity.
Qed.

Lemma span_all p s : forallb p (fst (span p s)) = true.
Proof.
  induction s as [|c t IH]; simpl; [reflexivity|].
  destruct (p c) eqn:E; simpl; [rewrite E, IH|]; reflexivity.
Qed.

Lemma span_stop p s :
  match snd (span p s) with c :: _ => p c = false | [] => True end.
Proof.
  induction s as [|c t IH]; simpl; [exact I|].
  destruct (p c) eqn:E; simpl; [exact IH | exact E].
Qed.

(** When the continuation cannot start with a code unit of the class,
    backtracking into the run is useless: only the longest run counts. *)
Lemma star_chr_longest p k : rejects p k ->
  forall rs pv n cs,
  star_chr p k pv rs n cs =
  k (MState (rev (fst (span p rs)) ++ pv) (snd (span p rs))
            (length (fst (span p rs)) + n) cs).
Proof.
  intros Hk. induction rs as [|c t IH]; intros pv n cs; simpl; [reflexivity|].
  destruct (p c) eqn:E; simpl; [|reflexivity].
  rewrite IH, <- app_assoc. simpl.
  replace (length (fst (span p t)) + S n) with (S (length (fst (span p t)) + n)) by lia.
  destruct (k _) eqn:K; [reflexivity|].
  apply Hk. exact E.
Qed.

(** *** The equations of the matcher *)

Lemma interp_Seq ml a b k s :
  interp ml (Seq a b) k s = interp ml a (interp ml b k) s.
Proof. reflexivity. Qed.

Lemma interp_Chr ml p k pv c t n cs :
  interp ml (Chr p) k (MState pv (c :: t) n cs) =
  if p c then k (MState (c :: pv) t (S n) cs) else None.
Proof. reflexivity. Qed.

Lemma interp_Chr_nil ml p k pv n cs :
  interp ml (Chr p) k (MState pv [] n cs) = None.
Proof. reflexivity. Qed.

Lemma interp_Alt ml a b k s :
  interp ml (Alt a b) k s =
  match interp ml a k s with
  | Some x => Some x
  | None => interp ml b k s
  end.
Proof. reflexivity. Qed.

Lemma interp_Grp ml i a k s :
  interp ml (Grp i a) k s =
  interp ml a
    (fun s' => k (MState (prev s') (rest s') (pos s')
                         ((i, captured s s') :: caps s'))) s.
Proof. reflexivity. Qed.

Lemma interp_Bol ml k s :
  interp ml Bol k s = if at_bol ml s then k s else None.
Proof. reflexivity. Qed.

Lemma interp_Eol ml k s :
  interp ml Eol k s = if at_eol ml s then k s else None.
Proof. reflexivity. Qed.

Lemma interp_Eps ml k s : interp ml Eps k s = k s.
Proof. reflexivity. Qed.

(** One step of symbolic matching. *)
Ltac regex_steps :=
  repeat first
    [ rewrite interp_Seq | rewrite interp_Chr | rewrite interp_Chr_nil
    | rewrite interp_Bol | rewrite interp_Eol | rewrite interp_Eps ].

End RegExpFacts.
Import RegExpFacts.

(** * Facts about the string methods *)

Module StringFacts.

Lemma trimStart_suffix s :
  exists u, s = u ++ trimStart s /\ forallb is_space u = true.
Proof.
  induction s as [|c t IH]; [exists []; auto|].
  simpl. destruct (is_space c) eqn:E.
  - destruct IH as (u & Hu & Hsp). exists (c :: u). simpl.
    rewrite E, Hsp, <- Hu. auto.
  - exists []. auto.
Qed.

Lemma trimStart_head s :
  match trimStart s with c :: _ => is_space c = false | [] => True end.
Proof.
  induction s as [|c t IH]; simpl; [exact I|].
  destruct (is_space c) eqn:E; [exact IH | exact E].
Qed.

Lemma trimStart_fixed s :
  match s with c :: _ => is_space c = false | [] => True end ->
  trimStart s = s.
Proof. destruct s as [|c t]; [reflexivity|]. simpl. intros ->. reflexivity. Qed.

Lemma trimStart_idem s : trimStart (trimStart s) = trimStart s.
Proof. apply trimStart_fixed, trimStart_head. Qed.

Lemma trimEnd_prefix s :
  exists v, s = trimEnd s ++ v /\ forallb is_space v = true.
Proof.
  unfold trimEnd. destruct (trimStart_suffix (rev s)) as (u & Hu & Hsp).
  exists (rev u). split.
  - rewrite <- rev_app_distr, <- Hu, rev_involutive. reflexivity.
  - rewrite forallb_forall in *. intros x Hx. apply Hsp, in_rev. exact Hx.
Qed.

(** The last code unit of a string, if any. *)
Lemma trimEnd_last s :
  match rev (trimEnd s) with c :: _ => is_space c = false | [] => True end.
Proof. unfold trimEnd. rewrite rev_involutive. apply trimStart_head. Qed.

Lemma trimEnd_fixed s :
  match rev s with c :: _ => is_space c = false | [] => True end ->
  trimEnd s = s.
Proof.
  intros H. unfold trimEnd. rewrite trimStart_fixed by exact H.
  apply rev_involutive.
Qed.

Lemma trimEnd_head s :
  match s with c :: _ => is_space c = false | [] => True end ->
  match trimEnd s with c :: _ => is_space c = false | [] => True end.
Proof.
  intros H. destruct (trimEnd_prefix s) as (v & Hv & _).
  destruct (trimEnd s) as [|c t]; [exact I|].
  rewrite Hv in H. exact H.
Qed.

Lemma trim_head s :
  match trim s with c :: _ => is_space c = false | [] => True end.
Proof. unfold trim. apply trimEnd_head, trimStart_head. Qed.

Lemma trim_last s :
  match rev (trim s) with c :: _ => is_space c = false | [] => True end.
Proof. unfold trim. apply trimEnd_last. Qed.

Lemma trim_fixed s :
  match s with c :: _ => is_space c = false | [] => True end ->
  match rev s with c :: _ => is_space c = false | [] => True end ->
  trim s = s.
Proof.
  intros H1 H2. unfold trim. rewrite (trimStart_fixed _ H1).
  apply trimEnd_fixed, H2.
Qed.

Lemma trim_idem s : trim (trim s) = trim s.
Proof. apply trim_fixed; [apply trim_head | apply trim_last]. Qed.

(** [trim] keeps a contiguous part of its argument. *)
Lemma trim_infix s : exists u v, s = u ++ trim s ++ v.
Proof.
  destruct (trimStart_suffix s) as (u & Hu & _).
  destruct (trimEnd_prefix (trimStart s)) as (v & Hv & _).
  exists u, v. unfold trim. rewrite <- Hv. exact Hu.
Qed.

Lemma trim_snoc_newline s : trim (trim s ++ js "\n") = trim s.
Proof.
  destruct (trim s) as [|c t] eqn:E; [reflexivity|].
  unfold trim at 1.
  assert (H : trimStart ((c :: t) ++ js "\n") = (c :: t) ++ js "\n").
  { apply trimStart_fixed. pose proof (trim_head s) as H.
    rewrite E in H. exact H. }
  rewrite H. unfold trimEnd. rewrite rev_app_distr.
  change (rev (js "\n")) with [10%N]. cbn [app trimStart].
  change (is_space 10%N) with true. cbv iota.
  rewrite trimStart_fixed; [apply rev_involutive|].
  pose proof (trim_last s) as L. rewrite E in L. exact L.
Qed.

End StringFacts.
Import StringFacts.

(** * Blank lines around fences *)

Module Fences.

Local Open Scope N_scope.

Ltac chars :=
  unfold none_of, one_of, is_char in *; cbn [existsb orb negb] in *.


Lemma exec_fence_before before c t :
  exec false re_fence_before before (c :: t) =
  match before_view c t with
  | Some r => Some (MState (96 :: 96 :: 96 :: 10 :: c :: before) r 5
                           [(2%nat, [96; 96; 96]); (1%nat, [c])])
  | None => None
  end.
Proof.
  unfold before_view.
  destruct t as [|a [|b1 [|b2 [|b3 r]]]]; cbn; chars;
    repeat match goal with
           | |- context [N.eqb ?x ?y] => destruct (N.eqb_spec x y); subst; cbn
           end; reflexivity.
Qed.

Lemma exec_fence_after before c t :
  exec false re_fence_after before (c :: t) =
  match after_view c t with
  | Some (z, r) => Some (MState (z :: 10 :: 96 :: 96 :: 96 :: before) r 5
                                [(2%nat, [z]); (1%nat, [96; 96; 96])])
  | None => None
  end.
Proof.
  unfold after_view.
  destruct t as [|b2 [|b3 [|a [|z r]]]]; cbn; chars;
    repeat match goal with
           | |- context [N.eqb ?x ?y] => destruct (N.eqb_spec x y); subst; cbn
           end; reflexivity.
Qed.

Lemma loopA_nil before : loopA before [] = [].
Proof. reflexivity. Qed.

Lemma loopB_nil before : loopB before [] = [].
Proof. reflexivity. Qed.


Lemma loopA_miss before c t :
  before_view c t = None ->
  loopA before (c :: t) = c :: loopA (c :: before) t.
Proof.
  intros V. unfold loopA. apply replace_loop_miss.
  rewrite exec_fence_before, V. reflexivity.
Qed.


Lemma loopB_miss before c t :
  after_view c t = None ->
  loopB before (c :: t) = c :: loopB (c :: before) t.
Proof.
  intros V. unfold loopB. apply replace_loop_miss.
  rewrite exec_fence_after, V. reflexivity.
Qed.





Lemma startsWith_nil s : startsWith s [] = true.
Proof. destruct s; reflexivity. Qed.

Lemma startsWith_cons s a p :
  startsWith s (a :: p) = true -> exists t, s = a :: t /\ startsWith t p = true.
Proof.
  destruct s as [|c t]; [discriminate|]. cbn [startsWith]. intros H.
  apply andb_true_iff in H. destruct H as [H1 H2].
  apply N.eqb_eq in H1. subst c. exists t. auto.
Qed.




















End Fences.

(** * The trailing form of the output *)

Module TrailingForm.

Local Open Scope N_scope.

Lemma star_chr_always p : forall rs pv n cs,
  star_chr p Some pv rs n cs =
  Some (MState (rev (fst (span p rs)) ++ pv) (snd (span p rs))
               (length (fst (span p rs)) + n)%nat cs).
Proof.
  induction rs as [|c t IH]; intros pv n cs; simpl; [reflexivity|].
  destruct (p c); simpl; [|reflexivity].
  rewrite IH, <- app_assoc. simpl. do 2 f_equal. lia.
Qed.

Lemma blank_not_terminator c : is_blank c = true -> is_line_terminator c = false.
Proof.
  unfold is_blank, one_of, is_line_terminator. cbn [js unescape list_ascii_of_string existsb].
  cbn. intros H.
  destruct (N.eqb_spec c 32); [subst; reflexivity|].
  destruct (N.eqb_spec c 9); [subst; reflexivity|]. discriminate.
Qed.

Lemma blank_is_space c : is_blank c = true -> is_space c = true.
Proof.
  unfold is_blank, one_of. cbn. intros H.
  destruct (N.eqb_spec c 32); [subst; reflexivity|].
  destruct (N.eqb_spec c 9); [subst; reflexivity|]. discriminate.
Qed.

(** [/[ \t]+$/gm] at one position: a run of blanks up to the end of a
    line. *)
Lemma exec_trailing_blanks before c t :
  exec true Turndown.re_trailing_blanks before (c :: t) =
  if is_blank c && eol (snd (span is_blank t))
  then Some (MState (rev (fst (span is_blank t)) ++ c :: before)
                    (snd (span is_blank t))
                    (length (fst (span is_blank t)) + 1)%nat [])
  else None.
Proof.
  unfold exec, Turndown.re_trailing_blanks, Plus.
  change (one_of (js " \t")) with is_blank.
  rewrite !interp_Seq, interp_Chr.
  destruct (is_blank c); [|reflexivity]. cbn [andb].
  rewrite interp_star_chr, star_chr_longest.
  - rewrite interp_Eol. unfold at_eol, eol. cbn [rest andb].
    destruct (snd (span is_blank t)); reflexivity.
  - intros pv d r n cs Hd. rewrite interp_Eol. unfold at_eol. cbn [rest andb].
    rewrite (blank_not_terminator _ Hd). reflexivity.
Qed.

Lemma loopS_nil before : loopS before [] = [].
Proof. reflexivity. Qed.

Lemma loopS_hit before c t :
  is_blank c = true -> eol (snd (span is_blank t)) = true ->
  loopS before (c :: t) =
  loopS (rev (fst (span is_blank t)) ++ c :: before) (snd (span is_blank t)).
Proof.
  intros Hc He. unfold loopS.
  erewrite replace_loop_hit;
    [| rewrite exec_trailing_blanks, Hc, He; reflexivity | simpl; lia].
  reflexivity.
Qed.

Lemma loopS_miss before c t :
  is_blank c && eol (snd (span is_blank t)) = false ->
  loopS before (c :: t) = c :: loopS (c :: before) t.
Proof.
  intros H. unfold loopS. apply replace_loop_miss.
  rewrite exec_trailing_blanks, H. reflexivity.
Qed.

Lemma eol_goes_on s : goes_on s = negb (eol s).
Proof. destruct s; reflexivity. Qed.

(** When the blanks at the head of [t] do not reach the end of a line, the
    stripped text goes on with a code unit that is no line terminator. *)
Lemma loopS_goes_on before t :
  eol (snd (span is_blank t)) = false -> goes_on (loopS before t) = true.
Proof.
  destruct t as [|c t]; [discriminate|]. cbn [span].
  destruct (is_blank c) eqn:Hc; cbn [snd]; intros He.
  - rewrite loopS_miss by (rewrite Hc, He; reflexivity).
    cbn. rewrite (blank_not_terminator _ Hc). reflexivity.
  - rewrite loopS_miss by (rewrite Hc; reflexivity).
    cbn in *. rewrite He. reflexivity.
Qed.

Lemma span_length p s : (length (snd (span p s)) <= length s)%nat.
Proof.
  induction s as [|c t IH]; simpl; [lia|].
  destruct (p c); simpl; lia.
Qed.

Lemma loopS_trailing_blank_free (n : nat) : forall s before,
  (length s <= n)%nat -> trailing_blank_free (loopS before s) = true.
Proof.
  induction n as [|n IH]; intros s before Hn.
  - destruct s; [reflexivity | simpl in Hn; lia].
  - destruct s as [|c t]; [reflexivity|].
    destruct (is_blank c && eol (snd (span is_blank t))) eqn:E.
    + apply andb_true_iff in E. destruct E as [Hc He].
      rewrite loopS_hit by assumption. apply IH.
      pose proof (span_length is_blank t). simpl in Hn. lia.
    + rewrite loopS_miss by exact E. cbn [trailing_blank_free].
      rewrite IH by (simpl in Hn; lia). rewrite andb_true_r.
      destruct (is_blank c) eqn:Hc; [|reflexivity]. cbn [negb orb andb] in *.
      apply (loopS_goes_on (c :: before)) in E. exact E.
Qed.


(** [/\n{3,}/g] at one position: three line feeds and all that follow. *)
Lemma exec_blank_lines before s :
  exec false Turndown.re_blank_lines before s =
  match s with
  | a :: b :: c :: t =>
      if (a =? 10) && (b =? 10) && (c =? 10)
      then Some (MState (rev (fst (span (is_char 10) t)) ++ c :: b :: a :: before)
                        (snd (span (is_char 10) t))
                        (length (fst (span (is_char 10%N) t)) + 3)%nat [])
      else None
  | _ => None
  end.
Proof.
  unfold exec, Turndown.re_blank_lines. cbn [AtLeast].
  destruct s as [|a [|b [|c t]]]; [reflexivity| | |].
  - rewrite interp_Seq, interp_Chr. unfold is_char.
    destruct (a =? 10); reflexivity.
  - rewrite interp_Seq, interp_Chr. unfold is_char at 1.
    destruct (a =? 10); [|reflexivity].
    rewrite interp_Seq, interp_Chr. unfold is_char at 1.
    destruct (b =? 10); reflexivity.
  - rewrite interp_Seq, interp_Chr. unfold is_char at 1.
    destruct (a =? 10); [|reflexivity].
    rewrite interp_Seq, interp_Chr. unfold is_char at 1.
    destruct (b =? 10); [|reflexivity].
    rewrite interp_Seq, interp_Chr. unfold is_char at 1.
    destruct (c =? 10); [|reflexivity].
    cbn [andb]. rewrite interp_star_chr, star_chr_always. reflexivity.
Qed.

Lemma tpl_two_feeds : template 0 (js "\n\n") = [Txt 10; Txt 10].
Proof. reflexivity. Qed.

Lemma loopC_nil before : loopC before [] = [].
Proof. reflexivity. Qed.

Lemma loopC_hit before t :
  loopC before (10 :: 10 :: 10 :: t) =
  10 :: 10 :: loopC (rev (fst (span (is_char 10) t)) ++ 10 :: 10 :: 10 :: before)
                    (snd (span (is_char 10) t)).
Proof.
  unfold loopC.
  erewrite replace_loop_hit;
    [| rewrite exec_blank_lines; reflexivity | simpl; lia].
  rewrite tpl_two_feeds. reflexivity.
Qed.

Lemma loopC_miss before c t :
  is_line_terminator c = false ->
  loopC before (c :: t) = c :: loopC (c :: before) t.
Proof.
  intros H. unfold loopC. apply replace_loop_miss.
  rewrite exec_blank_lines. destruct t as [|b [|d t]]; try reflexivity.
  destruct (N.eqb_spec c 10); [subst; discriminate|]. reflexivity.
Qed.

Lemma loopC_miss_exec before c t :
  exec false Turndown.re_blank_lines before (c :: t) = None ->
  loopC before (c :: t) = c :: loopC (c :: before) t.
Proof. intros H. unfold loopC. apply replace_loop_miss, H. Qed.

Lemma trailing_blank_free_app u v :
  trailing_blank_free (u ++ v) = true -> trailing_blank_free v = true.
Proof.
  induction u as [|c u IH]; intros H; [exact H|].
  cbn [app trailing_blank_free] in H. apply andb_true_iff in H.
  apply IH, H.
Qed.

Lemma loopC_trailing_blank_free (n : nat) : forall s before,
  (length s <= n)%nat ->
  trailing_blank_free s = true -> trailing_blank_free (loopC before s) = true.
Proof.
  induction n as [|n IH]; intros s before Hn H.
  - destruct s; [reflexivity | simpl in Hn; lia].
  - destruct s as [|c t]; [reflexivity|].
    destruct (exec false Turndown.re_blank_lines before (c :: t)) as [m|] eqn:E.
    + rewrite exec_blank_lines in E. destruct t as [|b [|d t]]; try discriminate.
      destruct (N.eqb_spec c 10); [subst c|discriminate].
      destruct (N.eqb_spec b 10); [subst b|discriminate].
      destruct (N.eqb_spec d 10); [subst d|discriminate].
      rewrite loopC_hit. cbn [trailing_blank_free].
      change (is_blank 10) with false. cbn [negb orb andb].
      apply IH.
      * pose proof (span_length (is_char 10) t). simpl in Hn. lia.
      * apply (trailing_blank_free_app (10 :: 10 :: 10 :: fst (span (is_char 10) t))).
        cbn [app]. rewrite span_app. exact H.
    + rewrite (loopC_miss_exec _ _ _ E).
      cbn [trailing_blank_free] in *. apply andb_true_iff in H.
      destruct H as [H1 H2]. rewrite (IH t _) by (simpl in Hn; lia || exact H2).
      rewrite andb_true_r.
      destruct (is_blank c) eqn:Hc; [|reflexivity]. cbn [negb orb] in *.
      destruct t as [|d t]; [discriminate|].
      rewrite loopC_miss; [exact H1|]. apply negb_true_iff, H1.
Qed.

(** A prefix keeps the property when it does not end in a blank, and so
    does that prefix followed by a line feed. *)
Lemma trailing_blank_free_prefix u : forall v,
  trailing_blank_free (u ++ v) = true ->
  match rev u with c :: _ => is_space c = false | [] => True end ->
  trailing_blank_free u = true /\ trailing_blank_free (u ++ [10]) = true.
Proof.
  induction u as [|c u IH]; intros v H L; [split; reflexivity|].
  cbn [app trailing_blank_free] in *. apply andb_true_iff in H.
  destruct H as [H1 H2].
  destruct u as [|d u].
  - cbn in L. cbn [app trailing_blank_free].
    destruct (is_blank c) eqn:Hc.
    + rewrite (blank_is_space _ Hc) in L. discriminate.
    + split; reflexivity.
  - assert (L' : match rev (d :: u) with c0 :: _ => is_space c0 = false | [] => True end).
    { cbn [rev] in *. destruct (rev u ++ [d]) eqn:E.
      - destruct (rev u); discriminate.
      - cbn [app] in L. exact L. }
    destruct (IH v H2 L') as [I1 I2].
    cbn [app] in *. rewrite H1. cbn [andb]. split; [exact I1 | exact I2].
Qed.

Lemma trim_trailing_blank_free s :
  trailing_blank_free s = true ->
  trailing_blank_free (trim s ++ [10]) = true.
Proof.
  intros H. destruct (trim_infix s) as (u & v & E). rewrite E in H.
  apply trailing_blank_free_app in H.
  apply (trailing_blank_free_prefix (trim s) v H), trim_last.
Qed.

Lemma trim_ends_with_single_newline s :
  ends_with_single_newline (trim s ++ [10]) = true.
Proof.
  unfold ends_with_single_newline. rewrite rev_app_distr. cbn [rev app].
  pose proof (trim_last s) as L. destruct (rev (trim s)); [reflexivity|].
  rewrite L. reflexivity.
Qed.

End TrailingForm.

(** * Bold paragraphs promoted to headings *)

Module Headings.

Local Open Scope N_scope.

Lemma span_app_stop p x y :
  forallb p x = true ->
  match y with c :: _ => p c = false | [] => True end ->
  span p (x ++ y) = (x, y).
Proof.
  intros Hx Hy. induction x as [|c x IH]; cbn [app].
  - destruct y as [|d y]; [reflexivity|]. cbn [span]. rewrite Hy. reflexivity.
  - cbn [forallb] in Hx. apply andb_true_iff in Hx. destruct Hx as [Hc Hx].
    cbn [span]. rewrite Hc, (IH Hx). reflexivity.
Qed.

Lemma firstn_rev_app (x pv : jsstring) (n : nat) :
  rev (firstn (length x + n - n) (rev x ++ pv)) = x.
Proof.
  replace (length x + n - n)%nat with (length (rev x) + 0)%nat
    by (rewrite length_rev; lia).
  rewrite firstn_app_2. cbn [firstn]. rewrite app_nil_r. apply rev_involutive.
Qed.

Lemma search_hit ml r before s m :
  exec ml r before s = Some m -> search ml r before s = Some m.
Proof. intros H. destruct s; cbn [search]; rewrite H; reflexivity. Qed.

Lemma free_of_forallb c t p :
  (forall x, (x =? c) = false -> p x = true) ->
  free_of c t = true -> forallb p t = true.
Proof.
  intros Hp. unfold free_of. rewrite !forallb_forall. intros H x Hx.
  apply Hp, negb_true_iff, H, Hx.
Qed.

(** [/^\*\*[^*]+\*\*$/] on text between markers. *)
Lemma test_bold_only t :
  t <> [] -> free_of 42 t = true ->
  test false Turndown.re_bold_only (bold t) = true.
Proof.
  intros Hne Hfree. destruct t as [|c0 t]; [contradiction|].
  assert (Hns : forallb (none_of [42]) (c0 :: t) = true).
  { apply (free_of_forallb 42); [|exact Hfree].
    intros x Hx. unfold none_of, one_of. cbn [existsb]. rewrite Hx. reflexivity. }
  cbn [forallb] in Hns. apply andb_true_iff in Hns. destruct Hns as [H0 Ht].
  unfold test, match_first.
  erewrite search_hit; [reflexivity|].
  unfold exec, Turndown.re_bold_only, Plus, bold.
  change (js "**") with [42; 42]. change (js "*") with [42].
  change (lit [42; 42]) with (Seq (Chr (is_char 42)) (Chr (is_char 42))).
  cbn [app]. regex_steps. cbn [at_bol prev]. unfold is_char at 1 2.
  cbn [N.eqb Pos.eqb]. rewrite H0.
  rewrite interp_star_chr, star_chr_longest.
  - rewrite span_app_stop by (exact Ht || reflexivity). cbn [fst snd].
    regex_steps. reflexivity.
  - intros pv d r n cs Hd. regex_steps.
    unfold none_of, one_of, is_char in *. cbn [existsb] in Hd.
    destruct (d =? 42); [discriminate | reflexivity].
Qed.

Lemma slice_bold t : slice 2 2 (bold t) = t.
Proof.
  unfold slice, bold. change (js "**") with [42; 42]. cbn [app skipn].
  cbn [length]. rewrite length_app. cbn [length].
  replace (S (S (length t + 2)) - 2 - 2)%nat with (length t + 0)%nat by lia.
  rewrite firstn_app_2. cbn [firstn]. apply app_nil_r.
Qed.

(** The rule [emphasisHeading] of the Turndown-based facade. *)
Lemma emphasisHeading_promotes content t :
  trim content = bold t -> t <> [] -> free_of 42 t = true ->
  (length (trim content) < 100)%nat ->
  Turndown.emphasisHeading content = js "\n\n### " ++ t ++ js "\n\n".
Proof.
  intros Htrim Hne Hfree Hlen. unfold Turndown.emphasisHeading.
  apply Nat.ltb_lt in Hlen. rewrite Hlen, Htrim, (test_bold_only t Hne Hfree).
  cbn [andb]. rewrite slice_bold. reflexivity.
Qed.


Lemma firstn_rev_snoc (x pv : jsstring) (c : char) (n : nat) :
  rev (firstn (length x + S n - n) (rev x ++ c :: pv)) = c :: x.
Proof.
  replace (length x + S n - n)%nat with (length (rev x ++ [c]) + 0)%nat
    by (rewrite length_app, length_rev; simpl; lia).
  change (c :: pv) with ([c] ++ pv). rewrite app_assoc, firstn_app_2.
  cbn [firstn]. rewrite app_nil_r, rev_app_distr, rev_involutive. reflexivity.
Qed.

Lemma space_not_star c : is_space c = true -> (c =? 42) = false.
Proof.
  intros H. destruct (N.eqb_spec c 42); [subst; discriminate | reflexivity].
Qed.

(** [/^(\s* )\*\*([^*\n]+)\*\*(\s* )$/gm] on a document that is one bold
    line: the whole document matches, the second capture is the text. *)
Lemma exec_bold_line t :
  t <> [] -> free_of 42 t = true -> free_of 10 t = true ->
  exists m,
    exec true re_bold_line [] (bold t) = Some m /\
    rest m = [] /\ pos m <> 0%nat /\
    capture 1 m = [] /\ capture 2 m = t /\ capture 3 m = [].
Proof.
  intros Hne Hs Hn. destruct t as [|c0 t]; [contradiction|].
  assert (Hp : forallb (none_of [42; 10]) (c0 :: t) = true).
  { unfold free_of in *. rewrite forallb_forall in *. intros x Hx.
    specialize (Hs x Hx). specialize (Hn x Hx).
    unfold none_of, one_of. cbn [existsb].
    apply negb_true_iff in Hs, Hn. rewrite Hs, Hn. reflexivity. }
  cbn [forallb] in Hp. apply andb_true_iff in Hp. destruct Hp as [H0 Ht].
  eexists. split.
  - unfold exec, re_bold_line, Plus, bold.
    change (js "**") with [42; 42]. change (js "*\n") with [42; 10].
    change (lit [42; 42]) with (Seq (Chr (is_char 42)) (Chr (is_char 42))).
    cbn [app]. regex_steps. cbn [at_bol prev].
    rewrite interp_Grp, interp_star_chr, star_chr_longest.
    + cbn [span]. change (is_space 42) with false. cbv beta iota.
      cbn [fst snd rev app length prev rest pos caps Nat.add].
      regex_steps. unfold is_char at 1 2. cbn [N.eqb Pos.eqb].
      rewrite interp_Grp. regex_steps. rewrite H0.
      rewrite interp_star_chr, star_chr_longest.
      * rewrite span_app_stop by (exact Ht || reflexivity).
        cbv beta. cbn [fst snd prev rest pos caps].
        regex_steps. unfold is_char at 1 2. cbn [N.eqb Pos.eqb].
        rewrite interp_Grp, interp_star_chr. cbn [star_chr].
        cbn [prev rest pos caps]. regex_steps. cbn [at_eol rest].
        reflexivity.
      * intros pv d r n cs Hd. cbv beta. cbn [prev rest pos caps].
        regex_steps.
        unfold none_of, one_of, is_char in *. cbn [existsb] in Hd.
        destruct (d =? 42); [discriminate | reflexivity].
    + intros pv d r n cs Hd. cbv beta. cbn [prev rest pos caps].
      regex_steps. unfold is_char. rewrite (space_not_star _ Hd). reflexivity.
  - cbn [rest pos]. split; [reflexivity|]. split; [lia|].
    unfold capture. cbn [find fst snd Nat.eqb caps].
    unfold captured. cbn [prev pos]. rewrite !Nat.sub_diag.
    split; [reflexivity|]. split; [|reflexivity].
    apply firstn_rev_snoc.
Qed.

Lemma exec_bold_line_nil before : exec true re_bold_line before [] = None.
Proof.
  unfold exec, re_bold_line.
  change (lit (js "**")) with (Seq (Chr (is_char 42)) (Chr (is_char 42))).
  regex_steps. destruct (at_bol _ _); [|reflexivity].
  rewrite interp_Grp, interp_star_chr. cbn [star_chr]. regex_steps.
  reflexivity.
Qed.

Lemma tpl_heading :
  template 3 (js "$1### $2$3") =
  [Ref 1; Txt 35; Txt 35; Txt 35; Txt 32; Ref 2; Ref 3].
Proof. reflexivity. Qed.

(** Step 1 of the post-processor on a document that is one bold line. *)
Lemma fixEmphasisHeading_promotes t :
  t <> [] -> free_of 42 t = true -> free_of 10 t = true ->
  fixEmphasisHeading (bold t) = js "### " ++ t.
Proof.
  intros Hne Hs Hn.
  destruct (exec_bold_line t Hne Hs Hn) as (m & E & Hr & Hp & C1 & C2 & C3).
  unfold fixEmphasisHeading, replace_g.
  rewrite (replace_loop_hit _ _ _ _ _ _ E Hp), Hr, replace_loop_nil.
  rewrite exec_bold_line_nil, tpl_heading. cbn [substitute].
  rewrite C1, C2, C3, !app_nil_r. reflexivity.
Qed.

End Headings.

(** * Ordered-list markers *)

Module Ordered.

Local Open Scope N_scope.

Lemma space_not_digit c : is_space c = true -> is_digit c = false.
Proof.
  intros H. unfold is_digit.
  destruct (N.leb_spec 48 c); [|reflexivity].
  destruct (N.leb_spec c 57); [|reflexivity]. exfalso.
  assert (E : c = 48 \/ c = 49 \/ c = 50 \/ c = 51 \/ c = 52 \/ c = 53 \/
              c = 54 \/ c = 55 \/ c = 56 \/ c = 57) by lia.
  repeat (destruct E as [E|E]; [subst c; discriminate|]). subst c. discriminate.
Qed.

Lemma digit_not_dot c : is_digit c = true -> (c =? 46) = false.
Proof.
  intros H. destruct (N.eqb_spec c 46); [subst; discriminate | reflexivity].
Qed.

Lemma digit_not_terminator c : is_digit c = true -> is_line_terminator c = false.
Proof.
  unfold is_digit, is_line_terminator. intros H.
  apply andb_true_iff in H. destruct H as [H1 H2].
  apply N.leb_le in H1, H2.
  destruct (N.eqb_spec c 10); [lia|]. destruct (N.eqb_spec c 13); [lia|].
  destruct (N.eqb_spec c 8232); [lia|]. destruct (N.eqb_spec c 8233); [lia|].
  reflexivity.
Qed.

Lemma at_bol_line_start before s n cs :
  at_bol true (MState before s n cs) = line_start before.
Proof. destruct before; reflexivity. Qed.

(** [/^(\s* )\d+\.\s/gm] at one position. *)
Lemma exec_ordered before s :
  exec true re_ordered before s =
  if line_start before then
    match ordered_marker s with
    | Some (w, d, c, r) =>
        Some (MState (c :: 46 :: rev d ++ rev w ++ before) r
                     (length w + length d + 2)%nat [(1%nat, w)])
    | None => None
    end
  else None.
Proof.
  unfold exec, re_ordered, Plus. regex_steps. rewrite at_bol_line_start.
  destruct (line_start before); [|reflexivity].
  rewrite interp_Grp, interp_star_chr, star_chr_longest.
  - cbv beta. cbn [prev rest pos caps]. unfold captured. cbn [prev pos].
    rewrite Headings.firstn_rev_app. unfold ordered_marker.
    destruct (span is_space s) as [w s1]. cbn [fst snd].
    destruct s1 as [|d s1]; regex_steps; [reflexivity|].
    cbn [span]. destruct (is_digit d) eqn:Hd; [|reflexivity].
    rewrite interp_star_chr, star_chr_longest.
    + destruct (span is_digit s1) as [ds s2]. cbn [fst snd].
      destruct s2 as [|dot [|c r]]; regex_steps; try reflexivity.
      * unfold is_char. destruct (dot =? 46); reflexivity.
      * unfold is_char. destruct (N.eqb_spec dot 46); [subst dot|reflexivity].
        cbn [andb]. destruct (is_space c); [|reflexivity].
        f_equal. f_equal.
        -- cbn [rev]. rewrite <- !app_assoc. reflexivity.
        -- cbn [length]. lia.
    + intros pv x r n cs Hx. regex_steps. unfold is_char.
      rewrite (digit_not_dot _ Hx). reflexivity.
  - intros pv x r n cs Hx. cbv beta. cbn [prev rest pos caps]. regex_steps.
    rewrite (space_not_digit _ Hx). reflexivity.
Qed.

Lemma tpl_ordered : template 1 (js "$11. ") = [Ref 1; Txt 49; Txt 46; Txt 32].
Proof. reflexivity. Qed.

Lemma loopO_nil before : loopO before [] = [].
Proof.
  unfold loopO. rewrite replace_loop_nil, exec_ordered.
  destruct (line_start before); reflexivity.
Qed.

Lemma loopO_hit before s w d c r :
  line_start before = true -> ordered_marker s = Some (w, d, c, r) ->
  loopO before s =
  w ++ 49 :: 46 :: 32 :: loopO (c :: 46 :: rev d ++ rev w ++ before) r.
Proof.
  intros Hb Hm. unfold loopO.
  erewrite replace_loop_hit;
    [| rewrite exec_ordered, Hb, Hm; reflexivity | cbn [pos]; lia].
  rewrite tpl_ordered. cbn [substitute capture caps find fst snd Nat.eqb prev rest].
  rewrite <- app_assoc. reflexivity.
Qed.

Lemma loopO_miss before c t :
  line_start before && has_marker (c :: t) = false ->
  loopO before (c :: t) = c :: loopO (c :: before) t.
Proof.
  intros H. unfold loopO. apply replace_loop_miss. rewrite exec_ordered.
  unfold has_marker in H. destruct (line_start before); [|reflexivity].
  destruct (ordered_marker (c :: t)) as [[[[w d] x] r]|]; [discriminate|reflexivity].
Qed.


(** *** Reading a marker, one code unit at a time *)

Lemma has_marker_cons c t :
  has_marker (c :: t) = if is_space c then has_marker t else digits_marker (c :: t).
Proof.
  unfold has_marker, ordered_marker, digits_marker, tail_marker. cbn [span].
  destruct (is_space c) eqn:Hc.
  - destruct (span is_space t) as [w s1]. cbn [fst snd].
    destruct (span is_digit s1) as [d s2].
    destruct d as [|d0 d]; [reflexivity|].
    destruct s2 as [|dot [|x r]]; try reflexivity.
    destruct ((dot =? 46) && is_space x); reflexivity.
  - cbn [span]. destruct (is_digit c); cbn [andb fst snd]; [|reflexivity].
    destruct (span is_digit t) as [d s2]. cbn [fst snd]. unfold marker_end.
    destruct s2 as [|dot [|x r]]; try reflexivity.
    destruct ((dot =? 46) && is_space x); reflexivity.
Qed.

Lemma has_marker_nil : has_marker [] = false.
Proof. reflexivity. Qed.

Lemma tail_marker_cons c t :
  tail_marker (c :: t) = if is_digit c then tail_marker t else marker_end (c :: t).
Proof. unfold tail_marker. cbn [span]. destruct (is_digit c); reflexivity. Qed.

(** What is read as a marker starts with white space and digits of the
    text. *)
Lemma ordered_marker_inv s w d c r :
  ordered_marker s = Some (w, d, c, r) ->
  s = w ++ d ++ 46 :: c :: r /\ forallb is_space w = true /\ d <> [].
Proof.
  unfold ordered_marker.
  pose proof (span_app is_space s) as E1. pose proof (span_all is_space s) as A1.
  destruct (span is_space s) as [w0 s1]. cbn [fst snd] in *.
  pose proof (span_app is_digit s1) as E2.
  destruct (span is_digit s1) as [d0 s2]. cbn [fst snd] in *.
  destruct d0 as [|x d0]; [discriminate|].
  destruct s2 as [|dot [|y r0]]; try discriminate.
  destruct (N.eqb_spec dot 46); [subst dot|discriminate].
  destruct (is_space y); [|discriminate]. cbn [andb].
  intros H. inversion H; subst. split; [|split; [exact A1 | discriminate]].
  reflexivity.
Qed.

(** *** Where no marker is read, none appears *)

Lemma loopO_tail_marker t : forall before,
  line_start before = false -> tail_marker t = false ->
  tail_marker (loopO before t) = false.
Proof.
  induction t as [|c t IH]; intros before Hb Ht.
  - rewrite loopO_nil. reflexivity.
  - rewrite loopO_miss by (rewrite Hb; reflexivity).
    rewrite tail_marker_cons in *. destruct (is_digit c) eqn:Hd.
    + apply IH; [|exact Ht]. cbn [line_start]. apply digit_not_terminator, Hd.
    + unfold marker_end in *. destruct (N.eqb_spec c 46); [subst c|].
      * destruct t as [|e t]; [rewrite loopO_nil; reflexivity|].
        rewrite loopO_miss by reflexivity. exact Ht.
      * destruct (loopO (c :: before) t); reflexivity.
Qed.

Lemma loopO_has_marker s : forall before,
  has_marker s = false -> has_marker (loopO before s) = false.
Proof.
  induction s as [|c t IH]; intros before Hs.
  - rewrite loopO_nil. reflexivity.
  - rewrite loopO_miss by (rewrite Hs; apply andb_false_r).
    rewrite has_marker_cons in *. destruct (is_space c) eqn:Hc.
    + apply IH, Hs.
    + unfold digits_marker in *. destruct (is_digit c) eqn:Hd; [|reflexivity].
      cbn [andb] in *. apply loopO_tail_marker; [|exact Hs].
      cbn [line_start]. apply digit_not_terminator, Hd.
Qed.

(** *** After the rewrite every marker carries the number 1 *)

Lemma marker_is_one_chunk w z :
  forallb is_space w = true ->
  marker_is_one (w ++ 49 :: 46 :: 32 :: z) = true.
Proof.
  intros Hw. unfold marker_is_one, ordered_marker.
  rewrite (Headings.span_app_stop is_space w (49 :: 46 :: 32 :: z) Hw)
    by reflexivity.
  reflexivity.
Qed.

Lemma markers_all_one_chunk w : forall bol z,
  forallb is_space w = true ->
  markers_all_one false z = true ->
  markers_all_one bol (w ++ 49 :: 46 :: 32 :: z) = true.
Proof.
  induction w as [|c w IH]; intros bol z Hw Hz.
  - cbn [app]. cbn [markers_all_one].
    change (is_line_terminator 49) with false.
    change (is_line_terminator 46) with false.
    change (is_line_terminator 32) with false.
    pose proof (marker_is_one_chunk [] z eq_refl) as M. cbn [app] in M.
    rewrite Hz, M. destruct bol; reflexivity.
  - cbn [forallb] in Hw. apply andb_true_iff in Hw. destruct Hw as [Hc Hw].
    cbn [app markers_all_one]. rewrite (IH _ z Hw Hz), andb_true_r.
    destruct bol; [|reflexivity].
    apply (marker_is_one_chunk (c :: w) z). cbn [forallb]. rewrite Hc, Hw.
    reflexivity.
Qed.

Lemma loopO_markers_all_one (n : nat) : forall s before bol,
  (length s <= n)%nat ->
  (bol = true -> line_start before = true) ->
  markers_all_one bol (loopO before s) = true.
Proof.
  induction n as [|n IH]; intros s before bol Hn Hb.
  - destruct s; [|simpl in Hn; lia]. rewrite loopO_nil. destruct bol; reflexivity.
  - destruct s as [|c t]; [rewrite loopO_nil; destruct bol; reflexivity|].
    destruct (line_start before && has_marker (c :: t)) eqn:E.
    + apply andb_true_iff in E. destruct E as [Hl Hm]. unfold has_marker in Hm.
      destruct (ordered_marker (c :: t)) as [[[[w d] x] r]|] eqn:M; [|discriminate].
      rewrite (loopO_hit _ _ _ _ _ _ Hl M).
      destruct (ordered_marker_inv _ _ _ _ _ M) as (Es & Hw & Hd).
      apply markers_all_one_chunk; [exact Hw|].
      apply IH; [|discriminate].
      assert (L : length (c :: t) = length (w ++ d ++ 46 :: x :: r)) by (rewrite <- Es; reflexivity).
      rewrite !length_app in L. cbn [length] in L, Hn. lia.
    + rewrite (loopO_miss _ _ _ E). cbn [markers_all_one].
      rewrite IH; [| simpl in Hn; lia | intros H; exact H].
      rewrite andb_true_r. destruct bol; [|reflexivity].
      rewrite (Hb eq_refl) in E. cbn [andb] in E.
      pose proof (loopO_has_marker (c :: t) before E) as L.
      rewrite (loopO_miss before c t) in L by (rewrite E; apply andb_false_r).
      unfold marker_is_one. unfold has_marker in L.
      destruct (ordered_marker _); [discriminate | reflexivity].
Qed.

Lemma fixOrderedPrefix_markers_all_one md :
  markers_all_one true (fixOrderedPrefix md) = true.
Proof.
  unfold fixOrderedPrefix, replace_g.
  apply (loopO_markers_all_one (length md)); [apply Nat.le_refl | reflexivity].
Qed.


(** *** The rewrite is idempotent *)

Lemma eqs_eq a : forall b, eqs a b = true -> a = b.
Proof.
  induction a as [|x a IH]; intros [|y b] H; try discriminate; [reflexivity|].
  cbn [eqs] in H. apply andb_true_iff in H. destruct H as [H1 H2].
  apply N.eqb_eq in H1. subst y. f_equal. apply IH, H2.
Qed.

Lemma markers_all_one_suffix u : forall bol c v,
  markers_all_one bol (u ++ c :: v) = true ->
  markers_all_one (is_line_terminator c) v = true.
Proof.
  induction u as [|x u IH]; intros bol c v H; cbn [app markers_all_one] in H;
    apply andb_true_iff in H; destruct H as [_ H]; [exact H|].
  apply (IH _ _ _ H).
Qed.

(** A document whose markers are all literal is left as it is. *)
Lemma loopO_fixed (n : nat) : forall s before,
  (length s <= n)%nat ->
  markers_all_one (line_start before) s = true -> loopO before s = s.
Proof.
  induction n as [|n IH]; intros s before Hn H.
  - destruct s; [|simpl in Hn; lia]. apply loopO_nil.
  - destruct s as [|c t]; [apply loopO_nil|].
    destruct (line_start before && has_marker (c :: t)) eqn:E.
    + apply andb_true_iff in E. destruct E as [Hl Hm]. unfold has_marker in Hm.
      destruct (ordered_marker (c :: t)) as [[[[w d] x] r]|] eqn:M; [|discriminate].
      rewrite (loopO_hit _ _ _ _ _ _ Hl M).
      destruct (ordered_marker_inv _ _ _ _ _ M) as (Es & Hw & Hd).
      rewrite Hl in H.
      assert (H1 : marker_is_one (c :: t) = true).
      { cbn [markers_all_one] in H. apply andb_true_iff in H. apply H. }
      unfold marker_is_one in H1. rewrite M in H1.
      apply andb_true_iff in H1. destruct H1 as [Hd1 Hx].
      apply eqs_eq in Hd1. apply N.eqb_eq in Hx. subst d x.
      rewrite Es in H |- *. cbn [app] in *.
      rewrite IH; [reflexivity | |].
      * pose proof (f_equal (@length char) Es) as L.
        rewrite length_app in L. cbn [length] in L, Hn. lia.
      * cbn [line_start]. change (is_line_terminator 32) with false.
        apply (markers_all_one_suffix (w ++ [49; 46]) true 32 r).
        rewrite <- app_assoc. exact H.
    + rewrite (loopO_miss _ _ _ E). f_equal. apply IH; [simpl in Hn; lia|].
      cbn [markers_all_one] in H. apply andb_true_iff in H. apply H.
Qed.

Lemma fixOrderedPrefix_idem md :
  fixOrderedPrefix (fixOrderedPrefix md) = fixOrderedPrefix md.
Proof.
  unfold fixOrderedPrefix at 1. unfold replace_g.
  apply (loopO_fixed (length (fixOrderedPrefix md))); [apply Nat.le_refl|].
  apply fixOrderedPrefix_markers_all_one.
Qed.

End Ordered.

(** * Rewrites anchored at the start of a line *)

Module Anchored.

(** A chunk without line terminators has no line start inside it. *)
Lemma no_shape_chunk shape u : forall z bol,
  u <> [] ->
  forallb (fun c => negb (is_line_terminator c)) u = true ->
  (bol = true -> shape (u ++ z) = false) ->
  no_shape shape false z = true ->
  no_shape shape bol (u ++ z) = true.
Proof.
  induction u as [|c u IH]; intros z bol Hne Hu Hs Hz; [contradiction|].
  cbn [forallb] in Hu. apply andb_true_iff in Hu. destruct Hu as [Hc Hu].
  apply negb_true_iff in Hc. cbn [app no_shape]. rewrite Hc.
  assert (T : no_shape shape false (u ++ z) = true).
  { destruct u as [|d u]; [exact Hz|].
    apply IH; [discriminate | exact Hu | discriminate | exact Hz]. }
  rewrite T, andb_true_r. destruct bol; [|reflexivity].
  apply negb_true_iff, Hs. reflexivity.
Qed.

(** A chunk none of whose code units can begin a match has no match that
    starts inside it. *)
Lemma no_shape_skip shape (p : char -> bool) :
  (forall c t, p c = true -> shape (c :: t) = false) ->
  forall u z bol,
  forallb p u = true ->
  no_shape shape true z = true ->
  no_shape shape bol (u ++ z) = true.
Proof.
  intros Hp. induction u as [|c u IH]; intros z bol Hu Hz.
  - cbn [app]. destruct bol; [exact Hz|].
    destruct z; cbn [no_shape] in *; apply andb_true_iff in Hz; apply Hz.
  - cbn [forallb] in Hu. apply andb_true_iff in Hu. destruct Hu as [Hc Hu].
    cbn [app no_shape]. rewrite (IH z _ Hu Hz), andb_true_r.
    destruct bol; [|reflexivity]. rewrite (Hp c _ Hc). reflexivity.
Qed.

Section Rule.

(** A rule whose pattern starts with [^] under the [m] flag, and [shape],
    which tells whether a text begins with a match. *)
Variables (r : regex) (tpl : list piece) (shape : jsstring -> bool).

Hypothesis exec_miss : forall before s,
  line_start before && shape s = false -> exec true r before s = None.

Hypothesis shape_nil : shape [] = false.

Lemma loop_nil before : replace_loop true r tpl before [] 0 = [].
Proof.
  rewrite replace_loop_nil, exec_miss; [reflexivity|].
  rewrite shape_nil. apply andb_false_r.
Qed.

Lemma loop_miss before c t :
  line_start before && shape (c :: t) = false ->
  replace_loop true r tpl before (c :: t) 0 =
  c :: replace_loop true r tpl (c :: before) t 0.
Proof. intros H. apply replace_loop_miss, exec_miss, H. Qed.

(** Where no line begins with a match, the rewrite changes nothing. *)
Lemma loop_fixed s : forall before,
  no_shape shape (line_start before) s = true ->
  replace_loop true r tpl before s 0 = s.
Proof.
  induction s as [|c t IH]; intros before H; [apply loop_nil|].
  cbn [no_shape] in H. apply andb_true_iff in H. destruct H as [H1 H2].
  rewrite loop_miss.
  - f_equal. apply IH. exact H2.
  - destruct (line_start before); [|reflexivity].
    apply negb_true_iff in H1. rewrite H1. reflexivity.
Qed.

(** Text without line terminators, read away from the start of a line, is
    copied. *)
Lemma loop_copy u : forall before v,
  line_start before = false ->
  forallb (fun c => negb (is_line_terminator c)) u = true ->
  replace_loop true r tpl before (u ++ v) 0 =
  u ++ replace_loop true r tpl (rev u ++ before) v 0.
Proof.
  induction u as [|c u IH]; intros before v Hb Hu; [reflexivity|].
  cbn [forallb] in Hu. apply andb_true_iff in Hu. destruct Hu as [Hc Hu].
  cbn [app]. rewrite loop_miss by (rewrite Hb; reflexivity).
  rewrite IH; [| cbn [line_start]; apply negb_true_iff, Hc | exact Hu].
  cbn [rev]. rewrite <- app_assoc. reflexivity.
Qed.

(** Away from the start of a line, a text without line terminators is
    found in the output where it is in the input. *)
Lemma loop_startsWith p : forall s before,
  line_start before = false ->
  forallb (fun c => negb (is_line_terminator c)) p = true ->
  startsWith (replace_loop true r tpl before s 0) p = startsWith s p.
Proof.
  induction p as [|a p IH]; intros s before Hb Hp.
  - rewrite !Fences.startsWith_nil. reflexivity.
  - cbn [forallb] in Hp. apply andb_true_iff in Hp. destruct Hp as [Ha Hp].
    destruct s as [|c t]; [rewrite loop_nil; reflexivity|].
    rewrite loop_miss by (rewrite Hb; reflexivity). cbn [startsWith].
    destruct (N.eqb_spec c a); [subst c|reflexivity]. cbn [andb].
    apply IH; [|exact Hp]. cbn [line_start]. apply negb_true_iff, Ha.
Qed.

(** The two facts a rule has to supply: where the text does not begin with
    a match, neither does its rewriting; and a replacement, followed by the
    rewriting of the rest, has no line that begins with a match. *)
Hypothesis miss_stays : forall s before,
  shape s = false -> shape (replace_loop true r tpl before s 0) = false.

Hypothesis hit_chunk : forall before s,
  line_start before = true -> shape s = true ->
  exists o rs before',
    replace_loop true r tpl before s 0 =
      o ++ replace_loop true r tpl before' rs 0 /\
    (length rs < length s)%nat /\
    forall bol,
      (forall b, (b = true -> line_start before' = true) ->
                 no_shape shape b (replace_loop true r tpl before' rs 0) = true) ->
      no_shape shape bol (o ++ replace_loop true r tpl before' rs 0) = true.

Lemma loop_no_shape (n : nat) : forall s before bol,
  (length s <= n)%nat ->
  (bol = true -> line_start before = true) ->
  no_shape shape bol (replace_loop true r tpl before s 0) = true.
Proof.
  induction n as [|n IH]; intros s before bol Hn Hb.
  - destruct s; [|simpl in Hn; lia]. rewrite loop_nil. cbn [no_shape].
    rewrite shape_nil. destruct bol; reflexivity.
  - destruct (line_start before && shape s) eqn:E.
    + apply andb_true_iff in E. destruct E as [Hl Hs].
      destruct (hit_chunk before s Hl Hs) as (o & rs & b' & Eq & Hlen & Hchunk).
      rewrite Eq. apply Hchunk. intros b Hb'. apply IH; [lia | exact Hb'].
    + destruct s as [|c t].
      * rewrite loop_nil. cbn [no_shape]. rewrite shape_nil.
        destruct bol; reflexivity.
      * pose proof (loop_miss before c t E) as M. rewrite M. cbn [no_shape].
        rewrite IH; [| simpl in Hn; lia | intros H; exact H].
        rewrite andb_true_r. destruct bol; [|reflexivity].
        rewrite (Hb eq_refl) in E. cbn [andb] in E.
        rewrite <- M, (miss_stays _ before E). reflexivity.
Qed.

Theorem replace_idempotent s :
  replace_g true r tpl (replace_g true r tpl s) = replace_g true r tpl s.
Proof.
  unfold replace_g at 1. apply loop_fixed.
  apply (loop_no_shape (length s)); [apply Nat.le_refl | reflexivity].
Qed.

End Rule.

End Anchored.

(** * List indentation *)

Module Indent.

Local Open Scope N_scope.

(** A literal, matched in one go. *)
Lemma interp_lit ml l : forall k pv rs n cs,
  interp ml (lit l) k (MState pv rs n cs) =
  if startsWith rs l
  then k (MState (rev l ++ pv) (skipn (length l) rs) (length l + n)%nat cs)
  else None.
Proof.
  induction l as [|c l IH]; intros k pv rs n cs.
  - destruct rs; reflexivity.
  - assert (Step : interp ml (lit (c :: l)) k (MState pv rs n cs) =
                   interp ml (Chr (is_char c)) (interp ml (lit l) k)
                          (MState pv rs n cs)).
    { destruct l; reflexivity. }
    rewrite Step. destruct rs as [|x rs]; [reflexivity|].
    rewrite interp_Chr. unfold is_char. cbn [startsWith].
    destruct (N.eqb_spec x c); [subst x|reflexivity].
    rewrite IH. cbn [andb]. destruct (startsWith rs l); [|reflexivity].
    cbn [rev length skipn]. rewrite <- app_assoc. cbn [app].
    replace (length l + S n)%nat with (S (length l + n)) by lia. reflexivity.
Qed.

(** Lists of code units put in right-nested form. *)
Ltac list_norm :=
  repeat first [ rewrite rev_app_distr | rewrite <- app_assoc
               | progress cbn [rev app] ].

(** The text of a capture, from the positions of its two ends. *)
Lemma captured_chunk (x pv : jsstring) (a n : nat) (p : jsstring) :
  p = rev x ++ pv -> a = (length x + n)%nat -> rev (firstn (a - n) p) = x.
Proof. intros -> ->. apply Headings.firstn_rev_app. Qed.

Lemma marker_split_inv s m r :
  marker_split s = Some (m, r) ->
  s = m ++ r /\ m <> [] /\
  forallb (fun c => negb (is_line_terminator c)) m = true.
Proof.
  unfold marker_split. destruct s as [|c t]; [discriminate|].
  destruct (one_of [45; 42] c) eqn:Hc.
  - intros H. inversion H; subst. split; [reflexivity|]. split; [discriminate|].
    cbn [forallb]. unfold one_of in Hc. cbn [existsb] in Hc.
    destruct (N.eqb_spec c 45); [subst; reflexivity|].
    destruct (N.eqb_spec c 42); [subst; reflexivity|]. discriminate.
  - destruct (is_digit c) eqn:Hd; [|discriminate]. cbn [andb].
    unfold dot_after_digits.
    pose proof (span_app is_digit t) as E. pose proof (span_all is_digit t) as A.
    destruct (span is_digit t) as [d t2]. cbn [fst snd] in *.
    destruct t2 as [|dot r0]; [discriminate|].
    destruct (N.eqb_spec dot 46); [subst dot|discriminate].
    intros H. inversion H; subst. split; [|split; [discriminate|]].
    + cbn [skipn app]. rewrite <- app_assoc. reflexivity.
    + cbn [forallb]. rewrite (Ordered.digit_not_terminator _ Hd). cbn [negb andb].
      rewrite forallb_app. cbn [forallb]. rewrite andb_true_r.
      rewrite forallb_forall in *. intros x Hx.
      rewrite (Ordered.digit_not_terminator _ (A x Hx)). reflexivity.
Qed.

(** The list marker [([-*]|\d+\.)] at one position. *)
Lemma interp_marker k pv rs n cs :
  (forall s, k s <> None) ->
  interp true re_marker k (MState pv rs n cs) =
  match marker_split rs with
  | Some (m, r) =>
      k (MState (rev m ++ pv) r (length m + n)%nat ((2%nat, m) :: cs))
  | None => None
  end.
Proof.
  intros Hk. unfold re_marker, Plus. rewrite interp_Grp, interp_Alt.
  change (js "-*") with [45; 42].
  destruct rs as [|c t]; [reflexivity|]. regex_steps. unfold marker_split.
  destruct (one_of [45; 42] c) eqn:Hc.
  - cbv beta. cbn [prev rest pos caps]. unfold captured. cbn [prev pos].
    replace (S n - n)%nat with 1%nat by lia. cbn [firstn rev app length Nat.add].
    destruct (k _) eqn:K; [reflexivity|]. exfalso. apply (Hk _ K).
  - destruct (is_digit c) eqn:Hd; [|reflexivity]. cbn [andb].
    rewrite interp_star_chr, star_chr_longest.
    + unfold dot_after_digits.
      destruct (span is_digit t) as [d t2]. cbn [fst snd].
      destruct t2 as [|dot r]; regex_steps; [reflexivity|].
      unfold is_char. destruct (N.eqb_spec dot 46); [subst dot|reflexivity].
      cbv beta. cbn [prev rest pos caps skipn]. unfold captured. cbn [prev pos].
      f_equal. f_equal.
      * cbn [rev]. rewrite rev_app_distr. cbn [rev app]. rewrite <- app_assoc.
        reflexivity.
      * cbn [length]. rewrite length_app. cbn [length]. lia.
      * f_equal. f_equal. apply (captured_chunk _ pv).
        -- cbn [rev]. rewrite rev_app_distr. cbn [rev app].
           rewrite <- !app_assoc. reflexivity.
        -- cbn [length]. rewrite length_app. cbn [length]. lia.
    + intros pv0 x r0 n0 cs0 Hx. regex_steps. unfold is_char.
      rewrite (Ordered.digit_not_dot _ Hx). reflexivity.
Qed.


Lemma indent_shape_eq k : forall s,
  indent_shape k s = startsWith s (spaces k) && has_list_marker (skipn k s).
Proof.
  induction k as [|k IH]; intros s; cbn [indent_shape spaces repeat skipn].
  - rewrite Fences.startsWith_nil. reflexivity.
  - destruct s as [|c t]; [reflexivity|]. cbn [startsWith skipn].
    fold (spaces k). rewrite IH, andb_assoc. reflexivity.
Qed.

Lemma spaces_length k : length (spaces k) = k.
Proof. apply repeat_length. Qed.

(** [/^( {k})([-*]|\d+\.)/gm] at one position. *)
Lemma exec_indent k before s :
  exec true (re_indent k) before s =
  if line_start before && startsWith s (spaces k) then
    match marker_split (skipn k s) with
    | Some (m, r) =>
        Some (MState (rev m ++ rev (spaces k) ++ before) r
                     (length m + (k + 0))%nat
                     [(2%nat, m); (1%nat, spaces k)])
    | None => None
    end
  else None.
Proof.
  unfold exec, re_indent. regex_steps. rewrite Ordered.at_bol_line_start.
  destruct (line_start before); [|reflexivity]. cbn [andb].
  rewrite interp_Grp, interp_lit.
  destruct (startsWith s (spaces k)); [|reflexivity].
  cbv beta. cbn [prev rest pos caps]. unfold captured. cbn [prev pos].
  rewrite Headings.firstn_rev_app, spaces_length.
  rewrite interp_marker by discriminate. reflexivity.
Qed.

Lemma substitute_text l : forall t m,
  substitute (map Txt l ++ t) m = l ++ substitute t m.
Proof.
  induction l as [|c l IH]; intros t m; [reflexivity|].
  cbn [map app substitute]. rewrite IH. reflexivity.
Qed.

Lemma exec_indent_miss k before s :
  line_start before && indent_shape k s = false ->
  exec true (re_indent k) before s = None.
Proof.
  intros H. rewrite exec_indent. rewrite indent_shape_eq, andb_assoc in H.
  unfold has_list_marker in H.
  destruct (line_start before && startsWith s (spaces k)); [|reflexivity].
  destruct (marker_split (skipn k s)) as [[m r]|]; [discriminate|reflexivity].
Qed.

Lemma loopI_hit k before s m r :
  line_start before = true -> startsWith s (spaces k) = true ->
  marker_split (skipn k s) = Some (m, r) ->
  loopI k before s =
  (spaces (2 * k) ++ m) ++ loopI k (rev m ++ rev (spaces k) ++ before) r.
Proof.
  intros Hb Hs Hm. unfold loopI.
  assert (Hne : m <> []) by (apply (marker_split_inv _ _ _ Hm)).
  erewrite replace_loop_hit;
    [| rewrite exec_indent, Hb, Hs, Hm; reflexivity
     | cbn [pos]; destruct m; [contradiction | cbn [length]; lia]].
  unfold tpl_indent. rewrite substitute_text.
  cbn [substitute capture caps find fst snd Nat.eqb prev rest].
  rewrite app_nil_r. reflexivity.
Qed.

(** *** Where no marker is read, none appears *)

Lemma dot_after_digits_cons c t :
  dot_after_digits (c :: t) = if is_digit c then dot_after_digits t else (c =? 46).
Proof. unfold dot_after_digits. cbn [span]. destruct (is_digit c); reflexivity. Qed.

Section Fixed.

Variable k0 : nat.

Let k := S k0.

Lemma loopI_nil before : loopI k before [] = [].
Proof.
  unfold loopI. rewrite replace_loop_nil, exec_indent_miss; [reflexivity|].
  apply andb_false_r.
Qed.

Lemma loopI_miss before c t :
  line_start before && indent_shape k (c :: t) = false ->
  loopI k before (c :: t) = c :: loopI k (c :: before) t.
Proof. intros H. apply replace_loop_miss, exec_indent_miss, H. Qed.

Lemma loopI_dot_after_digits t : forall before,
  line_start before = false -> dot_after_digits t = false ->
  dot_after_digits (loopI k before t) = false.
Proof.
  induction t as [|c t IH]; intros before Hb Ht.
  - rewrite loopI_nil. reflexivity.
  - rewrite loopI_miss by (rewrite Hb; reflexivity).
    rewrite dot_after_digits_cons in *. destruct (is_digit c) eqn:Hd; [|exact Ht].
    apply IH; [|exact Ht]. cbn [line_start]. apply Ordered.digit_not_terminator, Hd.
Qed.

Lemma has_list_marker_cons c t :
  has_list_marker (c :: t) = one_of [45; 42] c || (is_digit c && dot_after_digits t).
Proof.
  unfold has_list_marker, marker_split.
  destruct (one_of [45; 42] c); [reflexivity|].
  destruct (is_digit c && dot_after_digits t); reflexivity.
Qed.

Lemma loopI_has_list_marker s before :
  line_start before = false -> has_list_marker s = false ->
  has_list_marker (loopI k before s) = false.
Proof.
  intros Hb Hs. destruct s as [|c t]; [rewrite loopI_nil; reflexivity|].
  rewrite loopI_miss by (rewrite Hb; reflexivity).
  rewrite has_list_marker_cons in *. apply orb_false_iff in Hs.
  destruct Hs as [H1 H2]. rewrite H1. cbn [orb].
  destruct (is_digit c) eqn:Hd; [|reflexivity]. cbn [andb] in *.
  apply loopI_dot_after_digits; [|exact H2].
  cbn [line_start]. apply Ordered.digit_not_terminator, Hd.
Qed.

Lemma loopI_indent_shape j : forall s before,
  line_start before = false -> indent_shape j s = false ->
  indent_shape j (loopI k before s) = false.
Proof.
  induction j as [|j IH]; intros s before Hb Hs.
  - apply loopI_has_list_marker; assumption.
  - destruct s as [|c t]; [rewrite loopI_nil; reflexivity|].
    rewrite loopI_miss by (rewrite Hb; reflexivity).
    cbn [indent_shape] in *. destruct (N.eqb_spec c 32); [subst c|reflexivity].
    cbn [andb] in *. apply IH; [reflexivity | exact Hs].
Qed.

Lemma loopI_miss_stays s before :
  indent_shape k s = false -> indent_shape k (loopI k before s) = false.
Proof.
  intros Hs. destruct s as [|c t]; [rewrite loopI_nil; reflexivity|].
  rewrite loopI_miss by (rewrite Hs; apply andb_false_r).
  unfold k in *. cbn [indent_shape] in *.
  destruct (N.eqb_spec c 32); [subst c|reflexivity].
  cbn [andb] in *. apply loopI_indent_shape; [reflexivity | exact Hs].
Qed.


Lemma startsWith_split s p :
  startsWith s p = true -> s = p ++ skipn (length p) s.
Proof.
  revert s. induction p as [|a p IH]; intros s H; [reflexivity|].
  apply Fences.startsWith_cons in H. destruct H as (t & -> & H).
  cbn [length skipn app]. f_equal. apply IH, H.
Qed.

Lemma indent_shape_spaces j w : indent_shape j (spaces j ++ 32 :: w) = false.
Proof.
  induction j as [|j IH]; [reflexivity|].
  cbn [spaces repeat app indent_shape]. exact IH.
Qed.

Lemma spaces_not_terminators j :
  forallb (fun c => negb (is_line_terminator c)) (spaces j) = true.
Proof. induction j as [|j IH]; [reflexivity|]. cbn. exact IH. Qed.

Lemma loopI_hit_chunk before s :
  line_start before = true -> indent_shape k s = true ->
  exists o rs before',
    loopI k before s = o ++ loopI k before' rs /\
    (length rs < length s)%nat /\
    forall bol,
      (forall b, (b = true -> line_start before' = true) ->
                 no_shape (indent_shape k) b (loopI k before' rs) = true) ->
      no_shape (indent_shape k) bol (o ++ loopI k before' rs) = true.
Proof.
  intros Hb Hs. rewrite indent_shape_eq in Hs. apply andb_true_iff in Hs.
  destruct Hs as [Hsp Hm]. unfold has_list_marker in Hm.
  destruct (marker_split (skipn k s)) as [[m r]|] eqn:M; [|discriminate].
  destruct (marker_split_inv _ _ _ M) as (Em & Hne & Hnt).
  exists (spaces (2 * k) ++ m), r, (rev m ++ rev (spaces k) ++ before).
  split; [apply (loopI_hit k before s m r Hb Hsp M)|]. split.
  - pose proof (f_equal (@length char) (startsWith_split _ _ Hsp)) as L.
    rewrite length_app, spaces_length, Em, length_app in L.
    destruct m; [contradiction|]. cbn [length] in L. lia.
  - intros bol H. apply Anchored.no_shape_chunk.
    + unfold k. cbn. discriminate.
    + rewrite forallb_app, spaces_not_terminators, Hnt. reflexivity.
    + intros _. unfold spaces. replace (2 * k)%nat with (k + S k0)%nat by (unfold k; lia).
      rewrite repeat_app, <- !app_assoc. cbn [repeat app].
      apply indent_shape_spaces.
    + apply H. discriminate.
Qed.

Theorem loopI_idempotent s :
  replace_g true (re_indent k) (tpl_indent k)
    (replace_g true (re_indent k) (tpl_indent k) s) =
  replace_g true (re_indent k) (tpl_indent k) s.
Proof.
  apply (Anchored.replace_idempotent (re_indent k) (tpl_indent k) (indent_shape k)).
  - apply exec_indent_miss.
  - reflexivity.
  - apply loopI_miss_stays.
  - apply loopI_hit_chunk.
Qed.

End Fixed.

Lemma fixIndent2_idem md : fixIndent2 (fixIndent2 md) = fixIndent2 md.
Proof. apply (loopI_idempotent 1). Qed.

Lemma fixIndent4_idem md : fixIndent4 (fixIndent4 md) = fixIndent4 md.
Proof. apply (loopI_idempotent 3). Qed.

End Indent.

(** * Escaped periods in numbered headings *)

Module HeadingNumber.

Local Open Scope N_scope.

(** [p{0,n}] before a continuation that cannot start with a code unit of
    [p]: the run of [p] has to fit. *)
Lemma interp_upto ml p k : rejects p k ->
  forall n pv rs m cs,
  interp ml (UpTo n (Chr p)) k (MState pv rs m cs) =
  if (length (fst (span p rs)) <=? n)%nat
  then k (MState (rev (fst (span p rs)) ++ pv) (snd (span p rs))
                 (length (fst (span p rs)) + m)%nat cs)
  else None.
Proof.
  intros Hk. induction n as [|n IH]; intros pv rs m cs.
  - cbn [UpTo]. rewrite interp_Eps. destruct rs as [|c t]; [reflexivity|].
    cbn [span]. destruct (p c) eqn:Hc; [|reflexivity].
    cbn [fst length Nat.leb]. apply Hk, Hc.
  - cbn [UpTo]. unfold Opt. rewrite interp_Alt, interp_Seq, interp_Eps.
    destruct rs as [|c t]; [reflexivity|]. rewrite interp_Chr. cbn [span].
    destruct (p c) eqn:Hc; [|reflexivity].
    rewrite IH. cbn [fst snd length Nat.leb].
    destruct (length (fst (span p t)) <=? n)%nat.
    + cbn [rev]. rewrite <- app_assoc. cbn [app].
      replace (length (fst (span p t)) + S m)%nat
        with (S (length (fst (span p t)) + m)) by lia.
      destruct (k _) eqn:K; [reflexivity|]. apply Hk, Hc.
    + apply Hk, Hc.
Qed.

Lemma space_not_hash c : is_space c = true -> is_hash c = false.
Proof.
  intros H. unfold is_hash, is_char.
  destruct (N.eqb_spec c 35); [subst; discriminate | reflexivity].
Qed.

Lemma digit_not_backslash c : is_digit c = true -> (c =? 92) = false.
Proof.
  intros H. destruct (N.eqb_spec c 92); [subst; discriminate | reflexivity].
Qed.

Lemma leb_one_length (l : jsstring) :
  (1 <=? length l)%nat = match l with [] => false | _ :: _ => true end.
Proof. destruct l; reflexivity. Qed.


(** [/^(#{1,6}\s+\d+)\\\. /gm] at one position. *)
Lemma exec_heading before s :
  exec true re_heading_number before s =
  if line_start before then
    match heading_view s with
    | Some (h, w, d, r) =>
        Some (MState (32 :: 46 :: 92 :: rev d ++ rev w ++ rev h ++ before) r
                     (length h + length w + length d + 3)%nat
                     [(1%nat, h ++ w ++ d)])
    | None => None
    end
  else None.
Proof.
  unfold exec, re_heading_number, Plus. change (js "\\. ") with escaped_period.
  change (is_char 35) with is_hash.
  regex_steps. rewrite Ordered.at_bol_line_start.
  destruct (line_start before); [|reflexivity].
  rewrite interp_Grp. regex_steps. unfold heading_view. cbv zeta.
  destruct s as [|c t]; [reflexivity|]. regex_steps.
  cbn [span]. destruct (is_hash c) eqn:Hc; [|reflexivity].
  rewrite interp_upto.
  2:{ intros pv x r n cs Hx. regex_steps.
      destruct (is_space x) eqn:Sx; [|reflexivity].
      rewrite (space_not_hash _ Sx) in Hx. discriminate. }
  destruct (span is_hash t) as [h s1]. cbn [fst snd length].
  change (1 <=? S (length h))%nat with true.
  change (S (length h) <=? 6)%nat with (length h <=? 5)%nat.
  destruct (length h <=? 5)%nat; [|reflexivity]. cbn [andb].
  regex_steps. destruct s1 as [|x s1]; [reflexivity|]. regex_steps.
  cbn [span]. destruct (is_space x) eqn:Hx; [|reflexivity].
  rewrite interp_star_chr, star_chr_longest.
  2:{ intros pv y r n cs Hy. regex_steps.
      rewrite (Ordered.space_not_digit _ Hy). reflexivity. }
  destruct (span is_space s1) as [w s2]. cbn [fst snd length].
  change (1 <=? S (length w))%nat with true. cbn [andb].
  regex_steps. destruct s2 as [|y s2]; [reflexivity|]. regex_steps.
  cbn [span]. destruct (is_digit y) eqn:Hy; [|reflexivity].
  rewrite interp_star_chr, star_chr_longest.
  2:{ intros pv z r n cs Hz. cbv beta. cbn [prev rest pos caps].
      rewrite Indent.interp_lit. unfold escaped_period. cbn [startsWith].
      rewrite (digit_not_backslash _ Hz). reflexivity. }
  destruct (span is_digit s2) as [d s3]. cbn [fst snd length].
  change (1 <=? S (length d))%nat with true. cbn [andb].
  cbv beta. cbn [prev rest pos caps]. rewrite Indent.interp_lit.
  destruct (startsWith s3 escaped_period); [|reflexivity].
  unfold captured. cbn [prev pos]. f_equal. f_equal.
  - unfold escaped_period. cbn [rev app]. rewrite <- !app_assoc. reflexivity.
  - unfold escaped_period. cbn [length]. lia.
  - f_equal. f_equal. apply (Indent.captured_chunk _ before).
    + Indent.list_norm. reflexivity.
    + cbn [length]. rewrite !length_app. cbn [length]. lia.
Qed.


Lemma exec_heading_miss before s :
  line_start before && heading_shape s = false ->
  exec true re_heading_number before s = None.
Proof.
  intros H. rewrite exec_heading. unfold heading_shape in H.
  destruct (line_start before); [|reflexivity].
  destruct (heading_view s) as [[[[h w] d] r]|]; [discriminate|reflexivity].
Qed.

Lemma heading_shape_nil : heading_shape [] = false.
Proof. reflexivity. Qed.

Lemma loopH_nil before : loopH before [] = [].
Proof. apply (Anchored.loop_nil _ _ _ exec_heading_miss heading_shape_nil). Qed.

Lemma loopH_miss before c t :
  line_start before && heading_shape (c :: t) = false ->
  loopH before (c :: t) = c :: loopH (c :: before) t.
Proof. apply (Anchored.loop_miss _ _ _ exec_heading_miss). Qed.

Lemma tpl_heading_number : template 1 (js "$1. ") = [Ref 1; Txt 46; Txt 32].
Proof. reflexivity. Qed.

Lemma loopH_hit before s h w d r :
  line_start before = true -> heading_view s = Some (h, w, d, r) ->
  loopH before s =
  (h ++ w ++ d ++ [46; 32]) ++
  loopH (32 :: 46 :: 92 :: rev d ++ rev w ++ rev h ++ before) r.
Proof.
  intros Hb Hv. unfold loopH.
  erewrite replace_loop_hit;
    [| rewrite exec_heading, Hb, Hv; reflexivity | cbn [pos]; lia].
  rewrite tpl_heading_number.
  cbn [substitute capture caps find fst snd Nat.eqb prev rest].
  rewrite <- !app_assoc. reflexivity.
Qed.

Lemma heading_view_inv s h w d r :
  heading_view s = Some (h, w, d, r) ->
  s = h ++ w ++ d ++ escaped_period ++ r /\
  (h <> [] /\ forallb is_hash h = true) /\
  (w <> [] /\ forallb is_space w = true) /\
  (d <> [] /\ forallb is_digit d = true).
Proof.
  unfold heading_view. cbv zeta.
  pose proof (span_app is_hash s) as E1. pose proof (span_all is_hash s) as A1.
  destruct (span is_hash s) as [h0 s1]. cbn [fst snd] in *.
  pose proof (span_app is_space s1) as E2. pose proof (span_all is_space s1) as A2.
  destruct (span is_space s1) as [w0 s2]. cbn [fst snd] in *.
  pose proof (span_app is_digit s2) as E3. pose proof (span_all is_digit s2) as A3.
  destruct (span is_digit s2) as [d0 s3]. cbn [fst snd] in *.
  rewrite !leb_one_length.
  destruct h0 as [|c0 h0]; [discriminate|]. cbn [andb].
  destruct (length (c0 :: h0) <=? 6)%nat; [|discriminate]. cbn [andb].
  destruct w0 as [|x0 w0]; [discriminate|]. cbn [andb].
  destruct d0 as [|y0 d0]; [discriminate|]. cbn [andb].
  destruct (startsWith s3 escaped_period) eqn:T; [|discriminate].
  intros H. inversion H; subst.
  split; [|repeat split; (discriminate || assumption)].
  rewrite (Indent.startsWith_split _ _ T) at 1. reflexivity.
Qed.

(** *** The stages of reading a numbered heading *)

Lemma heading_shape_cons c t :
  heading_shape (c :: t) =
  is_hash c && (length (fst (span is_hash t)) <=? 5)%nat &&
  space_then_number (snd (span is_hash t)).
Proof.
  unfold heading_shape, heading_view. cbv zeta. cbn [span].
  destruct (is_hash c); [|reflexivity].
  destruct (span is_hash t) as [h s1]. cbn [fst snd length].
  change (1 <=? S (length h))%nat with true.
  change (S (length h) <=? 6)%nat with (length h <=? 5)%nat.
  destruct (length h <=? 5)%nat; [|reflexivity]. cbn [andb].
  unfold space_then_number. destruct s1 as [|x s1]; [reflexivity|].
  cbn [span]. destruct (is_space x); [|reflexivity].
  destruct (span is_space s1) as [w s2]. cbn [fst snd length andb].
  unfold number_then_period. destruct s2 as [|y s2]; [reflexivity|].
  cbn [span]. destruct (is_digit y); [|reflexivity].
  unfold digits_then_period.
  destruct (span is_digit s2) as [d s3]. cbn [fst snd length andb].
  destruct (startsWith s3 escaped_period); reflexivity.
Qed.

Lemma loopH_head before c t : exists X, loopH before (c :: t) = c :: X.
Proof.
  destruct (line_start before && heading_shape (c :: t)) eqn:E.
  - apply andb_true_iff in E. destruct E as [Hb Hs]. unfold heading_shape in Hs.
    destruct (heading_view (c :: t)) as [[[[h w] d] r]|] eqn:V; [|discriminate].
    rewrite (loopH_hit _ _ _ _ _ _ Hb V).
    destruct (heading_view_inv _ _ _ _ _ V) as (Es & (Hh & _) & _).
    destruct h as [|c' h]; [contradiction|]. cbn [app] in Es.
    inversion Es; subst c'. eexists. reflexivity.
  - rewrite (loopH_miss _ _ _ E). eexists. reflexivity.
Qed.

Lemma heading_shape_head c t : is_hash c = false -> heading_shape (c :: t) = false.
Proof. intros H. rewrite heading_shape_cons, H. reflexivity. Qed.

Lemma loopH_escaped_period s before :
  line_start before = false ->
  startsWith (loopH before s) escaped_period = startsWith s escaped_period.
Proof.
  intros Hb.
  apply (Anchored.loop_startsWith _ _ _ exec_heading_miss heading_shape_nil);
    [exact Hb | reflexivity].
Qed.

Lemma loopH_digits_then_period s : forall before,
  line_start before = false -> digits_then_period s = false ->
  digits_then_period (loopH before s) = false.
Proof.
  induction s as [|c t IH]; intros before Hb Hs.
  - rewrite loopH_nil. reflexivity.
  - unfold digits_then_period in *. cbn [span] in Hs.
    destruct (is_digit c) eqn:Hd; cbn [snd] in Hs.
    + rewrite loopH_miss by (rewrite Hb; reflexivity). cbn [span].
      rewrite Hd. cbn [snd]. apply IH; [|exact Hs].
      cbn [line_start]. apply Ordered.digit_not_terminator, Hd.
    + destruct (loopH_head before c t) as (X & EX).
      assert (P : startsWith (loopH before (c :: t)) escaped_period = false).
      { rewrite (loopH_escaped_period _ _ Hb). exact Hs. }
      rewrite EX in *. cbn [span]. rewrite Hd. exact P.
Qed.

Lemma hash_not_digit c : is_digit c = true -> is_hash c = false.
Proof.
  intros H. unfold is_hash, is_char.
  destruct (N.eqb_spec c 35); [subst; discriminate | reflexivity].
Qed.

Lemma loopH_number_then_period s before :
  number_then_period s = false -> number_then_period (loopH before s) = false.
Proof.
  intros Hs. destruct s as [|c t]; [rewrite loopH_nil; reflexivity|].
  destruct (is_digit c) eqn:Hd.
  - rewrite loopH_miss
      by (rewrite (heading_shape_head _ _ (hash_not_digit _ Hd)); apply andb_false_r).
    cbn [number_then_period] in *. rewrite Hd in *. cbn [andb] in *.
    apply loopH_digits_then_period; [|exact Hs].
    cbn [line_start]. apply Ordered.digit_not_terminator, Hd.
  - destruct (loopH_head before c t) as (X & ->).
    cbn [number_then_period]. rewrite Hd. reflexivity.
Qed.

Lemma loopH_spaces_then_number s : forall before,
  number_then_period (snd (span is_space s)) = false ->
  number_then_period (snd (span is_space (loopH before s))) = false.
Proof.
  induction s as [|c t IH]; intros before Hs.
  - rewrite loopH_nil. reflexivity.
  - cbn [span] in Hs. destruct (is_space c) eqn:Hc; cbn [snd] in Hs.
    + rewrite loopH_miss
        by (rewrite (heading_shape_head _ _ (space_not_hash _ Hc)); apply andb_false_r).
      cbn [span]. rewrite Hc. cbn [snd]. apply IH, Hs.
    + pose proof (loopH_number_then_period (c :: t) before Hs) as P.
      destruct (loopH_head before c t) as (X & EX). rewrite EX in *.
      cbn [span]. rewrite Hc. exact P.
Qed.

Lemma loopH_space_then_number s before :
  space_then_number s = false -> space_then_number (loopH before s) = false.
Proof.
  intros Hs. destruct s as [|c t]; [rewrite loopH_nil; reflexivity|].
  destruct (is_space c) eqn:Hc.
  - rewrite loopH_miss
      by (rewrite (heading_shape_head _ _ (space_not_hash _ Hc)); apply andb_false_r).
    cbn [space_then_number] in *. rewrite Hc in *. cbn [andb] in *.
    apply loopH_spaces_then_number, Hs.
  - destruct (loopH_head before c t) as (X & ->).
    cbn [space_then_number]. rewrite Hc. reflexivity.
Qed.


Lemma hash_not_terminator c : is_hash c = true -> is_line_terminator c = false.
Proof.
  unfold is_hash, is_char. intros H. apply N.eqb_eq in H. subst c. reflexivity.
Qed.

Lemma hashes_not_terminators h :
  forallb is_hash h = true ->
  forallb (fun c => negb (is_line_terminator c)) h = true.
Proof.
  rewrite !forallb_forall. intros H x Hx.
  rewrite (hash_not_terminator _ (H x Hx)). reflexivity.
Qed.

Lemma loopH_miss_stays s before :
  heading_shape s = false -> heading_shape (loopH before s) = false.
Proof.
  intros Hs. destruct s as [|c t]; [rewrite loopH_nil; reflexivity|].
  rewrite loopH_miss by (rewrite Hs; apply andb_false_r).
  rewrite heading_shape_cons in *. destruct (is_hash c) eqn:Hc; [|reflexivity].
  cbn [andb] in *.
  pose proof (span_app is_hash t) as E. pose proof (span_all is_hash t) as A.
  pose proof (span_stop is_hash t) as St.
  destruct (span is_hash t) as [h s1]. cbn [fst snd] in *. subst t.
  assert (Hb : line_start (c :: before) = false)
    by (cbn [line_start]; apply hash_not_terminator, Hc).
  unfold loopH.
  rewrite (Anchored.loop_copy _ _ _ exec_heading_miss h _ _ Hb (hashes_not_terminators _ A)).
  fold (loopH (rev h ++ c :: before) s1).
  assert (Sp : span is_hash (h ++ loopH (rev h ++ c :: before) s1) =
               (h, loopH (rev h ++ c :: before) s1)).
  { apply Headings.span_app_stop; [exact A|].
    destruct s1 as [|x s1]; [rewrite loopH_nil; exact I|].
    destruct (loopH_head (rev h ++ c :: before) x s1) as (X & ->). exact St. }
  rewrite Sp. cbn [fst snd].
  destruct (length h <=? 5)%nat; [|reflexivity]. cbn [andb] in *.
  apply loopH_space_then_number, Hs.
Qed.

Lemma heading_shape_rewritten h w d z :
  forallb is_hash h = true ->
  w <> [] -> forallb is_space w = true ->
  forallb is_digit d = true ->
  heading_shape (h ++ w ++ d ++ 46 :: z) = false.
Proof.
  intros Hh Hw Sw Hd. unfold heading_shape, heading_view. cbv zeta.
  destruct w as [|x w]; [contradiction|].
  cbn [forallb] in Sw. apply andb_true_iff in Sw. destruct Sw as [Sx Sw].
  rewrite (Headings.span_app_stop is_hash h _ Hh)
    by (cbn [app]; apply space_not_hash, Sx).
  cbn [fst snd].
  assert (Sws : forallb is_space (x :: w) = true)
    by (cbn [forallb]; rewrite Sx, Sw; reflexivity).
  assert (Stop : match d ++ 46 :: z with
                 | c :: _ => is_space c = false
                 | [] => True
                 end).
  { destruct d as [|y d]; [reflexivity|]. cbn [app].
    cbn [forallb] in Hd. apply andb_true_iff in Hd. destruct Hd as [Hy _].
    destruct (is_space y) eqn:Sy; [|reflexivity].
    rewrite (Ordered.space_not_digit _ Sy) in Hy. discriminate. }
  rewrite (Headings.span_app_stop is_space (x :: w) _ Sws Stop).
  cbn [fst snd].
  rewrite (Headings.span_app_stop is_digit d (46 :: z) Hd) by reflexivity.
  cbn [fst snd]. unfold escaped_period. cbn [startsWith N.eqb Pos.eqb andb].
  rewrite !andb_false_r. reflexivity.
Qed.

Lemma loopH_hit_chunk before s :
  line_start before = true -> heading_shape s = true ->
  exists o rs before',
    loopH before s = o ++ loopH before' rs /\
    (length rs < length s)%nat /\
    forall bol,
      (forall b, (b = true -> line_start before' = true) ->
                 no_shape heading_shape b (loopH before' rs) = true) ->
      no_shape heading_shape bol (o ++ loopH before' rs) = true.
Proof.
  intros Hb Hs. unfold heading_shape in Hs.
  destruct (heading_view s) as [[[[h w] d] r]|] eqn:V; [|discriminate].
  destruct (heading_view_inv _ _ _ _ _ V) as (Es & (Hh & Ah) & (Hw & Aw) & (Hd & Ad)).
  eexists _, r, _. split; [apply (loopH_hit before s h w d r Hb V)|]. split.
  - rewrite Es, !length_app. unfold escaped_period. cbn [length].
    destruct h; [contradiction|]. cbn [length]. lia.
  - intros bol H. rewrite <- !app_assoc.
    apply Anchored.no_shape_chunk.
    + exact Hh.
    + apply hashes_not_terminators, Ah.
    + intros _. cbn [app]. apply heading_shape_rewritten; assumption.
    + replace (w ++ d ++ [46; 32] ++ loopH _ r)
        with ((w ++ d ++ [46]) ++ 32 :: loopH (32 :: 46 :: 92 :: rev d ++ rev w ++ rev h ++ before) r)
        by (rewrite <- !app_assoc; reflexivity).
      apply (Anchored.no_shape_skip heading_shape (fun c => negb (is_hash c))).
      * intros c t Hc. apply heading_shape_head, negb_true_iff, Hc.
      * rewrite !forallb_app. cbn [forallb].
        assert (Nw : forallb (fun c => negb (is_hash c)) w = true).
        { rewrite forallb_forall in *. intros x Hx.
          rewrite (space_not_hash _ (Aw x Hx)). reflexivity. }
        assert (Nd : forallb (fun c => negb (is_hash c)) d = true).
        { rewrite forallb_forall in *. intros x Hx.
          rewrite (hash_not_digit _ (Ad x Hx)). reflexivity. }
        rewrite Nw, Nd. reflexivity.
      * cbn [no_shape]. rewrite (heading_shape_head 32) by reflexivity.
        cbn [negb andb]. change (is_line_terminator 32) with false.
        apply H. discriminate.
Qed.

Lemma fixEscapedPeriod_idem md :
  fixEscapedPeriod (fixEscapedPeriod md) = fixEscapedPeriod md.
Proof.
  apply (Anchored.replace_idempotent re_heading_number
           (template 1 (js "$1. ")) heading_shape).
  - apply exec_heading_miss.
  - reflexivity.
  - apply loopH_miss_stays.
  - apply loopH_hit_chunk.
Qed.

End HeadingNumber.

(** * Bold-only lines *)

Module BoldLine.

Local Open Scope N_scope.

Lemma terminator_is_space c : is_line_terminator c = true -> is_space c = true.
Proof. unfold is_space. intros ->. apply orb_true_r. Qed.

(** [(\s* )$] at one position. *)
Lemma star_chr_eol (f : mstate -> mstate) (k : cont) :
  (forall s', k s' = if at_eol true s' then Some (f s') else None) ->
  forall rs pv n cs,
  star_chr is_space k pv rs n cs =
  match eol_split rs with
  | Some (w, r) => Some (f (MState (rev w ++ pv) r (length w + n)%nat cs))
  | None => None
  end.
Proof.
  intros Hk. induction rs as [|c t IH]; intros pv n cs; cbn [star_chr eol_split].
  - rewrite Hk. reflexivity.
  - destruct (is_space c) eqn:Hc.
    + rewrite IH. destruct (eol_split t) as [[w r]|].
      * cbn [rev length]. rewrite <- app_assoc. cbn [app].
        replace (length w + S n)%nat with (S (length w) + n)%nat by lia.
        reflexivity.
      * rewrite Hk. unfold at_eol. cbn [rest andb].
        destruct (is_line_terminator c); reflexivity.
    + rewrite Hk. unfold at_eol. cbn [rest andb].
      destruct (is_line_terminator c) eqn:L; [|reflexivity].
      rewrite (terminator_is_space _ L) in Hc. discriminate.
Qed.

Lemma text_char_not_star c : text_char c = true -> (c =? 42) = false.
Proof.
  unfold text_char, none_of, one_of. cbn [existsb].
  destruct (c =? 42); [discriminate | reflexivity].
Qed.

(** [/^(\s* )\*\*([^*\n]+)\*\*(\s* )$/gm] at one position. *)
Lemma exec_bold before s :
  exec true re_bold_line before s =
  if line_start before then
    match bold_view s with
    | Some (w1, t, w3, r) =>
        Some (MState (rev w3 ++ 42 :: 42 :: rev t ++ 42 :: 42 :: rev w1 ++ before)
                     r (length w1 + length t + length w3 + 4)%nat
                     [(3%nat, w3); (2%nat, t); (1%nat, w1)])
    | None => None
    end
  else None.
Proof.
  unfold exec, re_bold_line, Plus.
  change (js "**") with [42; 42]. change (none_of (js "*\n")) with text_char.
  change (lit [42; 42]) with (Seq (Chr (is_char 42)) (Chr (is_char 42))).
  regex_steps. rewrite Ordered.at_bol_line_start.
  destruct (line_start before); [|reflexivity].
  rewrite interp_Grp, interp_star_chr, star_chr_longest.
  2:{ intros pv c r n cs Hc. cbv beta. cbn [prev rest pos caps]. regex_steps.
      unfold is_char. rewrite (Headings.space_not_star _ Hc). reflexivity. }
  cbv beta. cbn [prev rest pos caps]. unfold captured at 1. cbn [prev pos].
  rewrite Headings.firstn_rev_app. unfold bold_view. cbv zeta.
  destruct (span is_space s) as [w1 s1]. cbn [fst snd].
  destruct s1 as [|a [|b s2]]; regex_steps; [reflexivity| |].
  { unfold is_char. destruct (a =? 42); reflexivity. }
  unfold is_char at 1 2.
  destruct (N.eqb_spec a 42);
    [subst a|destruct (snd (span text_char s2)) as [|? [|? ?]]; reflexivity].
  destruct (N.eqb_spec b 42);
    [subst b|destruct (snd (span text_char s2)) as [|? [|? ?]]; reflexivity].
  cbn [andb N.eqb Pos.eqb].
  rewrite interp_Grp. regex_steps.
  destruct s2 as [|c s2]; [reflexivity|]. regex_steps. cbn [span].
  destruct (text_char c) eqn:Hc; [|destruct s2 as [|? [|? ?]]; reflexivity].
  rewrite interp_star_chr, star_chr_longest.
  2:{ intros pv x r n cs Hx. cbv beta. cbn [prev rest pos caps]. regex_steps.
      unfold is_char. rewrite (text_char_not_star _ Hx). reflexivity. }
  destruct (span text_char s2) as [t s3]. cbn [fst snd length].
  change (1 <=? S (length t))%nat with true. cbn [andb].
  cbv beta. cbn [prev rest pos caps].
  destruct s3 as [|x [|y s4]]; regex_steps; [reflexivity| |].
  { unfold is_char. destruct (x =? 42); reflexivity. }
  unfold is_char at 1 2.
  destruct (N.eqb_spec x 42); [subst x|reflexivity].
  destruct (N.eqb_spec y 42); [subst y|reflexivity]. cbn [andb].
  rewrite interp_Grp, interp_star_chr.
  erewrite star_chr_eol.
  2:{ intros s'. rewrite interp_Eol. unfold at_eol. cbn [rest]. reflexivity. }
  destruct (eol_split s4) as [[w3 r]|]; [|reflexivity].
  cbn [prev rest pos caps]. unfold captured. cbn [prev pos].
  f_equal. f_equal.
  - Indent.list_norm. reflexivity.
  - cbn [length]. lia.
  - f_equal; [|f_equal].
    + f_equal.
      apply (Indent.captured_chunk _ (42 :: 42 :: rev t ++ c :: 42 :: 42 :: rev w1 ++ before));
        [reflexivity | lia].
    + f_equal. apply (Indent.captured_chunk _ (42 :: 42 :: rev w1 ++ before)).
      * Indent.list_norm. reflexivity.
      * cbn [length]. lia.
Qed.

End BoldLine.

(** * Documents that the post-processor leaves alone *)

Module Settled.

Local Open Scope N_scope.

Lemma exec_bold_miss before s :
  line_start before && bold_shape s = false ->
  exec true re_bold_line before s = None.
Proof.
  intros H. rewrite BoldLine.exec_bold. unfold bold_shape in H.
  destruct (line_start before); [|reflexivity].
  destruct (bold_view s) as [[[[w1 t] w3] r]|]; [discriminate|reflexivity].
Qed.

Lemma fixEmphasisHeading_fixed s :
  no_shape bold_shape true s = true -> fixEmphasisHeading s = s.
Proof.
  intros H.
  apply (Anchored.loop_fixed re_bold_line (template 3 (js "$1### $2$3"))
           bold_shape exec_bold_miss eq_refl s []).
  exact H.
Qed.

Lemma fixOrderedPrefix_fixed s :
  markers_all_one true s = true -> fixOrderedPrefix s = s.
Proof. intros H. apply (Ordered.loopO_fixed (length s) s []); [lia | exact H]. Qed.

Lemma fixIndent2_fixed s :
  no_shape (indent_shape 2) true s = true -> fixIndent2 s = s.
Proof.
  intros H.
  apply (Anchored.loop_fixed (re_indent 2) (tpl_indent 2) (indent_shape 2)
           (Indent.exec_indent_miss 2) eq_refl s []).
  exact H.
Qed.

Lemma fixIndent4_fixed s :
  no_shape (indent_shape 4) true s = true -> fixIndent4 s = s.
Proof.
  intros H.
  apply (Anchored.loop_fixed (re_indent 4) (tpl_indent 4) (indent_shape 4)
           (Indent.exec_indent_miss 4) eq_refl s []).
  exact H.
Qed.

Lemma fixEscapedPeriod_fixed s :
  no_shape heading_shape true s = true -> fixEscapedPeriod s = s.
Proof.
  intros H.
  apply (Anchored.loop_fixed re_heading_number (template 1 (js "$1. "))
           heading_shape HeadingNumber.exec_heading_miss eq_refl s []).
  exact H.
Qed.

Lemma crowds_before_view c t : crowds c t = false -> before_view c t = None.
Proof.
  unfold crowds, before_view, fence_line.
  destruct t as [|a [|b1 [|b2 [|b3 r]]]]; try reflexivity.
  cbn [startsWith]. rewrite Fences.startsWith_nil, andb_true_r.
  rewrite !andb_assoc. intros ->. reflexivity.
Qed.

Lemma loopA_fixed s : forall before, crowded_fence s = false -> loopA before s = s.
Proof.
  induction s as [|c t IH]; intros before H; [reflexivity|].
  cbn [crowded_fence] in H. apply orb_false_iff in H. destruct H as [H1 H2].
  rewrite Fences.loopA_miss by (apply crowds_before_view, H1).
  f_equal. apply IH, H2.
Qed.

Lemma loopB_fixed s : forall before,
  fence_crowds_next s = false -> loopB before s = s.
Proof.
  induction s as [|c t IH]; intros before H; [reflexivity|].
  cbn [fence_crowds_next] in H.
  destruct (after_view c t) as [p|] eqn:V; [discriminate|].
  rewrite (Fences.loopB_miss _ _ _ V). f_equal. apply IH, H.
Qed.

Lemma fixTrailingNewline_fixed s :
  starts_with_text s = true -> ends_with_single_newline s = true ->
  fixTrailingNewline s = s.
Proof.
  intros Hs He. unfold fixTrailingNewline.
  assert (B : exists b, s = b ++ [10] /\
                match rev b with c :: _ => is_space c = false | [] => True end).
  { unfold ends_with_single_newline in He.
    exists (rev (tl (rev s))). destruct (rev s) as [|c [|d u]] eqn:E;
      [discriminate| |].
    - apply N.eqb_eq in He. subst c. split; [|exact I].
      rewrite <- (rev_involutive s), E. reflexivity.
    - apply andb_true_iff in He. destruct He as [H1 H2].
      apply N.eqb_eq in H1. subst c. apply negb_true_iff in H2. split.
      + rewrite <- (rev_involutive s), E. reflexivity.
      + cbn [tl]. rewrite rev_involutive. exact H2. }
  destruct B as (b & -> & Hb).
  assert (T : trim b = b).
  { apply trim_fixed; [|exact Hb].
    destruct b as [|c [|d u]]; [exact I| |].
    - cbn [rev app] in Hb. exact Hb.
    - cbn [app starts_with_text] in Hs. apply negb_true_iff, Hs. }
  rewrite <- T at 1. rewrite trim_snoc_newline, T. reflexivity.
Qed.

(** A settled document is a fixed point of the post-processor. *)
Lemma settled_fixed s : settled s = true -> postProcessMarkdown s = s.
Proof.
  unfold settled. intros H.
  repeat (apply andb_true_iff in H; destruct H as [H ?]).
  unfold postProcessMarkdown. cbv zeta.
  rewrite fixEmphasisHeading_fixed by assumption.
  rewrite fixOrderedPrefix_fixed by assumption.
  rewrite fixIndent2_fixed by assumption.
  rewrite fixIndent4_fixed by assumption.
  rewrite fixEscapedPeriod_fixed by assumption.
  unfold fixFenceBefore, fixFenceAfter.
  change (replace_g false re_fence_before (template 2 (js "$1\n\n$2")) s)
    with (loopA [] s).
  rewrite loopA_fixed by (apply negb_true_iff; assumption).
  change (replace_g false re_fence_after (template 2 (js "$1\n\n$2")) s)
    with (loopB [] s).
  rewrite loopB_fixed by (apply negb_true_iff; assumption).
  apply fixTrailingNewline_fixed; assumption.
Qed.

End Settled.

(** * Language detection *)

Module Detect.

Lemma trimStart_app_spaces w s :
  forallb is_space w = true -> trimStart (w ++ s) = trimStart s.
Proof.
  induction w as [|c w IH]; intros H; [reflexivity|].
  cbn [forallb] in H. apply andb_true_iff in H. destruct H as [Hc Hw].
  cbn [app trimStart]. rewrite Hc. apply IH, Hw.
Qed.

Lemma trimStart_all_space s : forallb is_space s = true -> trimStart s = [].
Proof.
  intros H. rewrite <- (app_nil_r s). rewrite trimStart_app_spaces by exact H.
  reflexivity.
Qed.

Lemma trimStart_nil_inv s : trimStart s = [] -> forallb is_space s = true.
Proof.
  intros H. destruct (trimStart_suffix s) as (u & Hu & Hsp).
  rewrite H, app_nil_r in Hu. subst u. exact Hsp.
Qed.

Lemma trimStart_app s w : trimStart s <> [] -> trimStart (s ++ w) = trimStart s ++ w.
Proof.
  induction s as [|c s IH]; intros H; [contradiction|].
  cbn [app trimStart] in *. destruct (is_space c); [apply IH, H | reflexivity].
Qed.

Lemma forallb_rev {A} (p : A -> bool) l : forallb p (rev l) = forallb p l.
Proof.
  induction l as [|a l IH]; [reflexivity|].
  cbn [rev forallb]. rewrite forallb_app, IH. cbn [forallb].
  rewrite andb_true_r. apply andb_comm.
Qed.

Lemma trimEnd_app_spaces s w :
  forallb is_space w = true -> trimEnd (s ++ w) = trimEnd s.
Proof.
  intros H. unfold trimEnd. rewrite rev_app_distr, trimStart_app_spaces;
    [reflexivity|]. rewrite forallb_rev. exact H.
Qed.

(** White space around a text does not survive [trim]. *)
Lemma trim_pad w1 s w2 :
  forallb is_space w1 = true -> forallb is_space w2 = true ->
  trim (w1 ++ s ++ w2) = trim s.
Proof.
  intros H1 H2. unfold trim. rewrite trimStart_app_spaces by exact H1.
  destruct (trimStart s) as [|c t] eqn:E.
  - apply trimStart_nil_inv in E. rewrite trimStart_app_spaces by exact E.
    rewrite trimStart_all_space by exact H2. reflexivity.
  - rewrite trimStart_app by (rewrite E; discriminate).
    rewrite E. apply trimEnd_app_spaces, H2.
Qed.

Lemma detectLanguage_pad w1 code w2 :
  forallb is_space w1 = true -> forallb is_space w2 = true ->
  detectLanguage (w1 ++ code ++ w2) = detectLanguage code.
Proof.
  intros H1 H2. unfold detectLanguage. rewrite trim_pad by assumption.
  reflexivity.
Qed.

Lemma detectLanguage_codomain code : In (detectLanguage code) languages.
Proof.
  unfold detectLanguage, languages. cbv zeta.
  destruct (trim code) as [|c t]; [left; reflexivity|].
  repeat match goal with
         | |- context [if ?b then _ else _] => destruct b
         end; cbn [In]; auto 10.
Qed.

Lemma detectLanguage_text code : detectLanguage code = js "text" <-> trim code = [].
Proof.
  split.
  - unfold detectLanguage. cbv zeta.
    destruct (trim code) as [|c t]; [reflexivity|].
    repeat match goal with
           | |- context [if ?b then _ else _] => destruct b
           end; intros H; vm_compute in H; discriminate.
  - intros H. unfold detectLanguage. rewrite H. reflexivity.
Qed.


Lemma search_anchored r s : forall before,
  before <> [] -> search false (Seq Bol r) before s = None.
Proof.
  induction s as [|c t IH]; intros before H; cbn [search];
    unfold exec; rewrite interp_Seq, interp_Bol; unfold at_bol; cbn [prev];
    destruct before as [|b before']; try contradiction; cbn [andb].
  - reflexivity.
  - apply IH. discriminate.
Qed.

Lemma test_anchored r s :
  test false (Seq Bol r) s =
  match exec false (Seq Bol r) [] s with Some _ => true | None => false end.
Proof.
  unfold test, match_first. destruct s as [|c t]; cbn [search].
  - destruct (exec false (Seq Bol r) [] []); reflexivity.
  - destruct (exec false (Seq Bol r) [] (c :: t)); [reflexivity|].
    rewrite search_anchored by discriminate. reflexivity.
Qed.

Lemma trimEnd_cons c q : is_space c = false -> trimEnd (c :: q) = c :: trimEnd q.
Proof.
  intros Hc. unfold trimEnd. cbn [rev].
  destruct (trimStart (rev q)) as [|d u] eqn:E.
  - apply trimStart_nil_inv in E. rewrite trimStart_app_spaces by exact E.
    cbn [trimStart]. rewrite Hc. reflexivity.
  - rewrite trimStart_app by (rewrite E; discriminate).
    rewrite E, rev_app_distr. reflexivity.
Qed.

Lemma trim_cons c q : is_space c = false -> trim (c :: q) = c :: trimEnd q.
Proof.
  intros Hc. unfold trim. cbn [trimStart]. rewrite Hc. apply trimEnd_cons, Hc.
Qed.

(** A first non-blank code unit [$] decides for [shell]. *)
Lemma detectLanguage_prompt code :
  startsWith (trim code) (js "$") = true -> detectLanguage code = js "shell".
Proof.
  intros H. unfold detectLanguage. cbv zeta.
  destruct (trim code) as [|c t]; [discriminate|].
  change (js "$") with [36%N] in *. cbn [startsWith] in H.
  apply andb_true_iff in H. destruct H as [H _]. apply N.eqb_eq in H. subst c.
  cbn [firstSegment N.eqb Pos.eqb]. rewrite trim_cons by reflexivity.
  match goal with
  | |- (if startsWith ?a ?b || _ then _ else _) = _ =>
      assert (S1 : startsWith a b = true)
  end.
  { cbn [startsWith]. rewrite N.eqb_refl.
    destruct (trimEnd (firstSegment t)); reflexivity. }
  rewrite S1. reflexivity.
Qed.

Lemma firstSegment_head s :
  match s with c :: _ => is_word c = false | [] => True end ->
  match firstSegment s with c :: _ => is_word c = false | [] => True end.
Proof.
  destruct s as [|c t]; [auto|]. cbn [firstSegment].
  destruct (c =? 10)%N; auto.
Qed.

Lemma trimEnd_head_word s :
  match s with c :: _ => is_word c = false | [] => True end ->
  match trimEnd s with c :: _ => is_word c = false | [] => True end.
Proof.
  intros H. destruct (trimEnd_prefix s) as (v & Hv & _).
  destruct (trimEnd s) as [|c t]; [exact I|].
  rewrite Hv in H. exact H.
Qed.

Lemma test_shell l :
  test false re_shell l =
  match exec false re_shell [] l with Some _ => true | None => false end.
Proof. apply test_anchored. Qed.

Lemma test_javascript l :
  test false re_javascript l =
  match exec false re_javascript [] l with Some _ => true | None => false end.
Proof. apply test_anchored. Qed.

Ltac shared_keyword Hp :=
  match goal with
  | |- (if startsWith ?l ?d || test false re_shell ?l then _ else _) = _ =>
      assert (S1 : startsWith l d = false) by reflexivity;
      assert (S2 : exec false re_shell [] l = None) by reflexivity;
      assert (S3 : exec false re_javascript [] l <> None)
        by (unfold exec, re_javascript, keyword; cbn; rewrite Hp; discriminate);
      rewrite S1, test_shell, S2, test_javascript;
      cbn [orb];
      destruct (exec false re_javascript [] l); [reflexivity | contradiction]
  end.

(** The keywords [import] and [class], listed for JavaScript and for
    Python, always decide for JavaScript, which is tested first. *)
Lemma detectLanguage_shared_keyword code kw rest :
  kw = js "import" \/ kw = js "class" ->
  trim code = kw ++ rest ->
  match rest with c :: _ => is_word c = false | [] => True end ->
  detectLanguage code = js "javascript".
Proof.
  intros Hkw Htrim Hrest. unfold detectLanguage. cbv zeta. rewrite Htrim.
  pose proof (trimEnd_head_word _ (firstSegment_head _ Hrest)) as Hp.
  destruct Hkw; subst kw.
  - change (js "import") with [105; 109; 112; 111; 114; 116]%N.
    cbn [app firstSegment N.eqb Pos.eqb].
    rewrite trim_cons by reflexivity. rewrite !trimEnd_cons by reflexivity.
    destruct (trimEnd (firstSegment rest)) as [|c p].
    + vm_compute. reflexivity.
    + shared_keyword Hp.
  - change (js "class") with [99; 108; 97; 115; 115]%N.
    cbn [app firstSegment N.eqb Pos.eqb].
    rewrite trim_cons by reflexivity. rewrite !trimEnd_cons by reflexivity.
    destruct (trimEnd (firstSegment rest)) as [|c p].
    + vm_compute. reflexivity.
    + shared_keyword Hp.
Qed.

Lemma trim_nil_iff s : trim s = [] <-> forallb is_space s = true.
Proof.
  split.
  - intros H. unfold trim, trimEnd in H.
    assert (E : trimStart (rev (trimStart s)) = []).
    { destruct (trimStart (rev (trimStart s))); [reflexivity|].
      apply (f_equal (@length char)) in H. rewrite length_rev in H.
      discriminate. }
    apply trimStart_nil_inv in E. rewrite forallb_rev in E.
    pose proof (trimStart_head s) as Hd.
    destruct (trimStart s) as [|c t] eqn:T; [apply trimStart_nil_inv, T|].
    cbn [forallb] in E. rewrite Hd in E. discriminate.
  - intros H. unfold trim. rewrite trimStart_all_space by exact H. reflexivity.
Qed.

(** The labels [html], [json] and [css] are given to bracketed or braced
    code only. *)
Lemma detectLanguage_brackets code :
  (detectLanguage code = js "html" ->
   startsWith (trim code) (js "<") = true /\ endsWith (trim code) (js ">") = true) /\
  (detectLanguage code = js "json" ->
   startsWith (trim code) (js "{") = true /\ endsWith (trim code) (js "}") = true) /\
  (detectLanguage code = js "css" ->
   includes (trim code) (js "{") = true).
Proof.
  unfold detectLanguage. cbv zeta.
  destruct (trim code) as [|c t].
  { (split; [|split]); intros H; vm_compute in H; discriminate. }
  set (trimmed := c :: t). set (firstLine := trim (firstSegment trimmed)).
  destruct (startsWith firstLine (js "$") || test false re_shell firstLine).
  { (split; [|split]); intros H; vm_compute in H; discriminate. }
  destruct (test false re_javascript firstLine || includes trimmed (js "console.log")
            || includes trimmed (js "=>")
            || includes trimmed (js "document.getElementById")).
  { (split; [|split]); intros H; vm_compute in H; discriminate. }
  destruct (test false re_python firstLine
            || includes firstLine (js ":") && negb (includes firstLine (js "{"))
               && negb (includes firstLine (js ";"))).
  { (split; [|split]); intros H; vm_compute in H; discriminate. }
  destruct (startsWith trimmed (js "<") && endsWith trimmed (js ">")) eqn:E1.
  { apply andb_true_iff in E1.
    (split; [|split]); intros H; try exact E1; vm_compute in H; discriminate. }
  destruct (startsWith trimmed (js "{") && endsWith trimmed (js "}")) eqn:E2.
  { apply andb_true_iff in E2.
    (split; [|split]); intros H; try exact E2; vm_compute in H; discriminate. }
  destruct (includes trimmed (js "{") && test false re_css firstLine) eqn:E3.
  { apply andb_true_iff in E3.
    (split; [|split]); intros H; try apply E3; vm_compute in H; discriminate. }
  (split; [|split]); intros H; vm_compute in H; discriminate.
Qed.

End Detect.

(** * The language annotation of a class *)

Module LanguageClass.

(** A run before a continuation that always succeeds: the longest run. *)
Lemma star_chr_total p (f : mstate -> mstate) : forall rs pv n cs,
  star_chr p (fun s => Some (f s)) pv rs n cs =
  Some (f (MState (rev (fst (span p rs)) ++ pv) (snd (span p rs))
                  (length (fst (span p rs)) + n)%nat cs)).
Proof.
  induction rs as [|c t IH]; intros pv n cs; simpl; [reflexivity|].
  destruct (p c); simpl; [|reflexivity].
  rewrite IH, <- app_assoc. simpl. do 3 f_equal. lia.
Qed.

Lemma interp_word_group pv rs n :
  interp false (Grp 1 (Plus (Chr is_word))) Some (MState pv rs n []) =
  match rs with
  | c :: t =>
      if is_word c
      then Some (MState (rev (c :: fst (span is_word t)) ++ pv)
                        (snd (span is_word t))
                        (length (c :: fst (span is_word t)) + n)
                        [(1, c :: fst (span is_word t))])
      else None
  | [] => None
  end.
Proof.
  rewrite interp_Grp. unfold Plus. rewrite interp_Seq.
  destruct rs as [|c t]; [reflexivity|]. rewrite interp_Chr.
  destruct (is_word c); [|reflexivity].
  rewrite interp_star_chr.
  rewrite (star_chr_total is_word
             (fun s' => MState (prev s') (rest s') (pos s')
                          ((1, captured (MState pv (c :: t) n []) s') :: caps s'))).
  cbn [prev rest pos caps]. unfold captured. cbn [prev pos].
  f_equal. f_equal.
  - cbn [rev]. rewrite <- app_assoc. reflexivity.
  - cbn [length]. lia.
  - f_equal. f_equal.
    apply (Indent.captured_chunk _ pv).
    + cbn [rev]. rewrite <- app_assoc. reflexivity.
    + cbn [length]. lia.
Qed.

Lemma interp_language_prefix p before s :
  interp false (Seq (lit p) (Grp 1 (Plus (Chr is_word)))) Some
         (MState before s 0 []) =
  match language_word p s with
  | Some (w, r) =>
      Some (MState (rev w ++ rev p ++ before) r (length p + length w)
                   [(1, w)])
  | None => None
  end.
Proof.
  rewrite interp_Seq, Indent.interp_lit. unfold language_word.
  destruct (startsWith s p); [|reflexivity].
  rewrite interp_word_group.
  destruct (skipn (length p) s) as [|c t]; [reflexivity|].
  destruct (is_word c); [|reflexivity].
  f_equal. f_equal. lia.
Qed.

(** [/(?:language-|lang-)(\w+)/] at one position. *)
Lemma exec_language before s :
  exec false re_language before s =
  match language_view s with
  | Some (p, w, r) =>
      Some (MState (rev w ++ rev p ++ before) r (length p + length w)
                   [(1, w)])
  | None => None
  end.
Proof.
  unfold exec, re_language, language_view.
  change (interp false (Seq (Alt (lit (js "language-")) (lit (js "lang-")))
                            (Grp 1 (Plus (Chr is_word)))) Some
                 (MState before s 0 []))
    with (match interp false (Seq (lit (js "language-"))
                                  (Grp 1 (Plus (Chr is_word)))) Some
                       (MState before s 0 []) with
          | Some x => Some x
          | None => interp false (Seq (lit (js "lang-"))
                                      (Grp 1 (Plus (Chr is_word)))) Some
                           (MState before s 0 [])
          end).
  rewrite !interp_language_prefix.
  destruct (language_word (js "language-") s) as [[w r]|]; [reflexivity|].
  destruct (language_word (js "lang-") s) as [[w r]|]; reflexivity.
Qed.


Lemma search_app ml r u : forall before s,
  exec ml r (rev u ++ before) s <> None -> search ml r before (u ++ s) <> None.
Proof.
  induction u as [|c u IH]; intros before s H.
  - cbn [rev app] in *. destruct (exec ml r before s) as [m|] eqn:E;
      [|contradiction]. rewrite (Headings.search_hit _ _ _ _ _ E). discriminate.
  - cbn [app search]. destruct (exec ml r before (c :: u ++ s)); [discriminate|].
    apply IH. cbn [rev] in H. rewrite <- app_assoc in H. exact H.
Qed.

Lemma search_inv ml r s : forall before m,
  search ml r before s = Some m ->
  exists u v, s = u ++ v /\ exec ml r (rev u ++ before) v = Some m.
Proof.
  induction s as [|c t IH]; intros before m H; cbn [search] in H.
  - exists [], []. split; [reflexivity|].
    cbn [rev app]. destruct (exec ml r before []); [exact H | discriminate].
  - destruct (exec ml r before (c :: t)) as [x|] eqn:E.
    + exists [], (c :: t). split; [reflexivity|]. rewrite <- H. exact E.
    + destruct (IH _ _ H) as (u & v & -> & Hv).
      exists (c :: u), v. split; [reflexivity|].
      cbn [rev]. rewrite <- app_assoc. exact Hv.
Qed.

(** A class that holds [language-] followed by a word character is
    recognised. *)
Lemma test_language_contains u c t :
  is_word c = true ->
  test false re_language (u ++ js "language-" ++ c :: t) = true.
Proof.
  intros Hc. unfold test, match_first.
  destruct (search false re_language [] (u ++ js "language-" ++ c :: t)) eqn:E;
    [reflexivity|].
  exfalso. revert E. apply search_app. rewrite exec_language.
  unfold language_view, language_word.
  assert (S1 : startsWith (js "language-" ++ c :: t) (js "language-") = true)
    by reflexivity.
  rewrite S1.
  change (skipn (length (js "language-")) (js "language-" ++ c :: t))
    with (c :: t).
  cbv beta iota. rewrite Hc. discriminate.
Qed.

Lemma join_space_contains l x :
  In x l -> exists u v, join_space l = u ++ x ++ v.
Proof.
  induction l as [|y l IH]; intros H; [contradiction|].
  destruct H as [->|H].
  - destruct l as [|z l].
    + exists [], []. cbn [join_space app]. rewrite app_nil_r. reflexivity.
    + exists [], (32%N :: join_space (z :: l)). reflexivity.
  - destruct (IH H) as (u & v & E). destruct l as [|z l]; [contradiction|].
    exists (y ++ 32%N :: u), v.
    change (join_space (y :: z :: l)) with (y ++ 32%N :: join_space (z :: l)).
    rewrite E, <- app_assoc. reflexivity.
Qed.

Lemma existsb_eqs x l : existsb (eqs x) l = true -> In x l.
Proof.
  intros H. apply existsb_exists in H. destruct H as (y & Hy & E).
  apply Ordered.eqs_eq in E. subst y. exact Hy.
Qed.

(** [classList.add] leaves the token in the class. *)
Lemma classListAdd_contains cls tok :
  exists u v, classListAdd cls tok = u ++ tok ++ v.
Proof.
  unfold classListAdd. cbv zeta. apply join_space_contains.
  destruct (existsb (eqs tok) _) eqn:E.
  - apply existsb_eqs, E.
  - apply in_or_app. right. left. reflexivity.
Qed.

Lemma languages_words l :
  In l languages -> l <> [] /\ forallb is_word l = true.
Proof.
  intros H.
  assert (F : forallb (fun l => match l with [] => false | _ => forallb is_word l end)
                      languages = true) by (vm_compute; reflexivity).
  rewrite forallb_forall in F. specialize (F l H).
  destruct l; [discriminate|]. split; [discriminate | exact F].
Qed.

Lemma languages_word l :
  In l languages -> exists c t, l = c :: t /\ is_word c = true.
Proof.
  intros H. destruct (languages_words l H) as [Hne Hw].
  destruct l as [|c t]; [contradiction|]. exists c, t. split; [reflexivity|].
  cbn [forallb] in Hw. apply andb_true_iff in Hw. apply Hw.
Qed.

(** After the body of the loop over the code blocks has run, the class
    found on the element or on its parent names a language. *)
Lemma tagged_class_annotated pc cls text :
  test false re_language (existingClass pc (tagged_class pc cls text)) = true.
Proof.
  unfold tagged_class.
  destruct (test false re_language (existingClass pc cls)) eqn:E; [exact E|].
  destruct (languages_word _ (Detect.detectLanguage_codomain text))
    as (c & t & El & Hc).
  rewrite El.
  destruct (classListAdd_contains cls (js "language-" ++ c :: t))
    as (u & v & Eu).
  rewrite Eu.
  assert (N : existingClass pc (u ++ (js "language-" ++ c :: t) ++ v)
              = u ++ (js "language-" ++ c :: t) ++ v).
  { destruct u; reflexivity. }
  rewrite N. rewrite <- !app_assoc.
  apply (test_language_contains u c (t ++ v) Hc).
Qed.

Lemma tagged_class_idem pc cls text text' :
  tagged_class pc (tagged_class pc cls text) text' = tagged_class pc cls text.
Proof.
  pose proof (tagged_class_annotated pc cls text) as H.
  unfold tagged_class at 1. rewrite H. reflexivity.
Qed.

(** With a parent element the class is always computed. *)
Lemma taggedClass_parent pc cls text :
  taggedClass (Some pc) cls text = Some (tagged_class pc cls text).
Proof.
  unfold taggedClass, tagged_class, existingClass. cbv zeta.
  destruct cls; reflexivity.
Qed.

(** Without one it is computed for an element that has a class of its
    own, and reading the class of the parent throws otherwise. *)
Lemma taggedClass_orphan cls text :
  taggedClass None cls text =
  match cls with
  | [] => None
  | _ :: _ => Some (tagged_class [] cls text)
  end.
Proof.
  unfold taggedClass, tagged_class, existingClass. cbv zeta.
  destruct cls; reflexivity.
Qed.

End LanguageClass.

(** * The clean-up of the parsed document *)

Module Tree.

(** Induction on trees: the children of an element satisfy the property. *)
Lemma node_induction (P : node -> Prop) :
  (forall d, P (Text d)) ->
  (forall d, P (Comment d)) ->
  (forall tag cls attrs ch, Forall P ch -> P (Element tag cls attrs ch)) ->
  forall n, P n.
Proof.
  intros HT HC HE. fix IH 1. intros [d|d|tag cls attrs ch].
  - apply HT.
  - apply HC.
  - apply HE. induction ch as [|c ch IHch]; constructor; [apply IH | exact IHch].
Qed.

Lemma textContent_Element tag cls attrs ch :
  textContent (Element tag cls attrs ch) = concat (map textContent ch).
Proof.
  cbn [textContent]. induction ch as [|c ch IH]; [reflexivity|].
  cbn [map concat]. rewrite <- IH. reflexivity.
Qed.

Lemma unwrap_Element tag cls attrs ch :
  unwrapListParagraphs (Element tag cls attrs ch) =
  Element tag cls attrs (flat_map (unwrapChild tag) ch).
Proof.
  cbn [unwrapListParagraphs]. f_equal.
Qed.

Lemma tagged_Element inPre pc tag cls attrs ch :
  tagged inPre pc (Element tag cls attrs ch) =
  if inPre && eqs tag (js "code") then
    Element tag
      (tagged_class pc cls (trimmedText (Element tag cls attrs ch))) attrs
      match textContent (Element tag cls attrs ch) with
      | [] =>
          map (tagged true
                 (tagged_class pc cls (trimmedText (Element tag cls attrs ch))))
              ch
      | _ :: _ =>
          match trim (textContent (Element tag cls attrs ch)) with
          | [] => []
          | t => [Text t]
          end
      end
  else
    Element tag cls attrs
      (map (tagged (inPre || eqs tag (js "pre")) cls) ch).
Proof. reflexivity. Qed.

Lemma tagCodeBlocks_Element inPre parent tag cls attrs ch :
  tagCodeBlocks inPre parent (Element tag cls attrs ch) =
  if inPre && eqs tag (js "code") then
    match taggedClass parent cls (trimmedText (Element tag cls attrs ch)) with
    | None => None
    | Some cls' =>
        match textContent (Element tag cls attrs ch) with
        | [] =>
            match sequence (map (tagCodeBlocks true (Some cls')) ch) with
            | Some ch' => Some (Element tag cls' attrs ch')
            | None => None
            end
        | _ :: _ =>
            match sequence (map (tagCodeBlocks true None) ch) with
            | Some _ =>
                Some (Element tag cls' attrs
                        match trim (textContent (Element tag cls attrs ch)) with
                        | [] => []
                        | t => [Text t]
                        end)
            | None => None
            end
        end
    end
  else
    match sequence
            (map (tagCodeBlocks (inPre || eqs tag (js "pre")) (Some cls)) ch) with
    | Some ch' => Some (Element tag cls attrs ch')
    | None => None
    end.
Proof. reflexivity. Qed.

Lemma orphans_code_Element inPre tag cls attrs ch :
  orphans_code inPre (Element tag cls attrs ch) =
  (inPre && eqs tag (js "code")
   && match textContent (Element tag cls attrs ch) with
      | [] => false
      | _ :: _ => true
      end
   && existsb bare_code ch)
  || existsb (orphans_code (inPre || eqs tag (js "pre"))) ch.
Proof. reflexivity. Qed.


(** *** Unwrapping the paragraphs of list items *)

Lemma unwrap_leaf n :
  match n with Element _ _ _ _ => False | _ => True end ->
  unwrapListParagraphs n = n.
Proof. destruct n; [reflexivity | reflexivity | contradiction]. Qed.

Lemma unwrapChild_other tag ch :
  eqs tag (js "li") = false ->
  flat_map (unwrapChild tag) ch = map unwrapListParagraphs ch.
Proof.
  intros H. induction ch as [|c ch IH]; [reflexivity|].
  cbn [flat_map map]. rewrite IH.
  destruct c as [d|d|ctag ccls cattrs cch]; try reflexivity.
  unfold unwrapChild. rewrite H. reflexivity.
Qed.

Lemma eqs_refl a : eqs a a = true.
Proof. induction a as [|x a IH]; [reflexivity|]. cbn [eqs]. rewrite N.eqb_refl. exact IH. Qed.

Lemma p_not_li tag : eqs tag (js "p") = true -> eqs tag (js "li") = false.
Proof. intros H. apply Ordered.eqs_eq in H. subst tag. reflexivity. Qed.

Lemma concat_flat_map {A B} (f : A -> list (list B)) l :
  concat (flat_map f l) = concat (map (fun x => concat (f x)) l).
Proof.
  induction l as [|a l IH]; [reflexivity|].
  cbn [flat_map map concat]. rewrite concat_app, IH. reflexivity.
Qed.

Lemma unwrapChild_textContent tag c :
  textContent (unwrapListParagraphs c) = textContent c ->
  concat (map textContent (unwrapChild tag c)) = textContent c.
Proof.
  intros H. destruct c as [d|d|ctag ccls cattrs cch];
    try (cbn [unwrapChild map concat]; apply app_nil_r).
  unfold unwrapChild.
  destruct (eqs tag (js "li") && eqs ctag (js "p")) eqn:E.
  - apply andb_true_iff in E. destruct E as [_ E].
    rewrite unwrap_Element, !textContent_Element in H.
    rewrite unwrapChild_other in H by (apply p_not_li, E).
    rewrite textContent_Element. exact H.
  - cbn [map concat]. rewrite H. apply app_nil_r.
Qed.

(** Unwrapping moves nodes and keeps the text of the document. *)
Lemma unwrap_textContent n : textContent (unwrapListParagraphs n) = textContent n.
Proof.
  induction n as [d|d|tag cls attrs ch IH] using node_induction;
    [reflexivity | reflexivity |].
  rewrite unwrap_Element, !textContent_Element.
  induction IH as [|c ch Hc _ IHch]; [reflexivity|].
  cbn [flat_map map concat]. rewrite map_app, concat_app, IHch.
  rewrite (unwrapChild_textContent tag c Hc). reflexivity.
Qed.

(** A tree without a paragraph inside a list item is left as it is. *)
Lemma unwrap_fixed n : has_li_p n = false -> unwrapListParagraphs n = n.
Proof.
  induction n as [d|d|tag cls attrs ch IH] using node_induction;
    [reflexivity | reflexivity |].
  cbn [has_li_p]. intros H. apply orb_false_iff in H. destruct H as [H1 H2].
  rewrite unwrap_Element. f_equal.
  induction IH as [|c ch Hc _ IHch]; [reflexivity|].
  cbn [existsb] in H1, H2. apply orb_false_iff in H2. destruct H2 as [H2 H3].
  cbn [flat_map]. rewrite IHch.
  - destruct c as [d|d|ctag ccls cattrs cch]; try reflexivity.
    unfold unwrapChild.
    destruct (eqs tag (js "li")); cbn [andb] in *.
    + apply orb_false_iff in H1. destruct H1 as [H1 _].
      cbn [is_element] in H1. rewrite H1. rewrite (Hc H2). reflexivity.
    + rewrite (Hc H2). reflexivity.
  - destruct (eqs tag (js "li")); cbn [andb] in *; [|reflexivity].
    apply orb_false_iff in H1. apply H1.
  - exact H3.
Qed.

Lemma unwrap_tag n tag :
  is_element tag (unwrapListParagraphs n) = is_element tag n.
Proof. destruct n; reflexivity. Qed.


Lemma existsb_map {A B} (p : B -> bool) (f : A -> B) l :
  existsb p (map f l) = existsb (fun x => p (f x)) l.
Proof. induction l as [|a l IH]; [reflexivity|]. cbn [map existsb]. rewrite IH. reflexivity. Qed.

Lemma existsb_flat_map {A B} (p : B -> bool) (f : A -> list B) l :
  existsb p (flat_map f l) = existsb (fun x => existsb p (f x)) l.
Proof.
  induction l as [|a l IH]; [reflexivity|].
  cbn [flat_map existsb]. rewrite existsb_app, IH. reflexivity.
Qed.

Lemma existsb_same {A} (p q : A -> bool) l :
  (forall x, p x = q x) -> existsb p l = existsb q l.
Proof.
  intros H. induction l as [|a l IH]; [reflexivity|].
  cbn [existsb]. rewrite H, IH. reflexivity.
Qed.

Lemma existsb_false {A} (p : A -> bool) l :
  Forall (fun x => p x = false) l -> existsb p l = false.
Proof.
  induction 1 as [|a l Ha _ IH]; [reflexivity|]. cbn [existsb]. rewrite Ha, IH. reflexivity.
Qed.

Lemma existsb_false_inv {A} (p : A -> bool) l :
  existsb p l = false -> Forall (fun x => p x = false) l.
Proof.
  induction l as [|a l IH]; intros H; constructor; cbn [existsb] in H;
    apply orb_false_iff in H; [apply H | apply IH, H].
Qed.

Lemma unwrapChild_no_li_p tag c :
  (has_p_p c = false -> has_li_p (unwrapListParagraphs c) = false) ->
  has_p_p c = false ->
  existsb has_li_p (unwrapChild tag c) = false.
Proof.
  intros IH H. destruct c as [d|d|ctag ccls cattrs cch]; try reflexivity.
  specialize (IH H). unfold unwrapChild.
  destruct (eqs tag (js "li") && eqs ctag (js "p")) eqn:E.
  - apply andb_true_iff in E. destruct E as [_ E].
    rewrite unwrap_Element in IH. cbn [has_li_p] in IH.
    apply orb_false_iff in IH. destruct IH as [_ IH].
    rewrite unwrapChild_other in IH by (apply p_not_li, E). exact IH.
  - cbn [existsb]. rewrite IH. reflexivity.
Qed.

Lemma unwrapChild_no_p c :
  has_p_p c = false ->
  existsb (is_element (js "p")) (unwrapChild (js "li") c) = false.
Proof.
  intros H. destruct c as [d|d|ctag ccls cattrs cch]; try reflexivity.
  unfold unwrapChild. cbn [has_p_p] in H. apply orb_false_iff in H.
  destruct H as [H _].
  rewrite eqs_refl. cbn [andb]. destruct (eqs ctag (js "p")) eqn:E.
  - cbn [andb] in H. rewrite existsb_map.
    rewrite (existsb_same _ (is_element (js "p"))); [exact H|].
    intros x. apply unwrap_tag.
  - cbn [existsb]. rewrite unwrap_tag. cbn [is_element]. rewrite E. reflexivity.
Qed.

(** Once the paragraphs are unwrapped no list item has a paragraph as a
    child, provided no paragraph was the child of a paragraph. *)
Lemma unwrap_no_li_p n :
  has_p_p n = false -> has_li_p (unwrapListParagraphs n) = false.
Proof.
  induction n as [d|d|tag cls attrs ch IH] using node_induction;
    [reflexivity | reflexivity |].
  intros H. cbn [has_p_p] in H. apply orb_false_iff in H. destruct H as [_ H].
  apply existsb_false_inv in H.
  rewrite unwrap_Element. cbn [has_li_p]. apply orb_false_iff. split.
  - destruct (eqs tag (js "li")) eqn:E; [|reflexivity]. cbn [andb].
    apply Ordered.eqs_eq in E. subst tag.
    rewrite existsb_flat_map. apply existsb_false.
    rewrite Forall_forall in *. intros c Hc. apply unwrapChild_no_p, H, Hc.
  - rewrite existsb_flat_map. apply existsb_false.
    rewrite Forall_forall in *. intros c Hc.
    apply unwrapChild_no_li_p; [apply IH, Hc | apply H, Hc].
Qed.

End Tree.

Module CodeBlocks.
Import Tree LanguageClass.

(** A tree without [pre] is left as it is. *)
Lemma tagged_fixed n : forall pc,
  has_pre n = false -> tagged false pc n = n.
Proof.
  induction n as [d|d|tag cls attrs ch IH] using node_induction;
    intros pc H; [reflexivity | reflexivity |].
  cbn [has_pre] in H. apply orb_false_iff in H. destruct H as [H1 H2].
  rewrite tagged_Element. cbn [andb orb]. rewrite H1. f_equal.
  apply existsb_false_inv in H2.
  induction IH as [|c ch Hc _ IHch]; [reflexivity|].
  inversion H2; subst. cbn [map]. rewrite Hc by assumption.
  rewrite IHch by assumption. reflexivity.
Qed.

Lemma concat_nil_inv {A} (l : list (list A)) :
  concat l = [] -> Forall (fun x => x = []) l.
Proof.
  induction l as [|a l IH]; intros H; constructor; cbn [concat] in H;
    apply app_eq_nil in H; [apply H | apply IH, H].
Qed.

Lemma concat_nil {A} (l : list (list A)) :
  Forall (fun x => x = []) l -> concat l = [].
Proof. induction 1 as [|a l Ha _ IH]; [reflexivity|]. cbn [concat]. rewrite Ha, IH. reflexivity. Qed.

Lemma no_text_children ch :
  Forall (fun n => forall inPre pc,
            textContent n = [] -> textContent (tagged inPre pc n) = []) ch ->
  concat (map textContent ch) = [] ->
  forall b c, concat (map textContent (map (tagged b c) ch)) = [].
Proof.
  induction 1 as [|x ch Hx _ IH]; intros H b c; [reflexivity|].
  cbn [map concat] in *. apply app_eq_nil in H. destruct H as [H1 H2].
  rewrite (Hx b c H1), (IH H2 b c). reflexivity.
Qed.

(** A tree without text stays without text. *)
Lemma tagged_no_text n : forall inPre pc,
  textContent n = [] -> textContent (tagged inPre pc n) = [].
Proof.
  induction n as [d|d|tag cls attrs ch IH] using node_induction;
    intros inPre pc H; [exact H | reflexivity |].
  rewrite tagged_Element. rewrite H.
  rewrite textContent_Element in H.
  destruct (inPre && eqs tag (js "code"));
    rewrite textContent_Element; apply (no_text_children ch IH H).
Qed.

Lemma trimmedText_nil n : textContent n = [] -> trimmedText n = [].
Proof. unfold trimmedText. intros ->. reflexivity. Qed.

(** A second pass over the code blocks changes nothing. *)
Lemma tagged_idem n : forall inPre pc,
  tagged inPre pc (tagged inPre pc n) = tagged inPre pc n.
Proof.
  induction n as [d|d|tag cls attrs ch IH] using node_induction;
    intros inPre pc; [reflexivity | reflexivity |].
  rewrite (tagged_Element inPre pc tag cls attrs ch).
  destruct (inPre && eqs tag (js "code")) eqn:B.
  - set (n := Element tag cls attrs ch).
    set (cls' := tagged_class pc cls (trimmedText n)).
    assert (Ecls : forall txt, tagged_class pc cls' txt = cls')
      by (intros; unfold cls'; apply tagged_class_idem).
    destruct (textContent n) as [|c t] eqn:E.
    + rewrite tagged_Element, B.
      assert (E' : textContent (Element tag cls' attrs (map (tagged true cls') ch)) = []).
      { rewrite textContent_Element. apply no_text_children.
        - rewrite Forall_forall. intros x _ b c. apply tagged_no_text.
        - rewrite <- textContent_Element with (tag := tag) (cls := cls) (attrs := attrs).
          exact E. }
      rewrite E', !Ecls. f_equal. rewrite map_map. apply map_ext_in. intros x Hx.
      rewrite Forall_forall in IH. apply IH, Hx.
    + destruct (trim (c :: t)) as [|x u] eqn:T.
      * rewrite tagged_Element, B.
        change (textContent (Element tag cls' attrs [])) with (@nil char).
        rewrite !Ecls. reflexivity.
      * rewrite tagged_Element, B.
        change (textContent (Element tag cls' attrs [Text (x :: u)]))
          with ((x :: u) ++ []).
        rewrite app_nil_r, !Ecls. rewrite <- T, trim_idem.
        rewrite T. reflexivity.
  - rewrite tagged_Element, B. f_equal.
    rewrite map_map. apply map_ext_in. intros x Hx.
    rewrite Forall_forall in IH. apply IH, Hx.
Qed.


Lemma eqs_same a b : a = b -> eqs a b = true.
Proof. intros ->. apply eqs_refl. Qed.

(** After the pass every code block names a language and holds trimmed
    text. *)
Lemma tagged_annotated n : forall inPre pc,
  annotated inPre pc (tagged inPre pc n) = true.
Proof.
  induction n as [d|d|tag cls attrs ch IH] using node_induction;
    intros inPre pc; [reflexivity | reflexivity |].
  rewrite Forall_forall in IH.
  rewrite (tagged_Element inPre pc tag cls attrs ch).
  destruct (inPre && eqs tag (js "code")) eqn:B.
  - set (n := Element tag cls attrs ch).
    set (cls' := tagged_class pc cls (trimmedText n)).
    assert (Hinpre : inPre = true) by (destruct inPre; [reflexivity | discriminate]).
    cbn [annotated]. rewrite B. unfold cls' at 1.
    rewrite tagged_class_annotated. fold cls'. cbn [andb].
    destruct (textContent n) as [|c t] eqn:E.
    + apply andb_true_iff. split.
      * apply eqs_same.
        assert (E' : textContent (Element tag cls' attrs (map (tagged true cls') ch)) = []).
        { rewrite textContent_Element. apply no_text_children.
          - rewrite Forall_forall. intros x _ b c. apply tagged_no_text.
          - rewrite <- textContent_Element with (tag := tag) (cls := cls) (attrs := attrs).
            exact E. }
        rewrite E'. reflexivity.
      * rewrite forallb_forall. intros x Hx. apply in_map_iff in Hx.
        destruct Hx as (y & <- & Hy). subst inPre. cbn [orb]. apply IH, Hy.
    + destruct (trim (c :: t)) as [|x u] eqn:T.
      * reflexivity.
      * apply andb_true_iff. split; [|reflexivity].
        change (textContent (Element tag cls' attrs [Text (x :: u)]))
          with ((x :: u) ++ []).
        rewrite app_nil_r. apply eqs_same. rewrite <- T. apply trim_idem.
  - cbn [annotated]. rewrite B. cbn [andb].
    rewrite forallb_forall. intros x Hx. apply in_map_iff in Hx.
    destruct Hx as (y & <- & Hy). apply IH, Hy.
Qed.

(** *** When the pass throws *)

Lemma sequence_map {A B} (f : A -> option B) (g : A -> bool) (h : A -> B) l :
  Forall (fun a => f a = if g a then None else Some (h a)) l ->
  sequence (map f l) = if existsb g l then None else Some (map h l).
Proof.
  induction 1 as [|a l Ha _ IH]; [reflexivity|].
  cbn [map sequence existsb]. rewrite Ha. destruct (g a); [reflexivity|].
  cbn [orb]. rewrite IH. destruct (existsb g l); reflexivity.
Qed.

Lemma existsb_orb {A} (p q : A -> bool) l :
  existsb (fun x => p x || q x) l = existsb p l || existsb q l.
Proof.
  induction l as [|a l IH]; [reflexivity|]. cbn [existsb]. rewrite IH.
  destruct (p a), (q a), (existsb p l), (existsb q l); reflexivity.
Qed.

Lemma bare_code_is_code inPre tag cls attrs ch :
  inPre && eqs tag (js "code") = false ->
  inPre && bare_code (Element tag cls attrs ch) = false.
Proof.
  intros H. destruct cls; [exact H|]. cbn [bare_code]. apply andb_false_r.
Qed.

(** The pass throws exactly when it visits a [code] element that has lost
    its parent and has no class, and it returns the tagged tree
    otherwise. *)
Lemma tagCodeBlocks_eq n : forall inPre parent,
  tagCodeBlocks inPre parent n =
  if (inPre && bare_code n
      && match parent with None => true | Some _ => false end)
     || orphans_code inPre n
  then None
  else Some (tagged inPre match parent with Some pc => pc | None => [] end n).
Proof.
  induction n as [d|d|tag cls attrs ch IH] using node_induction;
    intros inPre parent;
    [cbn; rewrite andb_false_r; reflexivity
    |cbn; rewrite andb_false_r; reflexivity|].
  rewrite tagCodeBlocks_Element, tagged_Element, orphans_code_Element.
  destruct (inPre && eqs tag (js "code")) eqn:B.
  - apply andb_true_iff in B. destruct B as [-> B]. cbn [andb orb].
    assert (Kids : forall pc,
              sequence (map (tagCodeBlocks true (Some pc)) ch) =
              if existsb (orphans_code true) ch then None
              else Some (map (tagged true pc) ch)).
    { intros pc. apply sequence_map. rewrite Forall_forall in *.
      intros c Hc. rewrite (IH c Hc). cbn [andb]. rewrite andb_false_r.
      reflexivity. }
    assert (Lost :
              sequence (map (tagCodeBlocks true None) ch) =
              if existsb bare_code ch || existsb (orphans_code true) ch
              then None else Some (map (tagged true []) ch)).
    { rewrite <- existsb_orb. apply sequence_map. rewrite Forall_forall in *.
      intros c Hc. rewrite (IH c Hc). cbn [andb]. rewrite andb_true_r.
      reflexivity. }
    destruct parent as [pc|].
    + rewrite andb_false_r. cbn [orb].
      rewrite LanguageClass.taggedClass_parent.
      destruct (textContent (Element tag cls attrs ch)) as [|x u].
      * rewrite Kids. cbn [andb orb].
        destruct (existsb (orphans_code true) ch); reflexivity.
      * rewrite Lost. cbn [andb].
        destruct (existsb bare_code ch || existsb (orphans_code true) ch);
          reflexivity.
    + rewrite andb_true_r, LanguageClass.taggedClass_orphan.
      destruct cls as [|k cls].
      * cbn [bare_code]. rewrite B. reflexivity.
      * cbn [bare_code orb].
        destruct (textContent (Element tag (k :: cls) attrs ch)) as [|x u].
        -- rewrite Kids. cbn [andb orb].
           destruct (existsb (orphans_code true) ch); reflexivity.
        -- rewrite Lost. cbn [andb].
           destruct (existsb bare_code ch || existsb (orphans_code true) ch);
             reflexivity.
  - rewrite (bare_code_is_code inPre tag cls attrs ch B). cbn [andb orb].
    rewrite (sequence_map _ (orphans_code (inPre || eqs tag (js "pre")))
               (tagged (inPre || eqs tag (js "pre")) cls)).
    + destruct (existsb _ ch); reflexivity.
    + rewrite Forall_forall in *. intros c Hc. rewrite (IH c Hc).
      rewrite andb_false_r. reflexivity.
Qed.

(** What the pass returns gives it no reason to throw. *)
Lemma tagged_no_orphans n : forall inPre pc,
  orphans_code inPre (tagged inPre pc n) = false.
Proof.
  induction n as [d|d|tag cls attrs ch IH] using node_induction;
    intros inPre pc; [reflexivity | reflexivity |].
  rewrite Forall_forall in IH. rewrite tagged_Element.
  assert (K : forall b c,
            existsb (orphans_code b) (map (tagged b c) ch) = false).
  { intros b c. rewrite existsb_map. apply existsb_false.
    rewrite Forall_forall. intros x Hx. apply IH, Hx. }
  destruct (inPre && eqs tag (js "code")) eqn:B.
  - apply andb_true_iff in B. destruct B as [-> B].
    set (cls' := tagged_class pc cls (trimmedText (Element tag cls attrs ch))).
    destruct (textContent (Element tag cls attrs ch)) as [|x u] eqn:E.
    + rewrite orphans_code_Element. cbn [orb andb]. rewrite K, orb_false_r.
      assert (E' : textContent
                     (Element tag cls' attrs (map (tagged true cls') ch)) = []).
      { rewrite textContent_Element. apply no_text_children.
        - rewrite Forall_forall. intros y _ b c. apply tagged_no_text.
        - rewrite <- textContent_Element
            with (tag := tag) (cls := cls) (attrs := attrs). exact E. }
      rewrite E'. rewrite andb_false_r. reflexivity.
    + rewrite orphans_code_Element.
      destruct (trim (x :: u)); cbn [existsb bare_code];
        rewrite ?andb_false_r; reflexivity.
  - rewrite orphans_code_Element, B, K. reflexivity.
Qed.

(** A tree without [pre] gives it none either. *)
Lemma no_pre_no_orphans n :
  has_pre n = false -> orphans_code false n = false.
Proof.
  induction n as [d|d|tag cls attrs ch IH] using node_induction;
    intros H; [reflexivity | reflexivity |].
  cbn [has_pre] in H. apply orb_false_iff in H. destruct H as [H1 H2].
  rewrite orphans_code_Element, H1. cbn [andb orb].
  apply existsb_false. apply existsb_false_inv in H2.
  rewrite Forall_forall in *. intros x Hx. apply IH; [exact Hx | apply H2, Hx].
Qed.

Lemma bare_code_unwrap n : bare_code (unwrapListParagraphs n) = bare_code n.
Proof. destruct n as [d|d|tag [|k cls] attrs ch]; reflexivity. Qed.

Lemma code_not_li tag : eqs tag (js "code") = true -> eqs tag (js "li") = false.
Proof. intros H. apply Ordered.eqs_eq in H. subst tag. reflexivity. Qed.

(** Unwrapping the paragraphs of list items neither gives nor takes a
    reason to throw. *)
Lemma orphans_code_unwrap n : forall inPre,
  orphans_code inPre (unwrapListParagraphs n) = orphans_code inPre n.
Proof.
  induction n as [d|d|tag cls attrs ch IH] using node_induction;
    intros inPre; [reflexivity | reflexivity |].
  rewrite unwrap_Element, !orphans_code_Element.
  rewrite <- (unwrap_Element tag cls attrs ch), unwrap_textContent.
  rewrite Forall_forall in IH. f_equal.
  - destruct (inPre && eqs tag (js "code")) eqn:B; [|reflexivity].
    apply andb_true_iff in B. destruct B as [_ B].
    rewrite (unwrapChild_other tag ch (code_not_li tag B)).
    rewrite existsb_map. f_equal.
    apply existsb_same. intros x. apply bare_code_unwrap.
  - rewrite existsb_flat_map.
    set (b := inPre || eqs tag (js "pre")).
    induction ch as [|c ch IHch]; [reflexivity|].
    cbn [existsb]. rewrite IHch by (intros x Hx; apply IH; right; exact Hx).
    f_equal.
    assert (Hc := IH c (or_introl eq_refl) b).
    destruct c as [d|d|ctag ccls cattrs cch]; try reflexivity.
    unfold unwrapChild.
    destruct (eqs tag (js "li") && eqs ctag (js "p")) eqn:E.
    + apply andb_true_iff in E. destruct E as [_ E].
      rewrite unwrap_Element, !orphans_code_Element in Hc.
      rewrite unwrapChild_other in Hc by (apply p_not_li, E).
      apply Ordered.eqs_eq in E. subst ctag.
      change (eqs (js "p") (js "code")) with false in Hc.
      change (eqs (js "p") (js "pre")) with false in Hc.
      rewrite !andb_false_r, !orb_false_r in Hc. cbn [orb] in Hc.
      rewrite orphans_code_Element.
      change (eqs (js "p") (js "code")) with false.
      change (eqs (js "p") (js "pre")) with false.
      rewrite !andb_false_r, !orb_false_r. cbn [orb]. exact Hc.
    + cbn [existsb]. rewrite orb_false_r. exact Hc.
Qed.

End CodeBlocks.

Module Cleanup.
Import Tree CodeBlocks.

Lemma tagged_tag tg n inPre pc :
  is_element tg (tagged inPre pc n) = is_element tg n.
Proof.
  destruct n as [d|d|tag cls attrs ch]; [reflexivity | reflexivity |].
  rewrite tagged_Element.
  destruct (inPre && eqs tag (js "code")); reflexivity.
Qed.

(** The pass over the code blocks puts no paragraph into a list item. *)
Lemma tagged_no_li_p n : forall inPre pc,
  has_li_p n = false -> has_li_p (tagged inPre pc n) = false.
Proof.
  induction n as [d|d|tag cls attrs ch IH] using node_induction;
    intros inPre pc H; [reflexivity | reflexivity |].
  cbn [has_li_p] in H. apply orb_false_iff in H. destruct H as [H1 H2].
  apply existsb_false_inv in H2. rewrite Forall_forall in IH, H2.
  assert (K : forall b c,
            has_li_p (Element tag c attrs (map (tagged b c) ch)) = false).
  { intros b c. cbn [has_li_p]. apply orb_false_iff. split.
    - rewrite existsb_map.
      rewrite (existsb_same _ (is_element (js "p")));
        [exact H1 | intros x; apply tagged_tag].
    - rewrite existsb_map. apply existsb_false. rewrite Forall_forall.
      intros x Hx. apply IH; [exact Hx | apply H2, Hx]. }
  rewrite tagged_Element.
  destruct (inPre && eqs tag (js "code")); [|apply K].
  destruct (textContent (Element tag cls attrs ch)); [apply K|].
  destruct (trim _); cbn [has_li_p existsb is_element];
    rewrite ?andb_false_r; reflexivity.
Qed.

(** The clean-up throws when a [code] element with text below a [pre] has
    a [code] child without a class, and returns the unwrapped and tagged
    trees otherwise. *)
Lemma cleanup_eq body :
  cleanup body =
  if existsb (orphans_code false) body then None
  else Some (map (fun n => tagged false [] (unwrapListParagraphs n)) body).
Proof.
  unfold cleanup. rewrite map_map.
  rewrite (sequence_map _ (orphans_code false)
             (fun n => tagged false [] (unwrapListParagraphs n)));
    [reflexivity|].
  rewrite Forall_forall. intros n _. rewrite tagCodeBlocks_eq.
  cbn [andb orb]. rewrite orphans_code_unwrap. reflexivity.
Qed.

Lemma cleanup_returns body out :
  cleanup body = Some out ->
  existsb (orphans_code false) body = false /\
  out = map (fun n => tagged false [] (unwrapListParagraphs n)) body.
Proof.
  rewrite cleanup_eq. destruct (existsb (orphans_code false) body);
    [discriminate|]. intros H. inversion H. auto.
Qed.


(** On a tree in which no paragraph is the child of a paragraph, as the
    parser builds them, a second clean-up returns what the first one
    returned. *)
Lemma cleanup_idem body out :
  forallb (fun n => negb (has_p_p n)) body = true ->
  cleanup body = Some out -> cleanup out = Some out.
Proof.
  intros H R. apply cleanup_returns in R. destruct R as [_ ->].
  rewrite cleanup_eq, existsb_map.
  rewrite (existsb_false (fun n => orphans_code false _))
    by (rewrite Forall_forall; intros n _; apply tagged_no_orphans).
  f_equal. rewrite map_map. apply map_ext_in. intros n Hn.
  rewrite forallb_forall in H. specialize (H n Hn). apply negb_true_iff in H.
  rewrite (unwrap_fixed (tagged false [] (unwrapListParagraphs n)))
    by (apply tagged_no_li_p, unwrap_no_li_p, H).
  apply tagged_idem.
Qed.

(** A tree without a paragraph in a list item and without [pre] is
    returned as it is. *)
Lemma cleanup_fixed body :
  forallb (fun n => negb (has_li_p n) && negb (has_pre n)) body = true ->
  cleanup body = Some body.
Proof.
  intros H. rewrite forallb_forall in H. rewrite cleanup_eq.
  rewrite existsb_false.
  - f_equal. rewrite <- (map_id body) at 2.
    apply map_ext_in. intros n Hn.
    specialize (H n Hn). apply andb_true_iff in H. destruct H as [H1 H2].
    apply negb_true_iff in H1, H2.
    rewrite unwrap_fixed by exact H1. apply tagged_fixed, H2.
  - rewrite Forall_forall. intros n Hn. specialize (H n Hn).
    apply andb_true_iff in H. destruct H as [_ H2].
    apply negb_true_iff in H2. apply no_pre_no_orphans, H2.
Qed.

Lemma cleanup_annotated body out :
  cleanup body = Some out -> forallb (annotated false []) out = true.
Proof.
  intros R. apply cleanup_returns in R. destruct R as [_ ->].
  rewrite forallb_forall. intros x Hx. apply in_map_iff in Hx.
  destruct Hx as (n & <- & _). apply tagged_annotated.
Qed.

(** An unannotated block with text: the class it receives and the text it
    keeps. *)
Lemma cleanup_pre_code preClass codeClass text :
  test false re_language (existingClass preClass codeClass) = false ->
  exists ch,
    cleanup [pre_code preClass codeClass text] =
      Some [Element (js "pre") preClass []
              [Element (js "code")
                 (classListAdd codeClass (js "language-" ++ detectLanguage text))
                 [] ch]] /\
    concat (map textContent ch) = trim text.
Proof.
  intros H. rewrite cleanup_eq.
  assert (O : existsb (orphans_code false) [pre_code preClass codeClass text]
              = false).
  { unfold pre_code. cbn [existsb]. rewrite !orphans_code_Element.
    cbn [existsb bare_code orphans_code andb orb].
    rewrite !andb_false_r. reflexivity. }
  rewrite O. unfold pre_code. cbn [map].
  rewrite unwrap_Element. cbn [flat_map unwrapChild].
  change (eqs (js "pre") (js "li")) with false. cbn [andb].
  rewrite unwrap_Element. cbn [flat_map unwrapChild app].
  rewrite tagged_Element. cbn [andb orb map].
  change (eqs (js "pre") (js "pre")) with true.
  rewrite tagged_Element.
  change (eqs (js "code") (js "code")) with true. cbn [andb].
  assert (T : textContent (Element (js "code") codeClass [] [Text text]) = text).
  { cbn [textContent]. apply app_nil_r. }
  assert (D : detectLanguage (trimmedText (Element (js "code") codeClass [] [Text text]))
              = detectLanguage text).
  { unfold trimmedText. rewrite T. destruct text as [|c t]; [reflexivity|].
    unfold detectLanguage. rewrite trim_idem. reflexivity. }
  assert (C : tagged_class preClass codeClass
                (trimmedText (Element (js "code") codeClass [] [Text text]))
              = classListAdd codeClass (js "language-" ++ detectLanguage text)).
  { unfold tagged_class. rewrite H, D.
    destruct (LanguageClass.languages_word _ (Detect.detectLanguage_codomain text))
      as (c & t & -> & _).
    reflexivity. }
  rewrite C, T. destruct text as [|c t].
  - eexists. split; [reflexivity|]. reflexivity.
  - destruct (trim (c :: t)) as [|x u]; eexists; (split; [reflexivity|]);
      [reflexivity | cbn [map concat textContent]; apply app_nil_r].
Qed.

End Cleanup.

(** * Plain prose and one-line texts *)

Module Prose.

Local Open Scope N_scope.

Lemma prose_tail c t : prose (c :: t) = true -> prose t = true.
Proof. unfold prose. cbn [forallb]. intros H. apply andb_true_iff in H. apply H. Qed.

Lemma prose_head c t :
  prose (c :: t) = true ->
  (c =? 42) = false /\ (c =? 45) = false /\ (c =? 35) = false /\
  (c =? 96) = false /\ is_digit c = false.
Proof.
  unfold prose. cbn [forallb]. intros H. apply andb_true_iff in H.
  destruct H as [H _]. apply negb_true_iff in H. unfold is_markup in H.
  apply orb_false_iff in H. destruct H as [H Hd].
  change (js "*-#`") with [42; 45; 35; 96] in H. unfold one_of in H.
  cbn [existsb] in H. rewrite !orb_false_iff in H. tauto.
Qed.

Lemma prose_span_snd p s : prose s = true -> prose (snd (span p s)) = true.
Proof.
  induction s as [|c t IH]; intros H; [reflexivity|]. cbn [span].
  destruct (p c); [apply IH, (prose_tail _ _ H) | exact H].
Qed.

(** A property of all the suffixes of a text holds at every line start. *)
Lemma no_shape_prose shape :
  (forall s, prose s = true -> shape s = false) ->
  forall s bol, prose s = true -> no_shape shape bol s = true.
Proof.
  intros Hs. induction s as [|c t IH]; intros bol H; cbn [no_shape].
  - rewrite (Hs [] H). destruct bol; reflexivity.
  - rewrite (Hs _ H), (IH _ (prose_tail _ _ H)). destruct bol; reflexivity.
Qed.

Lemma bold_shape_prose s : prose s = true -> bold_shape s = false.
Proof.
  intros H. unfold bold_shape, bold_view. cbv zeta.
  pose proof (prose_span_snd is_space s H) as H1.
  destruct (snd (span is_space s)) as [|a [|b s2]]; try reflexivity.
  destruct (prose_head _ _ H1) as (Ha & _). rewrite Ha. cbn [andb].
  destruct (snd (span text_char s2)) as [|? [|? ?]]; reflexivity.
Qed.

Lemma ordered_marker_prose s : prose s = true -> ordered_marker s = None.
Proof.
  intros H. unfold ordered_marker.
  pose proof (prose_span_snd is_space s H) as H1.
  destruct (span is_space s) as [w s1]. cbn [snd] in H1.
  destruct s1 as [|c t]; [reflexivity|].
  destruct (prose_head _ _ H1) as (_ & _ & _ & _ & Hd).
  cbn [span]. rewrite Hd. reflexivity.
Qed.

Lemma markers_all_one_prose s : forall bol,
  prose s = true -> markers_all_one bol s = true.
Proof.
  induction s as [|c t IH]; intros bol H; cbn [markers_all_one];
    unfold marker_is_one; rewrite (ordered_marker_prose _ H).
  - destruct bol; reflexivity.
  - rewrite (IH _ (prose_tail _ _ H)). destruct bol; reflexivity.
Qed.

Lemma indent_shape_prose k : forall s, prose s = true -> indent_shape k s = false.
Proof.
  induction k as [|k IH]; intros s H; cbn [indent_shape].
  - unfold has_list_marker, marker_split. destruct s as [|c t]; [reflexivity|].
    destruct (prose_head _ _ H) as (H1 & H2 & _ & _ & Hd).
    unfold one_of. cbn [existsb]. rewrite H1, H2, Hd. reflexivity.
  - destruct s as [|c t]; [reflexivity|].
    rewrite (IH _ (prose_tail _ _ H)). apply andb_false_r.
Qed.

Lemma heading_shape_prose s : prose s = true -> heading_shape s = false.
Proof.
  intros H. unfold heading_shape, heading_view. cbv zeta.
  destruct s as [|c t]; [reflexivity|].
  destruct (prose_head _ _ H) as (_ & _ & H3 & _).
  cbn [span]. unfold is_hash, is_char. rewrite H3. reflexivity.
Qed.

Lemma crowded_fence_prose s : prose s = true -> crowded_fence s = false.
Proof.
  induction s as [|c t IH]; intros H; [reflexivity|].
  cbn [crowded_fence]. rewrite (IH (prose_tail _ _ H)), orb_false_r.
  unfold crowds, fence_line.
  destruct t as [|a [|b t']]; try (apply andb_false_r).
  - cbn [startsWith]. rewrite andb_false_r. apply andb_false_r.
  - destruct (prose_head _ _ (prose_tail _ _ (prose_tail _ _ H))) as (_ & _ & _ & H4 & _).
    cbn [startsWith]. rewrite H4. cbn [andb]. rewrite !andb_false_r. reflexivity.
Qed.

Lemma fence_crowds_next_prose s : prose s = true -> fence_crowds_next s = false.
Proof.
  induction s as [|c t IH]; intros H; [reflexivity|].
  cbn [fence_crowds_next]. rewrite (IH (prose_tail _ _ H)).
  destruct (prose_head _ _ H) as (_ & _ & _ & H4 & _).
  unfold after_view. destruct t as [|b2 [|b3 [|a [|z r]]]]; try reflexivity.
  rewrite H4. reflexivity.
Qed.

(** Plain prose goes through the six steps unchanged but for the final
    trimming. *)
Lemma postProcessMarkdown_prose md :
  prose md = true -> postProcessMarkdown md = trim md ++ js "\n".
Proof.
  intros H. unfold postProcessMarkdown. cbv zeta.
  rewrite Settled.fixEmphasisHeading_fixed
    by (apply no_shape_prose; [apply bold_shape_prose | exact H]).
  rewrite Settled.fixOrderedPrefix_fixed by (apply markers_all_one_prose, H).
  rewrite Settled.fixIndent2_fixed
    by (apply no_shape_prose; [apply indent_shape_prose | exact H]).
  rewrite Settled.fixIndent4_fixed
    by (apply no_shape_prose; [apply indent_shape_prose | exact H]).
  rewrite Settled.fixEscapedPeriod_fixed
    by (apply no_shape_prose; [apply heading_shape_prose | exact H]).
  unfold fixFenceBefore, fixFenceAfter.
  change (replace_g false re_fence_before (template 2 (js "$1\n\n$2")) md)
    with (loopA [] md).
  rewrite Settled.loopA_fixed by (apply crowded_fence_prose, H).
  change (replace_g false re_fence_after (template 2 (js "$1\n\n$2")) md)
    with (loopB [] md).
  rewrite Settled.loopB_fixed by (apply fence_crowds_next_prose, H).
  reflexivity.
Qed.

Lemma space_not_markup c : is_space c = true -> is_markup c = false.
Proof.
  intros H. unfold is_markup. rewrite (Ordered.space_not_digit _ H), orb_false_r.
  change (js "*-#`") with [42; 45; 35; 96]. unfold one_of. cbn [existsb].
  destruct (N.eqb_spec c 42) as [->|]; [discriminate|].
  destruct (N.eqb_spec c 45) as [->|]; [discriminate|].
  destruct (N.eqb_spec c 35) as [->|]; [discriminate|].
  destruct (N.eqb_spec c 96) as [->|]; [discriminate|]. reflexivity.
Qed.

(** A document of white space only becomes one line feed. *)
Lemma postProcessMarkdown_blank md :
  forallb is_space md = true -> postProcessMarkdown md = js "\n".
Proof.
  intros H. rewrite postProcessMarkdown_prose.
  - rewrite (proj2 (Detect.trim_nil_iff md) H). reflexivity.
  - unfold prose. rewrite forallb_forall in *. intros x Hx.
    rewrite (space_not_markup _ (H x Hx)). reflexivity.
Qed.

End Prose.

Module Line.

Local Open Scope N_scope.

Lemma one_line_cons c t :
  one_line (c :: t) = true -> is_line_terminator c = false /\ one_line t = true.
Proof.
  unfold one_line. cbn [forallb]. intros H. apply andb_true_iff in H.
  destruct H as [H1 H2]. apply negb_true_iff in H1. auto.
Qed.

Lemma one_line_app u v :
  one_line (u ++ v) = one_line u && one_line v.
Proof. apply forallb_app. Qed.

Lemma no_shape_inside shape s : one_line s = true -> no_shape shape false s = true.
Proof.
  induction s as [|c t IH]; intros H; [reflexivity|].
  destruct (one_line_cons _ _ H) as [Hc Ht].
  cbn [no_shape]. rewrite Hc. apply IH, Ht.
Qed.

(** Within one line only the start of the text can begin a match. *)
Lemma no_shape_line shape s :
  shape s = false -> one_line s = true -> no_shape shape true s = true.
Proof.
  intros Hs H. destruct s as [|c t]; cbn [no_shape]; rewrite Hs; [reflexivity|].
  destruct (one_line_cons _ _ H) as [Hc Ht]. rewrite Hc.
  apply no_shape_inside, Ht.
Qed.

Lemma markers_all_one_inside s :
  one_line s = true -> markers_all_one false s = true.
Proof.
  induction s as [|c t IH]; intros H; [reflexivity|].
  destruct (one_line_cons _ _ H) as [Hc Ht].
  cbn [markers_all_one]. rewrite Hc. apply IH, Ht.
Qed.

Lemma markers_all_one_line s :
  ordered_marker s = None -> one_line s = true -> markers_all_one true s = true.
Proof.
  intros Hs H. destruct s as [|c t]; cbn [markers_all_one];
    unfold marker_is_one; rewrite Hs; [reflexivity|].
  destruct (one_line_cons _ _ H) as [Hc Ht]. rewrite Hc.
  apply markers_all_one_inside, Ht.
Qed.

Lemma crowded_fence_line s : one_line s = true -> crowded_fence s = false.
Proof.
  induction s as [|c t IH]; intros H; [reflexivity|].
  destruct (one_line_cons _ _ H) as [Hc Ht].
  cbn [crowded_fence]. rewrite (IH Ht), orb_false_r.
  unfold crowds, fence_line. destruct t as [|a t']; [apply andb_false_r|].
  destruct (one_line_cons _ _ Ht) as [Ha _]. cbn [startsWith].
  destruct (N.eqb_spec a 10) as [->|]; [discriminate|]. apply andb_false_r.
Qed.

Lemma fence_crowds_next_line s : one_line s = true -> fence_crowds_next s = false.
Proof.
  induction s as [|c t IH]; intros H; [reflexivity|].
  destruct (one_line_cons _ _ H) as [Hc Ht].
  cbn [fence_crowds_next]. rewrite (IH Ht).
  unfold after_view. destruct t as [|b2 [|b3 [|a [|z r]]]]; try reflexivity.
  assert (Ha : is_line_terminator a = false).
  { destruct (one_line_cons _ _ Ht) as [_ H1].
    destruct (one_line_cons _ _ H1) as [_ H2].
    apply (one_line_cons _ _ H2). }
  destruct (N.eqb_spec a 10) as [->|]; [discriminate|].
  rewrite !andb_false_r. reflexivity.
Qed.

Lemma bold_shape_head c t :
  is_space c = false -> (c =? 42) = false -> bold_shape (c :: t) = false.
Proof.
  intros Hs Hc. unfold bold_shape, bold_view. cbv zeta. cbn [span].
  rewrite Hs. cbn [fst snd]. destruct t as [|b s2]; [reflexivity|].
  rewrite Hc. cbn [andb].
  destruct (snd (span text_char s2)) as [|? [|? ?]]; reflexivity.
Qed.

(** A text of one line that begins with a hash mark passes the first three
    steps unchanged. *)
Lemma hash_line_steps s :
  startsWith s [35] = true -> one_line s = true ->
  fixIndent4 (fixIndent2 (fixOrderedPrefix (fixEmphasisHeading s))) = s.
Proof.
  intros Hc Hl. apply Fences.startsWith_cons in Hc. destruct Hc as (t & -> & _).
  rewrite Settled.fixEmphasisHeading_fixed
    by (apply no_shape_line; [apply bold_shape_head; reflexivity | exact Hl]).
  rewrite Settled.fixOrderedPrefix_fixed
    by (apply markers_all_one_line; [reflexivity | exact Hl]).
  rewrite Settled.fixIndent2_fixed
    by (apply no_shape_line; [reflexivity | exact Hl]).
  rewrite Settled.fixIndent4_fixed
    by (apply no_shape_line; [reflexivity | exact Hl]).
  reflexivity.
Qed.

Lemma fixFences_line s : one_line s = true -> fixFenceAfter (fixFenceBefore s) = s.
Proof.
  intros H. unfold fixFenceBefore, fixFenceAfter.
  change (replace_g false re_fence_before (template 2 (js "$1\n\n$2")) s)
    with (loopA [] s).
  rewrite Settled.loopA_fixed by (apply crowded_fence_line, H).
  change (replace_g false re_fence_after (template 2 (js "$1\n\n$2")) s)
    with (loopB [] s).
  apply Settled.loopB_fixed, fence_crowds_next_line, H.
Qed.

End Line.

Module EscapedPeriod.

Local Open Scope N_scope.

Lemma digit_not_space c : is_digit c = true -> is_space c = false.
Proof.
  intros H. destruct (is_space c) eqn:E; [|reflexivity].
  rewrite (Ordered.space_not_digit _ E) in H. discriminate.
Qed.

Lemma head_false (p q : char -> bool) (l : jsstring) (y : jsstring) :
  (forall c, q c = true -> p c = false) ->
  l <> [] -> forallb q l = true ->
  match l ++ y with c :: _ => p c = false | [] => True end.
Proof.
  intros Hpq Hne Hl. destruct l as [|c l]; [contradiction|].
  cbn [forallb] in Hl. apply andb_true_iff in Hl. apply Hpq, Hl.
Qed.

Lemma heading_view_build h w d r :
  h <> [] -> forallb is_hash h = true -> (length h <= 6)%nat ->
  w <> [] -> forallb is_space w = true ->
  d <> [] -> forallb is_digit d = true ->
  heading_view (h ++ w ++ d ++ escaped_period ++ r) = Some (h, w, d, r).
Proof.
  intros Hh Ah Lh Hw Aw Hd Ad. unfold heading_view. cbv zeta.
  rewrite (Headings.span_app_stop is_hash h (w ++ d ++ escaped_period ++ r) Ah)
    by (apply (head_false is_hash is_space); auto using HeadingNumber.space_not_hash).
  cbn [fst snd].
  rewrite (Headings.span_app_stop is_space w (d ++ escaped_period ++ r) Aw)
    by (apply (head_false is_space is_digit); auto using digit_not_space).
  cbn [fst snd].
  rewrite (Headings.span_app_stop is_digit d (escaped_period ++ r) Ad)
    by reflexivity.
  cbn [fst snd].
  rewrite !HeadingNumber.leb_one_length.
  destruct h as [|? ?]; [contradiction|]. destruct w as [|? ?]; [contradiction|].
  destruct d as [|? ?]; [contradiction|].
  apply Nat.leb_le in Lh. rewrite Lh. cbn [andb].
  assert (S1 : startsWith (escaped_period ++ r) escaped_period = true).
  { unfold escaped_period. cbn [app startsWith N.eqb Pos.eqb andb].
    apply Fences.startsWith_nil. }
  rewrite S1. reflexivity.
Qed.

(** Read away from a line start, a text without line terminators is
    copied. *)
Lemma loopH_copy u before :
  line_start before = false ->
  forallb (fun c => negb (is_line_terminator c)) u = true ->
  loopH before u = u.
Proof.
  intros Hb Hu. rewrite <- (app_nil_r u) at 1. unfold loopH.
  rewrite (Anchored.loop_copy re_heading_number (template 1 (js "$1. "))
             heading_shape HeadingNumber.exec_heading_miss u before [] Hb Hu).
  fold (loopH (rev u ++ before) []). rewrite HeadingNumber.loopH_nil.
  apply app_nil_r.
Qed.

(** Step 4 on a numbered heading with an escaped period. *)
Lemma fixEscapedPeriod_heading h w d r :
  h <> [] -> forallb is_hash h = true -> (length h <= 6)%nat ->
  w <> [] -> forallb is_space w = true ->
  d <> [] -> forallb is_digit d = true ->
  forallb (fun c => negb (is_line_terminator c)) r = true ->
  fixEscapedPeriod (h ++ w ++ d ++ js "\\. " ++ r) = h ++ w ++ d ++ js ". " ++ r.
Proof.
  intros Hh Ah Lh Hw Aw Hd Ad Hr.
  change (fixEscapedPeriod (h ++ w ++ d ++ js "\\. " ++ r))
    with (loopH [] (h ++ w ++ d ++ escaped_period ++ r)).
  rewrite (HeadingNumber.loopH_hit [] _ h w d r eq_refl
             (heading_view_build h w d r Hh Ah Lh Hw Aw Hd Ad)).
  rewrite loopH_copy by (reflexivity || exact Hr).
  rewrite <- !app_assoc. reflexivity.
Qed.

Lemma span_all_app p x y :
  forallb p x = true -> fst (span p (x ++ y)) = x ++ fst (span p y).
Proof.
  induction x as [|c x IH]; intros H; [reflexivity|].
  cbn [forallb] in H. apply andb_true_iff in H. destruct H as [Hc Hx].
  cbn [app span]. rewrite Hc. cbn [fst]. rewrite (IH Hx). reflexivity.
Qed.

(** Seven hash marks or more do not open a heading. *)
Lemma heading_shape_long h r :
  forallb is_hash h = true -> (7 <= length h)%nat ->
  heading_shape (h ++ r) = false.
Proof.
  intros Ah Lh. unfold heading_shape, heading_view. cbv zeta.
  rewrite (span_all_app is_hash h r Ah), length_app.
  assert (L : (length h + length (fst (span is_hash r)) <=? 6)%nat = false)
    by (apply Nat.leb_gt; lia).
  rewrite L, andb_false_r. reflexivity.
Qed.

(** A line that does not begin with a match is left as it is. *)
Lemma fixEscapedPeriod_line s :
  heading_shape s = false ->
  forallb (fun c => negb (is_line_terminator c)) s = true ->
  fixEscapedPeriod s = s.
Proof.
  intros Hs Hl. change (fixEscapedPeriod s) with (loopH [] s).
  destruct s as [|c t]; [reflexivity|].
  rewrite HeadingNumber.loopH_miss by (rewrite Hs; reflexivity).
  cbn [forallb] in Hl. apply andb_true_iff in Hl. destruct Hl as [Hc Ht].
  rewrite loopH_copy; [reflexivity | | exact Ht].
  cbn [line_start]. apply negb_true_iff, Hc.
Qed.

End EscapedPeriod.

Module NumberedHeading.
Import Line EscapedPeriod.

Local Open Scope N_scope.

Lemma one_line_digits d : forallb is_digit d = true -> one_line d = true.
Proof.
  unfold one_line. rewrite !forallb_forall. intros H x Hx.
  rewrite (Ordered.digit_not_terminator _ (H x Hx)). reflexivity.
Qed.

Lemma one_line_heading h w d sep r :
  forallb is_hash h = true -> one_line w = true ->
  forallb is_digit d = true -> one_line sep = true -> one_line r = true ->
  one_line (h ++ w ++ d ++ sep ++ r) = true.
Proof.
  intros Hh Hw Hd Hs Hr. rewrite !one_line_app.
  rewrite (HeadingNumber.hashes_not_terminators h Hh : one_line h = true).
  rewrite Hw, (one_line_digits d Hd), Hs, Hr. reflexivity.
Qed.

(** The post-processor on a one-line numbered heading with an escaped
    period. *)
Lemma postProcessMarkdown_heading h w d r :
  h <> [] -> forallb is_hash h = true -> (length h <= 6)%nat ->
  w <> [] -> forallb is_space w = true -> one_line w = true ->
  d <> [] -> forallb is_digit d = true ->
  one_line r = true ->
  postProcessMarkdown (h ++ w ++ d ++ js "\\. " ++ r) =
  trim (h ++ w ++ d ++ js ". " ++ r) ++ js "\n".
Proof.
  intros Hh Ah Lh Hw Aw Ow Hd Ad Hr. unfold postProcessMarkdown. cbv zeta.
  destruct h as [|c h']; [contradiction|].
  assert (Hc : is_hash c = true).
  { cbn [forallb] in Ah. apply andb_true_iff in Ah. apply Ah. }
  rewrite hash_line_steps;
    [| unfold is_hash, is_char in Hc; cbn [app startsWith]; rewrite Hc;
       apply Fences.startsWith_nil
     | apply (one_line_heading (c :: h')); auto ].
  rewrite (fixEscapedPeriod_heading (c :: h') w d r) by assumption.
  rewrite fixFences_line by (apply (one_line_heading (c :: h')); auto).
  reflexivity.
Qed.

End NumberedHeading.

Module IndentLine.
Import Line.

Local Open Scope N_scope.

Lemma one_line_spaces k : one_line (spaces k) = true.
Proof. apply Indent.spaces_not_terminators. Qed.

Lemma indent_shape_nil k : indent_shape k [] = false.
Proof. destruct k; reflexivity. Qed.

(** Read away from a line start, a text of one line is copied. *)
Lemma loopI_copy k u before :
  line_start before = false -> one_line u = true -> loopI k before u = u.
Proof.
  intros Hb Hu. rewrite <- (app_nil_r u) at 1. unfold loopI.
  rewrite (Anchored.loop_copy (re_indent k) (tpl_indent k) (indent_shape k)
             (Indent.exec_indent_miss k) u before [] Hb Hu).
  rewrite replace_loop_nil, Indent.exec_indent_miss;
    [apply app_nil_r | rewrite indent_shape_nil; apply andb_false_r].
Qed.

Lemma loopI_line k s :
  indent_shape k s = false -> one_line s = true -> loopI k [] s = s.
Proof.
  intros Hs Hl. unfold loopI.
  apply (Anchored.loop_fixed (re_indent k) (tpl_indent k) (indent_shape k)
           (Indent.exec_indent_miss k) (indent_shape_nil k)).
  apply no_shape_line; assumption.
Qed.

Lemma skipn_spaces k s : skipn k (spaces k ++ s) = s.
Proof. induction k as [|k IH]; [reflexivity|]. exact IH. Qed.

Lemma startsWith_spaces k s : startsWith (spaces k ++ s) (spaces k) = true.
Proof.
  induction k as [|k IH]; [apply Fences.startsWith_nil|].
  cbn [spaces repeat app startsWith N.eqb Pos.eqb andb]. exact IH.
Qed.

Lemma last_not_terminator m before :
  m <> [] -> one_line m = true -> line_start (rev m ++ before) = false.
Proof.
  intros Hne Hm. destruct (rev m) as [|c r] eqn:E.
  - destruct m; [contradiction|]. apply (f_equal (@length char)) in E.
    rewrite length_rev in E. discriminate.
  - cbn [app line_start]. unfold one_line in Hm.
    rewrite <- Detect.forallb_rev, E in Hm. cbn [forallb] in Hm.
    apply andb_true_iff in Hm. destruct Hm as [Hc _].
    apply negb_true_iff, Hc.
Qed.

(** One rewrite of a line indented by exactly [k] spaces. *)
Lemma loopI_indented k s m r :
  marker_split s = Some (m, r) -> one_line r = true ->
  loopI k [] (spaces k ++ s) = spaces (2 * k) ++ s.
Proof.
  intros Hm Hr.
  destruct (Indent.marker_split_inv _ _ _ Hm) as (Es & Hne & Lm).
  rewrite (Indent.loopI_hit k [] (spaces k ++ s) m r eq_refl
             (startsWith_spaces k s)) by (rewrite skipn_spaces; exact Hm).
  rewrite loopI_copy; [|apply last_not_terminator; assumption | exact Hr].
  rewrite Es, <- app_assoc. reflexivity.
Qed.

Lemma marker_head s m r :
  marker_split s = Some (m, r) ->
  exists c t, s = c :: t /\ (c =? 32) = false.
Proof.
  unfold marker_split. destruct s as [|c t]; [discriminate|]. intros H.
  exists c, t. split; [reflexivity|].
  destruct (N.eqb_spec c 32) as [->|]; [|reflexivity]. discriminate.
Qed.

(** A line indented by a number of spaces other than [j] has not the shape
    of the rule for [j] spaces. *)
Lemma indent_shape_other j : forall k s m r,
  marker_split s = Some (m, r) -> k <> j ->
  indent_shape j (spaces k ++ s) = false.
Proof.
  induction j as [|j IH]; intros k s m r Hm Hk.
  - destruct k as [|k]; [contradiction|]. reflexivity.
  - destruct k as [|k].
    + destruct (marker_head _ _ _ Hm) as (c & t & -> & Hc).
      cbn [spaces repeat app indent_shape]. rewrite Hc. reflexivity.
    + cbn [spaces repeat app indent_shape N.eqb Pos.eqb andb].
      apply (IH k s m r Hm). intros E. apply Hk. f_equal. exact E.
Qed.

Lemma one_line_marker s m r :
  marker_split s = Some (m, r) -> one_line r = true -> one_line s = true.
Proof.
  intros Hm Hr. destruct (Indent.marker_split_inv _ _ _ Hm) as (-> & _ & Lm).
  rewrite one_line_app, Hr, andb_true_r. exact Lm.
Qed.

(** Step 3 on a list item of one line: an indentation of exactly two or
    exactly four spaces becomes eight spaces, any other stays. *)
Lemma fixIndentation_line k s m r :
  marker_split s = Some (m, r) -> one_line r = true ->
  fixIndentation (spaces k ++ s) =
  if (k =? 2)%nat || (k =? 4)%nat then spaces 8 ++ s else spaces k ++ s.
Proof.
  intros Hm Hr. unfold fixIndentation.
  pose proof (one_line_marker _ _ _ Hm Hr) as Hs.
  change (fixIndent2 (spaces k ++ s)) with (loopI 2 [] (spaces k ++ s)).
  destruct (Nat.eqb_spec k 2) as [->|K2].
  - rewrite (loopI_indented 2 s m r Hm Hr).
    change (fixIndent4 (spaces (2 * 2) ++ s)) with (loopI 4 [] (spaces 4 ++ s)).
    rewrite (loopI_indented 4 s m r Hm Hr). reflexivity.
  - rewrite loopI_line;
      [| apply (indent_shape_other 2 k s m r Hm K2)
       | rewrite one_line_app, one_line_spaces, Hs; reflexivity ].
    change (fixIndent4 (spaces k ++ s)) with (loopI 4 [] (spaces k ++ s)).
    destruct (Nat.eqb_spec k 4) as [->|K4]; cbn [orb].
    + apply (loopI_indented 4 s m r Hm Hr).
    + apply loopI_line;
        [ apply (indent_shape_other 4 k s m r Hm K4)
        | rewrite one_line_app, one_line_spaces, Hs; reflexivity ].
Qed.

End IndentLine.

(** * The first step on documents whose lines end with line feeds *)

Module BoldIdem.

Local Open Scope N_scope.

Lemma text_then_closing_eq s :
  text_then_closing s =
  (1 <=? length (fst (span text_char s)))%nat && closing (snd (span text_char s)).
Proof.
  destruct s as [|c t]; [reflexivity|]. cbn [text_then_closing span].
  destruct (text_char c); reflexivity.
Qed.

Lemma bold_shape_eq s : bold_shape s = tail_bold (snd (span is_space s)).
Proof.
  unfold bold_shape, bold_view. cbv zeta.
  destruct (snd (span is_space s)) as [|a [|b s2]]; try reflexivity.
  cbn [tail_bold]. rewrite text_then_closing_eq. unfold closing, trailing_ok.
  destruct (snd (span text_char s2)) as [|c [|d s4]];
    rewrite ?andb_false_r; try reflexivity.
  destruct (a =? 42), (b =? 42), (1 <=? length (fst (span text_char s2)))%nat,
    (c =? 42), (d =? 42); cbn [andb]; try reflexivity.
  destruct (eol_split s4) as [[w3 r]|]; reflexivity.
Qed.

Lemma bold_shape_cons c t :
  bold_shape (c :: t) = if is_space c then bold_shape t else tail_bold (c :: t).
Proof.
  rewrite !bold_shape_eq. cbn [span]. destruct (is_space c); reflexivity.
Qed.

Lemma bold_shape_spaces w x :
  forallb is_space w = true -> bold_shape (w ++ x) = bold_shape x.
Proof.
  induction w as [|c w IH]; intros H; [reflexivity|].
  cbn [forallb] in H. apply andb_true_iff in H. destruct H as [Hc Hw].
  cbn [app]. rewrite bold_shape_cons, Hc. apply IH, Hw.
Qed.

Lemma loopE_nil before : loopE before [] = [].
Proof. apply (Anchored.loop_nil _ _ _ Settled.exec_bold_miss eq_refl). Qed.

Lemma loopE_miss before c t :
  line_start before && bold_shape (c :: t) = false ->
  loopE before (c :: t) = c :: loopE (c :: before) t.
Proof. apply (Anchored.loop_miss _ _ _ Settled.exec_bold_miss). Qed.

Lemma loopE_inside before c t :
  line_start before = false ->
  loopE before (c :: t) = c :: loopE (c :: before) t.
Proof. intros H. apply loopE_miss. rewrite H. reflexivity. Qed.

(** *** Where no bold-only line is read, none appears *)

Lemma trailing_ok_cons c t :
  trailing_ok (c :: t) = is_space c && (trailing_ok t || is_line_terminator c).
Proof.
  unfold trailing_ok. cbn [eol_split]. destruct (is_space c); [|reflexivity].
  destruct (eol_split t) as [[w r]|]; [reflexivity|].
  destruct (is_line_terminator c); reflexivity.
Qed.

Lemma loopE_trailing t : forall before,
  line_start before = false -> trailing_ok t = false ->
  trailing_ok (loopE before t) = false.
Proof.
  induction t as [|c t IH]; intros before Hb Ht; [discriminate|].
  rewrite loopE_inside by exact Hb. rewrite trailing_ok_cons in *.
  destruct (is_space c); [|reflexivity]. cbn [andb] in *.
  apply orb_false_iff in Ht. destruct Ht as [Ht Hc]. rewrite Hc, orb_false_r.
  apply IH; [exact Hc | exact Ht].
Qed.

Lemma loopE_closing s before :
  line_start before = false -> closing s = false ->
  closing (loopE before s) = false.
Proof.
  intros Hb Hs. destruct s as [|a [|b s4]].
  - rewrite loopE_nil. reflexivity.
  - rewrite loopE_inside by exact Hb. rewrite loopE_nil. reflexivity.
  - rewrite loopE_inside by exact Hb. cbn [closing] in Hs.
    destruct (N.eqb_spec a 42) as [->|Ha].
    + rewrite loopE_inside by reflexivity.
      destruct (N.eqb_spec b 42) as [->|Hb2].
      * cbn [closing N.eqb Pos.eqb andb] in *.
        apply loopE_trailing; [reflexivity | exact Hs].
      * cbn [closing]. apply N.eqb_neq in Hb2. rewrite Hb2.
        rewrite andb_false_r. reflexivity.
    + apply N.eqb_neq in Ha.
      destruct (loopE (a :: before) (b :: s4)) as [|x y]; [reflexivity|].
      cbn [closing]. rewrite Ha. reflexivity.
Qed.

Lemma lf_only_cons c t :
  lf_only (c :: t) = true ->
  (is_line_terminator c = true -> c = 10) /\ lf_only t = true.
Proof.
  unfold lf_only. cbn [forallb]. intros H. apply andb_true_iff in H.
  destruct H as [H1 H2]. split; [|exact H2]. intros L. rewrite L in H1.
  cbn [negb orb] in H1. apply N.eqb_eq, H1.
Qed.

Lemma text_char_inside c t :
  lf_only (c :: t) = true -> text_char c = true -> is_line_terminator c = false.
Proof.
  intros H Hc. destruct (lf_only_cons _ _ H) as [Hl _].
  destruct (is_line_terminator c); [|reflexivity].
  rewrite (Hl eq_refl) in Hc. discriminate.
Qed.

Lemma rest_closing_cons c t :
  rest_closing (c :: t) = if text_char c then rest_closing t else closing (c :: t).
Proof. unfold rest_closing. cbn [span]. destruct (text_char c); reflexivity. Qed.

Lemma loopE_rest_closing s : forall before,
  lf_only s = true -> line_start before = false -> rest_closing s = false ->
  rest_closing (loopE before s) = false.
Proof.
  induction s as [|c t IH]; intros before Hl Hb Hs.
  - rewrite loopE_nil. reflexivity.
  - rewrite rest_closing_cons in Hs. destruct (text_char c) eqn:Hc.
    + rewrite loopE_inside by exact Hb. rewrite rest_closing_cons, Hc.
      apply IH; [apply (lf_only_cons _ _ Hl) | | exact Hs].
      cbn [line_start]. apply (text_char_inside _ _ Hl Hc).
    + pose proof (loopE_closing (c :: t) before Hb Hs) as K.
      rewrite loopE_inside in K |- * by exact Hb.
      rewrite rest_closing_cons, Hc. exact K.
Qed.

Lemma loopE_text s before :
  lf_only s = true -> line_start before = false ->
  text_then_closing s = false -> text_then_closing (loopE before s) = false.
Proof.
  intros Hl Hb Hs. destruct s as [|c t]; [rewrite loopE_nil; reflexivity|].
  rewrite loopE_inside by exact Hb. cbn [text_then_closing] in *.
  destruct (text_char c) eqn:Hc; [|reflexivity]. cbn [andb] in *.
  apply loopE_rest_closing; [apply (lf_only_cons _ _ Hl) | | exact Hs].
  cbn [line_start]. apply (text_char_inside _ _ Hl Hc).
Qed.

Lemma space_terminator c : is_space c = false -> is_line_terminator c = false.
Proof.
  intros H. destruct (is_line_terminator c) eqn:L; [|reflexivity].
  rewrite (BoldLine.terminator_is_space _ L) in H. discriminate.
Qed.

Lemma loopE_tail_bold c t before :
  lf_only (c :: t) = true -> is_space c = false ->
  tail_bold (c :: t) = false ->
  tail_bold (c :: loopE (c :: before) t) = false.
Proof.
  intros Hl Hc Hs.
  assert (Hb : line_start (c :: before) = false) by (apply space_terminator, Hc).
  destruct (N.eqb_spec c 42) as [->|Hn].
  - destruct t as [|b s2]; [rewrite loopE_nil; reflexivity|].
    rewrite loopE_inside by exact Hb. cbn [tail_bold N.eqb Pos.eqb andb] in *.
    destruct (N.eqb_spec b 42) as [->|Hb2]; [|reflexivity]. cbn [andb] in *.
    apply loopE_text; [| reflexivity | exact Hs].
    apply (lf_only_cons _ _ (proj2 (lf_only_cons _ _ Hl))).
  - apply N.eqb_neq in Hn. destruct (loopE (c :: before) t); [reflexivity|].
    cbn [tail_bold]. rewrite Hn. reflexivity.
Qed.

Lemma loopE_miss_stays s : forall before,
  lf_only s = true -> bold_shape s = false ->
  bold_shape (loopE before s) = false.
Proof.
  induction s as [|c t IH]; intros before Hl Hs.
  - rewrite loopE_nil. reflexivity.
  - rewrite loopE_miss by (rewrite Hs; apply andb_false_r).
    rewrite bold_shape_cons in *. destruct (is_space c) eqn:Hc.
    + apply IH; [apply (lf_only_cons _ _ Hl) | exact Hs].
    + apply loopE_tail_bold; assumption.
Qed.


(** *** A rewritten line does not begin with a match *)

Lemma eol_split_inv s : forall w r,
  eol_split s = Some (w, r) ->
  s = w ++ r /\ forallb is_space w = true /\ eol r = true.
Proof.
  induction s as [|c t IH]; intros w r H; cbn [eol_split] in H.
  - inversion H; subst. auto.
  - destruct (is_space c) eqn:Hc; [|discriminate].
    destruct (eol_split t) as [[w' r']|] eqn:E.
    + inversion H; subst. destruct (IH _ _ eq_refl) as (Et & Hw & Hr).
      rewrite Et at 1. cbn [forallb]. rewrite Hc. auto.
    + destruct (is_line_terminator c) eqn:L; [|discriminate].
      inversion H; subst. cbn [eol]. auto.
Qed.

Lemma bold_view_inv s w1 t w3 r :
  bold_view s = Some (w1, t, w3, r) ->
  s = w1 ++ 42 :: 42 :: t ++ 42 :: 42 :: w3 ++ r /\
  forallb is_space w1 = true /\
  (t <> [] /\ forallb text_char t = true) /\
  forallb is_space w3 = true /\ eol r = true.
Proof.
  unfold bold_view. cbv zeta.
  pose proof (span_app is_space s) as E1. pose proof (span_all is_space s) as A1.
  destruct (span is_space s) as [w0 s1]. cbn [fst snd] in *.
  destruct s1 as [|a [|b s2]]; try discriminate.
  pose proof (span_app text_char s2) as E2.
  pose proof (span_all text_char s2) as A2.
  destruct (span text_char s2) as [t0 s3]. cbn [fst snd] in *.
  destruct s3 as [|c [|d s4]]; try discriminate.
  destruct (N.eqb_spec a 42) as [->|]; [|discriminate].
  destruct (N.eqb_spec b 42) as [->|]; [|discriminate].
  destruct t0 as [|x t0]; [discriminate|].
  destruct (N.eqb_spec c 42) as [->|]; [|discriminate].
  destruct (N.eqb_spec d 42) as [->|]; [|discriminate].
  cbn [andb length Nat.leb]. destruct (eol_split s4) as [[w3' r']|] eqn:E; [|discriminate].
  intros H. injection H as <- <- <- <-.
  destruct (eol_split_inv _ _ _ E) as (E4 & Hw3 & Hr).
  split; [|split; [exact A1 | split; [split; [discriminate | exact A2] | auto]]].
  rewrite <- E1, <- E2, E4. reflexivity.
Qed.

Lemma loopE_hit before s w1 t w3 r :
  line_start before = true -> bold_view s = Some (w1, t, w3, r) ->
  loopE before s =
  w1 ++ (35 :: 35 :: 35 :: 32 :: t) ++ w3 ++
  loopE (rev w3 ++ 42 :: 42 :: rev t ++ 42 :: 42 :: rev w1 ++ before) r.
Proof.
  intros Hb Hv. unfold loopE.
  erewrite replace_loop_hit;
    [| rewrite BoldLine.exec_bold, Hb, Hv; reflexivity | cbn [pos]; lia].
  rewrite Headings.tpl_heading.
  cbn [substitute capture caps find fst snd Nat.eqb prev rest].
  rewrite app_nil_r, <- app_assoc. f_equal. cbn [app]. do 4 f_equal.
  rewrite <- app_assoc. reflexivity.
Qed.

Lemma no_shape_any shape x :
  shape x = false -> no_shape shape false x = true ->
  forall b, no_shape shape b x = true.
Proof.
  intros Hs H [|]; [|exact H]. destruct x as [|c t]; cbn [no_shape] in *;
    rewrite Hs; [reflexivity | exact H].
Qed.

Lemma no_shape_spaces w x :
  forallb is_space w = true -> bold_shape x = false ->
  (forall b, no_shape bold_shape b x = true) ->
  forall bol, no_shape bold_shape bol (w ++ x) = true.
Proof.
  intros Hw Hx Hn. induction w as [|c w IH]; intros bol; [apply Hn|].
  cbn [forallb] in Hw. apply andb_true_iff in Hw. destruct Hw as [Hc Hw].
  cbn [app no_shape]. rewrite (IH Hw), andb_true_r.
  destruct bol; [|reflexivity].
  change (c :: w ++ x) with ((c :: w) ++ x).
  rewrite (bold_shape_spaces (c :: w) x) by (cbn [forallb]; rewrite Hc; exact Hw).
  rewrite Hx. reflexivity.
Qed.

Lemma bold_shape_hash z : bold_shape (35 :: z) = false.
Proof. apply Line.bold_shape_head; reflexivity. Qed.

Lemma text_not_terminators t :
  lf_only t = true -> forallb text_char t = true ->
  forallb (fun c => negb (is_line_terminator c)) t = true.
Proof.
  induction t as [|c t IH]; intros Hl Ht; [reflexivity|].
  cbn [forallb] in *. apply andb_true_iff in Ht. destruct Ht as [Hc Ht].
  rewrite (text_char_inside _ _ Hl Hc). cbn [negb andb].
  apply IH; [apply (lf_only_cons _ _ Hl) | exact Ht].
Qed.

Lemma lf_only_app u v : lf_only (u ++ v) = lf_only u && lf_only v.
Proof. apply forallb_app. Qed.

(** After a match the rewriting of the rest does not begin with one. *)
Lemma loopE_after_match before r :
  eol r = true ->
  (forall b, (b = true -> line_start before = true) ->
             no_shape bold_shape b (loopE before r) = true) ->
  bold_shape (loopE before r) = false.
Proof.
  intros Hr Hn. destruct r as [|c r']; [rewrite loopE_nil; reflexivity|].
  cbn [eol] in Hr. destruct (line_start before) eqn:Hb.
  - specialize (Hn true (fun _ => eq_refl)).
    destruct (loopE before (c :: r')) as [|x y]; [reflexivity|].
    cbn [no_shape] in Hn. apply andb_true_iff in Hn. destruct Hn as [Hn _].
    apply negb_true_iff, Hn.
  - specialize (Hn false (fun H => match Bool.diff_false_true H with end)).
    rewrite loopE_inside in Hn |- * by exact Hb.
    rewrite bold_shape_cons, (BoldLine.terminator_is_space _ Hr).
    cbn [no_shape andb] in Hn. rewrite Hr in Hn.
    destruct (loopE (c :: before) r') as [|x y]; [reflexivity|].
    cbn [no_shape] in Hn. apply andb_true_iff in Hn. destruct Hn as [Hn _].
    apply negb_true_iff, Hn.
Qed.

Lemma loopE_no_shape (n : nat) : forall s before bol,
  (length s <= n)%nat -> lf_only s = true ->
  (bol = true -> line_start before = true) ->
  no_shape bold_shape bol (loopE before s) = true.
Proof.
  induction n as [|n IH]; intros s before bol Hn Hl Hb.
  - destruct s; [|simpl in Hn; lia]. rewrite loopE_nil. cbn [no_shape].
    destruct bol; reflexivity.
  - destruct (line_start before && bold_shape s) eqn:E.
    + apply andb_true_iff in E. destruct E as [Hs Hv]. unfold bold_shape in Hv.
      destruct (bold_view s) as [[[[w1 t] w3] r]|] eqn:V; [|discriminate].
      destruct (bold_view_inv _ _ _ _ _ V) as (Es & Hw1 & (Hne & Ht) & Hw3 & Hr).
      rewrite (loopE_hit _ _ _ _ _ _ Hs V).
      set (before' := rev w3 ++ 42 :: 42 :: rev t ++ 42 :: 42 :: rev w1 ++ before).
      assert (Lr : (length r <= n)%nat).
      { apply (f_equal (@length char)) in Es.
        rewrite !length_app in Es. cbn [length] in Es.
        rewrite !length_app in Es. cbn [length] in Es.
        rewrite !length_app in Es. lia. }
      assert (Hlr : lf_only r = true /\ lf_only t = true).
      { rewrite Es in Hl. rewrite lf_only_app in Hl. apply andb_true_iff in Hl.
        destruct Hl as [_ Hl]. change (42 :: 42 :: t ++ 42 :: 42 :: w3 ++ r)
          with ([42; 42] ++ t ++ [42; 42] ++ w3 ++ r) in Hl.
        rewrite !lf_only_app in Hl. rewrite !andb_true_iff in Hl. tauto. }
      destruct Hlr as [Hlr Hlt].
      assert (Z : forall b, (b = true -> line_start before' = true) ->
                  no_shape bold_shape b (loopE before' r) = true).
      { intros b Hb'. apply IH; assumption. }
      pose proof (loopE_after_match before' r Hr Z) as Z0.
      pose proof (no_shape_any bold_shape _ Z0
                    (Z false (fun H => match Bool.diff_false_true H with end)))
        as Zall.
      apply no_shape_spaces; [exact Hw1 | apply bold_shape_hash |].
      intros b. apply Anchored.no_shape_chunk.
      * discriminate.
      * cbn [forallb]. apply (text_not_terminators t Hlt Ht).
      * intros _. apply bold_shape_hash.
      * apply no_shape_spaces; [exact Hw3 | exact Z0 | exact Zall].
    + destruct s as [|c t].
      * rewrite loopE_nil. cbn [no_shape]. destruct bol; reflexivity.
      * pose proof (loopE_miss before c t E) as M. rewrite M. cbn [no_shape].
        rewrite IH; [| simpl in Hn; lia | apply (lf_only_cons _ _ Hl)
                     | intros H; exact H].
        rewrite andb_true_r. destruct bol; [|reflexivity].
        rewrite (Hb eq_refl) in E. cbn [andb] in E.
        rewrite <- M, (loopE_miss_stays _ before Hl E). reflexivity.
Qed.

(** Step 1 is idempotent on a document whose only line terminators are
    line feeds. *)
Lemma fixEmphasisHeading_idem md :
  lf_only md = true ->
  fixEmphasisHeading (fixEmphasisHeading md) = fixEmphasisHeading md.
Proof.
  intros H. apply Settled.fixEmphasisHeading_fixed.
  apply (loopE_no_shape (length md)); [apply Nat.le_refl | exact H | reflexivity].
Qed.

End BoldIdem.

(** * The rules and the clean-up of the Turndown-based facade *)

Module FencedRule.
Import LanguageClass.

Lemma language_word_inv p s w r :
  language_word p s = Some (w, r) -> w <> [] /\ forallb is_word w = true.
Proof.
  unfold language_word. destruct (startsWith s p); [|discriminate].
  destruct (skipn (length p) s) as [|c t]; [discriminate|].
  destruct (is_word c) eqn:Hc; [|discriminate].
  intros H. inversion H; subst. split; [discriminate|].
  cbn [forallb]. rewrite Hc. apply span_all.
Qed.

Lemma language_view_inv s p w r :
  language_view s = Some (p, w, r) -> w <> [] /\ forallb is_word w = true.
Proof.
  unfold language_view.
  destruct (language_word (js "language-") s) as [[w1 r1]|] eqn:E1.
  - intros H. inversion H; subst. apply (language_word_inv _ _ _ _ E1).
  - destruct (language_word (js "lang-") s) as [[w2 r2]|] eqn:E2; [|discriminate].
    intros H. inversion H; subst. apply (language_word_inv _ _ _ _ E2).
Qed.

(** The word captured by a match of the language pattern. *)
Lemma match_language_capture s m :
  match_first false re_language s = Some m ->
  capture 1 m <> [] /\ forallb is_word (capture 1 m) = true.
Proof.
  unfold match_first. intros H. apply search_inv in H.
  destruct H as (u & v & _ & H). rewrite exec_language in H.
  destruct (language_view v) as [[[p w] r]|] eqn:V; [|discriminate].
  inversion H; subst. unfold capture. cbn [caps find fst snd Nat.eqb].
  apply (language_view_inv _ _ _ _ V).
Qed.

(** The fence written by the rule always carries a one-word language tag. *)
Lemma fencedCodeBlock_tag rawCode classSource :
  exists lang,
    lang <> [] /\ forallb is_word lang = true /\
    Turndown.fencedCodeBlock rawCode classSource =
    js "\n\n```" ++ lang ++ js "\n" ++ trim rawCode ++ js "\n```\n\n".
Proof.
  unfold Turndown.fencedCodeBlock. cbv zeta.
  destruct (match_first false re_language classSource) as [m|] eqn:M.
  - destruct (match_language_capture _ _ M) as [Hne Hw].
    exists (capture 1 m). split; [exact Hne|]. split; [exact Hw|].
    destruct (capture 1 m); [contradiction | reflexivity].
  - destruct (languages_words _ (Detect.detectLanguage_codomain rawCode))
      as [Hne Hw].
    exists (detectLanguage rawCode). split; [exact Hne|]. split; [exact Hw|].
    destruct (detectLanguage rawCode); [contradiction | reflexivity].
Qed.

(** An annotation that is the whole class is the tag of the fence. *)
Lemma fencedCodeBlock_annotation rawCode p w r :
  p = js "language-" \/ p = js "lang-" ->
  w <> [] -> forallb is_word w = true ->
  match r with c :: _ => is_word c = false | [] => True end ->
  Turndown.fencedCodeBlock rawCode (p ++ w ++ r) =
  js "\n\n```" ++ w ++ js "\n" ++ trim rawCode ++ js "\n```\n\n".
Proof.
  intros Hp Hne Hw Hr. unfold Turndown.fencedCodeBlock. cbv zeta.
  destruct w as [|c w]; [contradiction|].
  cbn [forallb] in Hw. apply andb_true_iff in Hw. destruct Hw as [Hc Hw].
  assert (V : language_view (p ++ (c :: w) ++ r) = Some (p, c :: w, r)).
  { unfold language_view, language_word.
    destruct Hp; subst p.
    - assert (S1 : startsWith (js "language-" ++ (c :: w) ++ r) (js "language-") = true)
        by reflexivity.
      rewrite S1.
      change (skipn (length (js "language-")) (js "language-" ++ (c :: w) ++ r))
        with (c :: w ++ r).
      cbv beta iota. rewrite Hc, (Headings.span_app_stop _ _ _ Hw Hr). reflexivity.
    - assert (S1 : startsWith (js "lang-" ++ (c :: w) ++ r) (js "language-") = false)
        by reflexivity.
      assert (S2 : startsWith (js "lang-" ++ (c :: w) ++ r) (js "lang-") = true)
        by reflexivity.
      rewrite S1, S2.
      change (skipn (length (js "lang-")) (js "lang-" ++ (c :: w) ++ r))
        with (c :: w ++ r).
      cbv beta iota. rewrite Hc, (Headings.span_app_stop _ _ _ Hw Hr). reflexivity. }
  assert (X : exec false re_language [] (p ++ (c :: w) ++ r) =
              Some (MState (rev (c :: w) ++ rev p ++ []) r
                           (length p + length (c :: w)) [(1, c :: w)])).
  { rewrite exec_language, V. reflexivity. }
  unfold match_first. rewrite (Headings.search_hit _ _ _ _ _ X).
  reflexivity.
Qed.

(** Without an annotation the tag is the detected language. *)
Lemma fencedCodeBlock_detect rawCode classSource :
  test false re_language classSource = false ->
  Turndown.fencedCodeBlock rawCode classSource =
  js "\n\n```" ++ detectLanguage rawCode ++ js "\n" ++ trim rawCode
    ++ js "\n```\n\n".
Proof.
  unfold test, Turndown.fencedCodeBlock. cbv zeta.
  destruct (match_first false re_language classSource); [discriminate|].
  reflexivity.
Qed.

Lemma fencedCodeBlockRule_pre_code preClass codeClass text :
  TurndownRules.fencedCodeBlockRule (pre_code preClass codeClass text) =
  Some (Turndown.fencedCodeBlock text (existingClass preClass codeClass)).
Proof.
  unfold TurndownRules.fencedCodeBlockRule, pre_code.
  change (TurndownRules.isFencedCodeBlock _) with true. cbv iota.
  cbn [textContent]. rewrite app_nil_r. reflexivity.
Qed.

End FencedRule.

Module EmphasisRule.

Local Open Scope N_scope.

Lemma free_of_span t :
  forallb (none_of [42]) t = true -> free_of 42 t = true.
Proof.
  unfold free_of. rewrite !forallb_forall. intros H x Hx.
  specialize (H x Hx). unfold none_of, one_of in H. cbn [existsb] in H.
  rewrite orb_false_r in H. exact H.
Qed.

(** [/^\*\*[^*]+\*\*$/] matches nothing but text between markers. *)
Lemma exec_bold_only_inv s :
  exec false Turndown.re_bold_only [] s <> None ->
  exists t, t <> [] /\ free_of 42 t = true /\ s = bold t.
Proof.
  unfold exec, Turndown.re_bold_only, Plus, bold.
  change (js "**") with [42; 42]. change (js "*") with [42].
  change (lit [42; 42]) with (Seq (Chr (is_char 42)) (Chr (is_char 42))).
  regex_steps. cbn [at_bol prev].
  destruct s as [|a [|b [|c s2]]]; regex_steps; try (intros H; contradiction).
  - destruct (is_char 42 a); intros H; contradiction.
  - destruct (is_char 42 a); [|intros H; contradiction].
    destruct (is_char 42 b); intros H; contradiction.
  - unfold is_char at 1 2.
    destruct (N.eqb_spec a 42) as [->|]; [|intros H; contradiction].
    destruct (N.eqb_spec b 42) as [->|]; [|intros H; contradiction].
    destruct (none_of [42] c) eqn:Hc; [|intros H; contradiction].
    rewrite interp_star_chr, star_chr_longest.
    2:{ intros pv d r n cs Hd. regex_steps.
        unfold none_of, one_of, is_char in *. cbn [existsb] in Hd.
        destruct (d =? 42); [discriminate | reflexivity]. }
    pose proof (span_app (none_of [42]) s2) as Es.
    pose proof (span_all (none_of [42]) s2) as As.
    destruct (span (none_of [42]) s2) as [t s3]. cbn [fst snd] in *.
    destruct s3 as [|x [|y s4]]; regex_steps; try (intros H; contradiction).
    + destruct (is_char 42 x); intros H; contradiction.
    + unfold is_char at 1 2.
      destruct (N.eqb_spec x 42) as [->|]; [|intros H; contradiction].
      destruct (N.eqb_spec y 42) as [->|]; [|intros H; contradiction].
      unfold at_eol. cbn [rest andb].
      destruct s4; [|intros H; contradiction]. intros _.
      exists (c :: t). split; [discriminate|]. split.
      * apply free_of_span. cbn [forallb]. rewrite Hc. exact As.
      * rewrite <- Es. cbn [app]. reflexivity.
Qed.

(** The rule promotes a paragraph only when its trimmed content is a
    short text between markers; any other paragraph is emitted trimmed. *)
Lemma emphasisHeading_cases content :
  (exists t,
     t <> [] /\ free_of 42 t = true /\ trim content = bold t /\
     (length (trim content) < 100)%nat /\
     Turndown.emphasisHeading content = js "\n\n### " ++ t ++ js "\n\n")
  \/ Turndown.emphasisHeading content = js "\n\n" ++ trim content ++ js "\n\n".
Proof.
  unfold Turndown.emphasisHeading. cbv zeta.
  destruct (test false Turndown.re_bold_only (trim content)
            && (length (trim content) <? 100)%nat) eqn:E; [|right; reflexivity].
  left. apply andb_true_iff in E. destruct E as [E1 E2].
  apply Nat.ltb_lt in E2.
  unfold Turndown.re_bold_only in E1. rewrite Detect.test_anchored in E1.
  destruct (exec_bold_only_inv (trim content)) as (t & Hne & Hfree & Ht).
  { intros N. unfold Turndown.re_bold_only in N. rewrite N in E1.
    discriminate. }
  exists t. repeat split; try assumption.
  rewrite Ht, Headings.slice_bold. reflexivity.
Qed.

End EmphasisRule.

Module ListRule.
Import TurndownRules.

Local Open Scope N_scope.

Lemma inline_space_feed c : is_inline_space c = false -> c <> 10 -> is_space c = false.
Proof.
  unfold is_inline_space. intros H Hc. apply N.eqb_neq in Hc. rewrite Hc in H.
  cbn [negb] in H. rewrite andb_true_r in H. exact H.
Qed.

Lemma not_inline_space c : is_space c = false -> is_inline_space c = false.
Proof. unfold is_inline_space. intros ->. reflexivity. Qed.

Lemma line_ends_clean_suffix u v :
  line_ends_clean (u ++ v) = true -> line_ends_clean v = true.
Proof.
  induction u as [|c u IH]; intros H; [exact H|].
  cbn [app line_ends_clean] in H. apply andb_true_iff in H. apply IH, H.
Qed.

(** What comes last before a line feed, or at the end, is no inline white
    space. *)
Lemma line_ends_clean_last x : forall y,
  line_ends_clean (x ++ y) = true ->
  match y with [] => True | d :: _ => d = 10 end ->
  match rev x with c :: _ => is_inline_space c = false | [] => True end.
Proof.
  induction x as [|c x IH]; intros y H Hy; [exact I|].
  cbn [app line_ends_clean] in H. apply andb_true_iff in H.
  destruct H as [H1 H2]. specialize (IH y H2 Hy). cbn [rev].
  destruct (rev x) as [|l r] eqn:E; cbn [app]; [|exact IH].
  assert (x = []) by (destruct x; [reflexivity|];
                      apply (f_equal (@length char)) in E;
                      rewrite length_rev in E; discriminate).
  subst x. cbn [app] in H1.
  destruct (is_inline_space c); [|reflexivity]. cbn [negb orb] in H1.
  destruct y as [|d y]; [discriminate|]. subst d. discriminate.
Qed.

(** Two clean texts, the first of which does not end in white space. *)
Lemma line_ends_clean_app x : forall y,
  line_ends_clean x = true -> line_ends_clean y = true ->
  match rev x with c :: _ => is_inline_space c = false | [] => True end ->
  line_ends_clean (x ++ y) = true.
Proof.
  induction x as [|c x IH]; intros y Hx Hy L; [exact Hy|].
  cbn [app line_ends_clean] in *. apply andb_true_iff in Hx.
  destruct Hx as [H1 H2].
  assert (L' : match rev x with c0 :: _ => is_inline_space c0 = false | [] => True end).
  { cbn [rev] in L. destruct (rev x); [exact I | exact L]. }
  rewrite (IH y H2 Hy L'), andb_true_r.
  destruct x as [|d x]; [|exact H1].
  cbn [rev app] in L. rewrite L. reflexivity.
Qed.

Lemma line_ends_clean_prefix x : forall v,
  line_ends_clean (x ++ v) = true ->
  match rev x with c :: _ => is_inline_space c = false | [] => True end ->
  line_ends_clean x = true.
Proof.
  induction x as [|c x IH]; intros v H L; [reflexivity|].
  cbn [app line_ends_clean] in *. apply andb_true_iff in H.
  destruct H as [H1 H2].
  assert (L' : match rev x with c0 :: _ => is_inline_space c0 = false | [] => True end).
  { cbn [rev] in L. destruct (rev x); [exact I | exact L]. }
  rewrite (IH v H2 L'), andb_true_r.
  destruct x as [|d x]; [|exact H1].
  cbn [rev app] in L. rewrite L. reflexivity.
Qed.

(** A line without line feed that does not end in white space. *)
Lemma line_ends_clean_line l :
  free_of 10 l = true ->
  match rev l with c :: _ => is_space c = false | [] => True end ->
  line_ends_clean l = true.
Proof.
  induction l as [|c l IH]; intros F L; [reflexivity|].
  unfold free_of in *. cbn [forallb] in F. apply andb_true_iff in F.
  destruct F as [Fc Fl]. cbn [line_ends_clean].
  assert (L' : match rev l with c0 :: _ => is_space c0 = false | [] => True end).
  { cbn [rev] in L. destruct (rev l); [exact I | exact L]. }
  rewrite (IH Fl L'), andb_true_r.
  destruct l as [|d l].
  - cbn [rev app] in L. rewrite (not_inline_space _ L). reflexivity.
  - cbn [forallb] in Fl. apply andb_true_iff in Fl. destruct Fl as [Fd _].
    rewrite Fd. apply orb_true_r.
Qed.

Lemma lines_from_free cur s :
  free_of 10 cur = true ->
  Forall (fun l => free_of 10 l = true) (lines_from cur s).
Proof.
  revert cur. induction s as [|c t IH]; intros cur H; cbn [lines_from].
  - constructor; [|constructor]. unfold free_of in *.
    rewrite Detect.forallb_rev. exact H.
  - destruct (c =? 10) eqn:E.
    + constructor; [|apply IH; reflexivity]. unfold free_of in *.
      rewrite Detect.forallb_rev. exact H.
    + apply IH. unfold free_of in *. cbn [forallb]. rewrite E. exact H.
Qed.

Lemma free_of_trimEnd l : free_of 10 l = true -> free_of 10 (trimEnd l) = true.
Proof.
  intros H. destruct (trimEnd_prefix l) as (v & Hv & _). unfold free_of in *.
  rewrite Hv, forallb_app in H. apply andb_true_iff in H. apply H.
Qed.

Lemma unlines_cons x l :
  l <> [] -> unlines (x :: l) = x ++ 10 :: unlines l.
Proof. destruct l; [contradiction | reflexivity]. Qed.

Lemma unlines_clean L :
  Forall (fun l => free_of 10 l = true) L ->
  line_ends_clean (unlines (map trimEnd L)) = true.
Proof.
  induction 1 as [|l L Hl _ IH]; [reflexivity|].
  destruct L as [|l2 L].
  - cbn [map unlines]. apply line_ends_clean_line;
      [apply free_of_trimEnd, Hl | apply trimEnd_last].
  - change (unlines (map trimEnd (l :: l2 :: L)))
      with (trimEnd l ++ 10 :: unlines (map trimEnd (l2 :: L))).
    apply line_ends_clean_app.
    + apply line_ends_clean_line; [apply free_of_trimEnd, Hl | apply trimEnd_last].
    + cbn [line_ends_clean]. cbn [line_ends_clean] in IH.
      exact IH.
    + pose proof (trimEnd_last l) as T. destruct (rev (trimEnd l)); [exact I|].
      apply not_inline_space, T.
Qed.

Lemma trim_clean s : line_ends_clean s = true -> line_ends_clean (trim s) = true.
Proof.
  intros H. destruct (trim_infix s) as (u & v & E). rewrite E in H.
  apply line_ends_clean_suffix in H.
  apply (line_ends_clean_prefix _ v H).
  pose proof (trim_last s) as T. destruct (rev (trim s)); [exact I|].
  apply not_inline_space, T.
Qed.

Lemma cleanContent_clean content : line_ends_clean (cleanContent content) = true.
Proof.
  unfold cleanContent. apply trim_clean, unlines_clean.
  apply lines_from_free. reflexivity.
Qed.

Lemma cleanContent_last content :
  match rev (cleanContent content) with
  | c :: _ => is_inline_space c = false
  | [] => True
  end.
Proof.
  unfold cleanContent. pose proof (trim_last (unlines (map trimEnd (lines content)))) as T.
  destruct (rev (trim _)); [exact I|]. apply not_inline_space, T.
Qed.

(** No line of the replacement ends in white space. *)
Lemma listSpacing_clean content parentName :
  line_ends_clean (listSpacing content parentName) = true.
Proof.
  unfold listSpacing.
  assert (K : forall w, line_ends_clean w = true ->
              line_ends_clean (cleanContent content ++ w) = true).
  { intros w Hw. apply line_ends_clean_app;
      [apply cleanContent_clean | exact Hw | apply cleanContent_last]. }
  destruct (isNested parentName).
  - change (js "\n" ++ cleanContent content ++ js "\n")
      with (10 :: cleanContent content ++ [10]).
    cbn [line_ends_clean]. apply K. reflexivity.
  - change (js "\n\n" ++ cleanContent content ++ js "\n\n")
      with (10 :: 10 :: cleanContent content ++ [10; 10]).
    cbn [line_ends_clean]. apply K. reflexivity.
Qed.


Lemma lines_from_nonempty cur s : lines_from cur s <> [].
Proof.
  revert cur. induction s as [|c t IH]; intros cur; cbn [lines_from];
    [discriminate|]. destruct (c =? 10); [discriminate | apply IH].
Qed.

(** Splitting at the line feeds and joining again gives the text back. *)
Lemma unlines_lines_from s : forall cur,
  unlines (lines_from cur s) = rev cur ++ s.
Proof.
  induction s as [|c t IH]; intros cur; cbn [lines_from].
  - cbn [unlines]. symmetry. apply app_nil_r.
  - destruct (N.eqb_spec c 10) as [->|Hc].
    + rewrite unlines_cons by apply lines_from_nonempty.
      rewrite IH. reflexivity.
    + rewrite IH. cbn [rev]. rewrite <- app_assoc. reflexivity.
Qed.

Lemma trimEnd_fixed_inline l :
  free_of 10 l = true ->
  match rev l with c :: _ => is_inline_space c = false | [] => True end ->
  trimEnd l = l.
Proof.
  intros F L. apply trimEnd_fixed. destruct (rev l) as [|c r] eqn:E; [exact I|].
  apply inline_space_feed; [exact L|].
  unfold free_of in F.
  assert (R : forallb (fun x => negb (x =? 10)) (rev l) = true)
    by (rewrite Detect.forallb_rev; exact F).
  rewrite E in R. cbn [forallb] in R. apply andb_true_iff in R.
  destruct R as [R _]. apply negb_true_iff, N.eqb_neq in R. exact R.
Qed.

(** The lines of a text whose lines do not end in white space are left as
    they are by [trimEnd]. *)
Lemma lines_from_trimmed s : forall cur,
  free_of 10 cur = true ->
  line_ends_clean (rev cur ++ s) = true ->
  map trimEnd (lines_from cur s) = lines_from cur s.
Proof.
  induction s as [|c t IH]; intros cur F H; cbn [lines_from].
  - cbn [map]. f_equal. apply trimEnd_fixed_inline.
    + unfold free_of in *. rewrite Detect.forallb_rev. exact F.
    + apply (line_ends_clean_last _ [] H I).
  - destruct (N.eqb_spec c 10) as [->|Hc].
    + cbn [map]. f_equal.
      * apply trimEnd_fixed_inline.
        -- unfold free_of in *. rewrite Detect.forallb_rev. exact F.
        -- apply (line_ends_clean_last _ (10 :: t) H eq_refl).
      * apply IH; [reflexivity|]. cbn [rev app].
        apply (line_ends_clean_suffix (rev cur ++ [10])).
        rewrite <- app_assoc. exact H.
    + apply IH.
      * unfold free_of in *. cbn [forallb]. apply N.eqb_neq in Hc.
        rewrite Hc. exact F.
      * cbn [rev]. rewrite <- app_assoc. exact H.
Qed.

(** On a text whose lines do not end in white space only the outer
    trimming acts. *)
Lemma cleanContent_of_clean s :
  line_ends_clean s = true -> cleanContent s = trim s.
Proof.
  intros H. unfold cleanContent, lines.
  rewrite lines_from_trimmed by (reflexivity || exact H).
  rewrite unlines_lines_from. reflexivity.
Qed.

Lemma cleanContent_idem content :
  cleanContent (cleanContent content) = cleanContent content.
Proof.
  rewrite cleanContent_of_clean by apply cleanContent_clean.
  unfold cleanContent. apply trim_idem.
Qed.

(** A second pass of the rule over its own output changes nothing. *)
Lemma listSpacing_idem content parentName :
  listSpacing (listSpacing content parentName) parentName =
  listSpacing content parentName.
Proof.
  assert (E : cleanContent (listSpacing content parentName) = cleanContent content).
  { rewrite cleanContent_of_clean by apply listSpacing_clean.
    unfold listSpacing. destruct (isNested parentName).
    - rewrite (Detect.trim_pad (js "\n") _ (js "\n")) by reflexivity.
      unfold cleanContent. apply trim_idem.
    - rewrite (Detect.trim_pad (js "\n\n") _ (js "\n\n")) by reflexivity.
      unfold cleanContent. apply trim_idem. }
  unfold listSpacing at 1. rewrite E. reflexivity.
Qed.

End ListRule.

Module Tidy.

Local Open Scope N_scope.

Lemma leading_feeds_cons c t :
  leading_feeds (c :: t) = if c =? 10 then S (leading_feeds t) else 0%nat.
Proof.
  unfold leading_feeds. cbn [span]. unfold is_char.
  destruct (c =? 10); reflexivity.
Qed.

Lemma leading_feeds_stop s :
  leading_feeds (snd (span (is_char 10) s)) = 0%nat.
Proof.
  pose proof (span_stop (is_char 10) s) as H.
  destruct (snd (span (is_char 10) s)) as [|c t]; [reflexivity|].
  rewrite leading_feeds_cons. unfold is_char in H. rewrite H. reflexivity.
Qed.

(** Collapsing the runs of three line feeds or more leaves runs of two at
    most. *)
Lemma loopC_feeds_bounded (n : nat) : forall s before run,
  (length s <= n)%nat ->
  run = 0%nat \/ (run + leading_feeds s <= 2)%nat ->
  feeds_bounded run (loopC before s) = true.
Proof.
  induction n as [|n IH]; intros s before run Hn Hrun.
  - destruct s; [reflexivity | simpl in Hn; lia].
  - destruct s as [|c t]; [reflexivity|].
    rewrite leading_feeds_cons in Hrun.
    destruct (N.eqb_spec c 10) as [->|Hc].
    + destruct t as [|b [|d t']].
      * rewrite TrailingForm.loopC_miss_exec by (rewrite TrailingForm.exec_blank_lines; reflexivity).
        rewrite TrailingForm.loopC_nil. cbn [feeds_bounded N.eqb Pos.eqb].
        cbn in Hrun. destruct Hrun as [->|Hrun]; [reflexivity|].
        apply andb_true_iff. split; [apply Nat.ltb_lt; lia | reflexivity].
      * rewrite TrailingForm.loopC_miss_exec by (rewrite TrailingForm.exec_blank_lines; reflexivity).
        cbn [feeds_bounded N.eqb Pos.eqb].
        apply andb_true_iff. split.
        { apply Nat.ltb_lt. destruct Hrun as [->|Hrun]; lia. }
        apply IH; [simpl in *; lia|]. right.
        destruct Hrun as [->|Hrun]; [|lia].
        rewrite leading_feeds_cons. destruct (b =? 10); cbn; lia.
      * destruct ((b =? 10) && (d =? 10)) eqn:E.
        -- apply andb_true_iff in E. destruct E as [Eb Ed].
           apply N.eqb_eq in Eb, Ed. subst b d.
           rewrite TrailingForm.loopC_hit.
           assert (R : run = 0%nat).
           { destruct Hrun as [->|Hrun]; [reflexivity|].
             rewrite !leading_feeds_cons in Hrun. cbn in Hrun. lia. }
           subst run. cbn [feeds_bounded N.eqb Pos.eqb Nat.ltb Nat.leb andb].
           apply IH.
           ++ pose proof (TrailingForm.span_length (is_char 10) t'). simpl in *. lia.
           ++ right. rewrite leading_feeds_stop. lia.
        -- rewrite TrailingForm.loopC_miss_exec
             by (rewrite TrailingForm.exec_blank_lines; cbn [N.eqb Pos.eqb andb];
                 rewrite E; reflexivity).
           cbn [feeds_bounded N.eqb Pos.eqb].
           assert (L : (leading_feeds (b :: d :: t') <= 1)%nat).
           { rewrite !leading_feeds_cons.
             destruct (b =? 10); [|lia]. destruct (d =? 10); [discriminate | lia]. }
           apply andb_true_iff. split.
           { apply Nat.ltb_lt. destruct Hrun as [->|Hrun]; lia. }
           apply IH; [simpl in *; lia|]. right.
           destruct Hrun as [->|Hrun]; lia.
    + rewrite TrailingForm.loopC_miss_exec.
      * cbn [feeds_bounded]. apply N.eqb_neq in Hc. rewrite Hc.
        apply IH; [simpl in *; lia | left; reflexivity].
      * rewrite TrailingForm.exec_blank_lines.
        destruct t as [|b [|d t']]; try reflexivity.
        apply N.eqb_neq in Hc. rewrite Hc. reflexivity.
Qed.


Lemma feeds_bounded_mono s : forall run run',
  (run' <= run)%nat -> feeds_bounded run s = true -> feeds_bounded run' s = true.
Proof.
  induction s as [|c t IH]; intros run run' Hle H; [reflexivity|].
  cbn [feeds_bounded] in *. destruct (c =? 10); [|exact H].
  apply andb_true_iff in H. destruct H as [H1 H2]. apply Nat.ltb_lt in H1.
  apply andb_true_iff. split; [apply Nat.ltb_lt; lia|].
  apply (IH (S run)); [lia | exact H2].
Qed.

Lemma feeds_bounded_suffix u : forall v run,
  feeds_bounded run (u ++ v) = true -> feeds_bounded 0 v = true.
Proof.
  induction u as [|c u IH]; intros v run H.
  - apply (feeds_bounded_mono v run); [lia | exact H].
  - cbn [app feeds_bounded] in H. destruct (c =? 10).
    + apply andb_true_iff in H. apply (IH v (S run)), H.
    + apply (IH v 0%nat), H.
Qed.

Lemma feeds_bounded_prefix u : forall v run,
  feeds_bounded run (u ++ v) = true -> feeds_bounded run u = true.
Proof.
  induction u as [|c u IH]; intros v run H; [reflexivity|].
  cbn [app feeds_bounded] in *. destruct (c =? 10).
  - apply andb_true_iff in H. destruct H as [H1 H2]. rewrite H1.
    apply (IH v), H2.
  - apply (IH v), H.
Qed.

(** A line feed after a text that does not end in one. *)
Lemma feeds_bounded_snoc u : forall run,
  feeds_bounded run u = true ->
  match rev u with c :: _ => is_space c = false | [] => (run < 2)%nat end ->
  feeds_bounded run (u ++ [10]) = true.
Proof.
  induction u as [|c u IH]; intros run H L.
  - cbn [rev] in L. cbn [app feeds_bounded N.eqb Pos.eqb].
    apply andb_true_iff. split; [apply Nat.ltb_lt, L | reflexivity].
  - cbn [app feeds_bounded] in *.
    assert (L' : forall r, (r < 2)%nat \/ u <> [] ->
                 match rev u with c0 :: _ => is_space c0 = false | [] => (r < 2)%nat end).
    { intros r Hr. cbn [rev] in L. destruct (rev u) as [|x y] eqn:E.
      - destruct Hr as [Hr|Hr]; [exact Hr|].
        destruct u; [contradiction|]. apply (f_equal (@length char)) in E.
        rewrite length_rev in E. discriminate.
      - exact L. }
    destruct (N.eqb_spec c 10) as [->|Hc].
    + apply andb_true_iff in H. destruct H as [H1 H2]. rewrite H1. cbn [andb].
      apply IH; [exact H2|]. apply L'.
      destruct u as [|x u]; [|right; discriminate].
      cbn [rev app] in L. discriminate.
    + apply IH; [exact H|]. apply L'. left. lia.
Qed.

Lemma feeds_bounded_includes s : forall run,
  feeds_bounded run s = true -> includes s (js "\n\n\n") = false.
Proof.
  change (js "\n\n\n") with [10; 10; 10].
  induction s as [|c t IH]; intros run H; [reflexivity|].
  cbn [includes]. apply orb_false_iff. split.
  - destruct t as [|b [|d t]]; cbn [startsWith];
      [apply andb_false_r | rewrite !andb_false_r; reflexivity |].
    cbn [feeds_bounded] in H.
    destruct (N.eqb_spec c 10) as [->|Hc]; [|reflexivity].
    destruct (N.eqb_spec b 10) as [->|Hb]; [|reflexivity].
    destruct (N.eqb_spec d 10) as [->|Hd]; [|reflexivity].
    exfalso. cbn [N.eqb Pos.eqb] in H.
    apply andb_true_iff in H. destruct H as [H1 H].
    apply andb_true_iff in H. destruct H as [H2 H].
    apply andb_true_iff in H. destruct H as [H3 _].
    apply Nat.ltb_lt in H1, H2, H3. lia.
  - cbn [feeds_bounded] in H. destruct (c =? 10).
    + apply andb_true_iff in H. apply (IH (S run)), H.
    + apply (IH 0%nat), H.
Qed.

Lemma tidy_eq md :
  tidy md = trim (loopC [] (loopS [] md)) ++ [10].
Proof. reflexivity. Qed.

Lemma tidy_feeds_bounded md : feeds_bounded 0 (tidy md) = true.
Proof.
  rewrite tidy_eq.
  pose proof (loopC_feeds_bounded _ (loopS [] md) [] 0%nat (Nat.le_refl _)
                (or_introl eq_refl)) as H.
  destruct (trim_infix (loopC [] (loopS [] md))) as (u & v & E).
  rewrite E in H. apply feeds_bounded_suffix in H.
  apply feeds_bounded_prefix in H.
  apply feeds_bounded_snoc; [exact H|].
  pose proof (trim_last (loopC [] (loopS [] md))) as L.
  destruct (rev (trim (loopC [] (loopS [] md)))); [lia | exact L].
Qed.

(** Where no line ends in a blank, stripping changes nothing. *)
Lemma blanks_go_on t :
  trailing_blank_free t = true ->
  match t with d :: _ => is_line_terminator d = false | [] => False end ->
  eol (snd (span is_blank t)) = false.
Proof.
  induction t as [|c t IH]; intros H Hd; [contradiction|].
  cbn [span]. destruct (is_blank c) eqn:Hc; cbn [snd eol]; [|exact Hd].
  cbn [trailing_blank_free] in H. rewrite Hc in H. cbn [negb orb] in H.
  apply andb_true_iff in H. destruct H as [H1 H2].
  apply IH; [exact H2|]. destruct t as [|d t]; [discriminate|].
  apply negb_true_iff, H1.
Qed.

Lemma loopS_fixed s : forall before,
  trailing_blank_free s = true -> loopS before s = s.
Proof.
  induction s as [|c t IH]; intros before H; [reflexivity|].
  cbn [trailing_blank_free] in H. apply andb_true_iff in H.
  destruct H as [H1 H2].
  rewrite TrailingForm.loopS_miss; [rewrite IH by exact H2; reflexivity|].
  destruct (is_blank c); [|reflexivity]. cbn [negb orb andb] in *.
  apply blanks_go_on; [exact H2|].
  destruct t as [|d t]; [discriminate|]. apply negb_true_iff, H1.
Qed.

Lemma loopC_fixed s : forall before run,
  feeds_bounded run s = true -> loopC before s = s.
Proof.
  induction s as [|c t IH]; intros before run H; [reflexivity|].
  rewrite TrailingForm.loopC_miss_exec.
  - f_equal. cbn [feeds_bounded] in H. destruct (c =? 10).
    + apply andb_true_iff in H. apply (IH _ (S run)), H.
    + apply (IH _ 0%nat), H.
  - rewrite TrailingForm.exec_blank_lines.
    destruct t as [|b [|d t']]; try reflexivity.
    pose proof (feeds_bounded_includes _ _ H) as I.
    change (js "\n\n\n") with [10; 10; 10] in I. cbn [includes] in I.
    apply orb_false_iff in I. destruct I as [I _]. cbn [startsWith] in I.
    rewrite Fences.startsWith_nil, andb_true_r, andb_assoc in I.
    rewrite I. reflexivity.
Qed.

Lemma tidy_trailing_blank_free md : trailing_blank_free (tidy md) = true.
Proof.
  rewrite tidy_eq. apply TrailingForm.trim_trailing_blank_free.
  apply (TrailingForm.loopC_trailing_blank_free _ _ _ (Nat.le_refl _)).
  apply (TrailingForm.loopS_trailing_blank_free _ _ _ (Nat.le_refl _)).
Qed.

(** The clean-up is idempotent. *)
Lemma tidy_idem md : tidy (tidy md) = tidy md.
Proof.
  rewrite (tidy_eq (tidy md)).
  rewrite loopS_fixed by apply tidy_trailing_blank_free.
  rewrite (loopC_fixed _ _ 0%nat) by apply tidy_feeds_bounded.
  rewrite tidy_eq. rewrite trim_snoc_newline. reflexivity.
Qed.

End Tidy.

(** * A bold line anywhere in a document *)

Module BoldAnywhere.
Import BoldIdem.

Local Open Scope N_scope.

Lemma forallb_false_split {A} (p : A -> bool) l :
  forallb p l = false ->
  exists u x v, l = u ++ x :: v /\ forallb p u = true /\ p x = false.
Proof.
  induction l as [|a l IH]; [discriminate|]. cbn [forallb].
  destruct (p a) eqn:E.
  - cbn [andb]. intros H. destruct (IH H) as (u & x & v & -> & Hu & Hx).
    exists (a :: u), x, v. cbn [forallb]. rewrite E. auto.
  - intros _. exists [], a, l. auto.
Qed.

Lemma span_at_stop p u x v :
  forallb p u = true -> p x = false -> span p (u ++ x :: v) = (u, x :: v).
Proof. intros Hu Hx. apply Headings.span_app_stop; assumption. Qed.

Lemma eol_split_some r : eol r = true -> eol_split r <> None.
Proof.
  destruct r as [|c r]; [discriminate|]. cbn [eol eol_split]. intros H.
  rewrite (BoldLine.terminator_is_space c H), H.
  destruct (eol_split r) as [[w r']|]; discriminate.
Qed.

Lemma bold_view_build w1 t r w3 r' :
  forallb is_space w1 = true -> t <> [] -> forallb text_char t = true ->
  eol_split r = Some (w3, r') ->
  bold_view (w1 ++ 42 :: 42 :: t ++ 42 :: 42 :: r) = Some (w1, t, w3, r').
Proof.
  intros Hw Hne Ht Hr. unfold bold_view. cbv zeta.
  rewrite (span_at_stop is_space w1 42 _ Hw eq_refl). cbn [fst snd].
  rewrite (span_at_stop text_char t 42 _ Ht eq_refl). cbn [fst snd].
  destruct t as [|x t]; [contradiction|].
  cbn [N.eqb Pos.eqb andb length Nat.leb]. rewrite Hr. reflexivity.
Qed.

Lemma at_line_start_snoc p c : at_line_start (p ++ [c]) = (c =? 10).
Proof. unfold at_line_start. rewrite rev_app_distr. reflexivity. Qed.

Lemma at_line_start_cons c p :
  p <> [] -> at_line_start (c :: p) = at_line_start p.
Proof.
  intros H. unfold at_line_start. cbn [rev].
  destruct (rev p) as [|x y] eqn:E; [|reflexivity].
  apply (f_equal (@rev char)) in E. rewrite rev_involutive in E. contradiction.
Qed.

Lemma at_line_start_app u v :
  v <> [] -> at_line_start (u ++ v) = at_line_start v.
Proof.
  intros H. induction u as [|c u IH]; [reflexivity|].
  cbn [app]. rewrite at_line_start_cons; [exact IH|].
  destruct u; [exact H | discriminate].
Qed.

(** A text that ends with a line feed is not made of text code units. *)
Lemma line_not_text q :
  q <> [] -> at_line_start q = true -> forallb text_char q = false.
Proof.
  intros Hne H. destruct (exists_last Hne) as (q0 & c & ->).
  rewrite at_line_start_snoc in H. apply N.eqb_eq in H. subst c.
  rewrite forallb_app. cbn. apply andb_false_r.
Qed.

Lemma text_char_stop x : text_char x = false -> x = 42 \/ x = 10.
Proof.
  unfold text_char, none_of, one_of. cbn [existsb].
  destruct (N.eqb_spec x 42); [auto|]. destruct (N.eqb_spec x 10); [auto|].
  discriminate.
Qed.

Lemma eol_split_before s : forall B w3 r',
  match B with c :: _ => is_space c = false | [] => False end ->
  eol_split (s ++ B) = Some (w3, r') ->
  exists q4, q4 <> [] /\ s = w3 ++ q4 /\ r' = q4 ++ B.
Proof.
  induction s as [|c s IH]; intros B w3 r' HB H.
  - destruct B as [|b B]; [contradiction|]. cbn [app eol_split] in H.
    rewrite HB in H. discriminate.
  - cbn [app eol_split] in H. destruct (is_space c) eqn:Hc; [|discriminate].
    destruct (eol_split (s ++ B)) as [[w r]|] eqn:E.
    + inversion H; subst. destruct (IH _ _ _ HB E) as (q4 & Hne & -> & ->).
      exists q4. auto.
    + destruct (is_line_terminator c); [|discriminate]. inversion H; subst.
      exists (c :: s). split; [discriminate | auto].
Qed.

(** The two scans behind a match. *)
Lemma bold_view_spans s w1 t w3 r :
  bold_view s = Some (w1, t, w3, r) ->
  exists s2 s4,
    span is_space s = (w1, 42 :: 42 :: s2) /\
    span text_char s2 = (t, 42 :: 42 :: s4) /\
    t <> [] /\ eol_split s4 = Some (w3, r).
Proof.
  unfold bold_view. cbv zeta.
  destruct (span is_space s) as [w0 s1]. cbn [fst snd].
  destruct s1 as [|a [|b s2]]; try discriminate.
  destruct (span text_char s2) as [t0 s3] eqn:S2. cbn [fst snd].
  destruct s3 as [|c [|d s4]]; try discriminate.
  destruct (N.eqb_spec a 42) as [->|]; [|discriminate].
  destruct (N.eqb_spec b 42) as [->|]; [|discriminate].
  destruct t0 as [|x t0]; [discriminate|].
  destruct (N.eqb_spec c 42) as [->|]; [|discriminate].
  destruct (N.eqb_spec d 42) as [->|]; [|discriminate].
  cbn [andb length Nat.leb].
  destruct (eol_split s4) as [[w3' r']|] eqn:E; [|discriminate].
  intros H. injection H as <- <- <- <-.
  exists s2, s4. split; [reflexivity|]. split; [exact S2|].
  split; [discriminate | exact E].
Qed.

(** A match that begins in the text before a bold line either is that
    line, the text before it being white space, or ends before the last
    code unit of that text. *)
Lemma bold_view_align q t r w1 t' w3 r' :
  at_line_start q = true -> t <> [] -> forallb text_char t = true ->
  bold_view (q ++ 42 :: 42 :: t ++ 42 :: 42 :: r) = Some (w1, t', w3, r') ->
  (w1 = q /\ t' = t /\ eol_split r = Some (w3, r')) \/
  (exists q4, q4 <> [] /\
     q = w1 ++ 42 :: 42 :: t' ++ 42 :: 42 :: w3 ++ q4 /\
     r' = q4 ++ 42 :: 42 :: t ++ 42 :: 42 :: r).
Proof.
  intros Hq Hne Ht V.
  destruct (bold_view_spans _ _ _ _ _ V) as (s2 & s4 & S1 & S2 & Ne' & E).
  destruct (forallb is_space q) eqn:Sq.
  - left. rewrite (span_at_stop is_space q 42 _ Sq eq_refl) in S1.
    injection S1 as <- <-.
    rewrite (span_at_stop text_char t 42 _ Ht eq_refl) in S2.
    injection S2 as <- <-. auto.
  - right. destruct (forallb_false_split _ _ Sq) as (u & x & v & Eq & Hu & Hx).
    subst q. rewrite <- app_assoc in S1. cbn [app] in S1.
    rewrite (span_at_stop is_space u x _ Hu Hx) in S1.
    injection S1 as <- -> S1.
    assert (Hv : v <> [] -> at_line_start v = true).
    { intros N. rewrite <- Hq.
      change (u ++ 42 :: v) with (u ++ [42] ++ v).
      rewrite app_assoc. symmetry. apply at_line_start_app, N. }
    destruct v as [|y v].
    { (* the second star would be the first of the bold line *)
      cbn [app] in S1. injection S1 as <-.
      cbn [span] in S2. change (text_char 42) with false in S2.
      injection S2 as <- _. contradiction. }
    cbn [app] in S1. injection S1 as -> <-.
    destruct v as [|z v].
    { cbn [app span] in S2. change (text_char 42) with false in S2.
      injection S2 as <- _. contradiction. }
    specialize (Hv ltac:(discriminate)).
    assert (Hz : at_line_start (z :: v) = true).
    { rewrite <- Hv. symmetry. apply at_line_start_cons. discriminate. }
    pose proof (line_not_text (z :: v) ltac:(discriminate) Hz) as Nt.
    destruct (forallb_false_split _ _ Nt) as (u2 & x2 & v2 & Ev & Hu2 & Hx2).
    rewrite Ev in S2. rewrite <- app_assoc in S2. cbn [app] in S2.
    rewrite (span_at_stop text_char u2 x2 _ Hu2 Hx2) in S2.
    injection S2 as <- -> S2.
    destruct v2 as [|y2 v2].
    { (* the closing marker would end with the first star of the bold line *)
      cbn [app] in S2. injection S2 as <-.
      cbn [eol_split] in E. change (is_space 42) with false in E.
      discriminate. }
    cbn [app] in S2. injection S2 as -> <-.
    destruct (eol_split_before v2 (42 :: 42 :: t ++ 42 :: 42 :: r) _ _
                eq_refl E) as (q4 & N4 & -> & ->).
    exists q4. split; [exact N4|]. split; [|reflexivity].
    change (42 :: 42 :: z :: v) with ([42; 42] ++ z :: v). rewrite Ev.
    cbn [app]. rewrite <- ?app_assoc. reflexivity.
Qed.

(** What follows the heading begins like what followed the bold line. *)
Lemma loopE_after_heading b r w3 r' :
  eol r = true -> eol_split r = Some (w3, r') ->
  firstn 1 (w3 ++ loopE (rev w3 ++ 42 :: b) r') = firstn 1 r.
Proof.
  intros Hr E. destruct (eol_split_inv _ _ _ E) as (Er & _ & _).
  destruct w3 as [|c w3]; [|rewrite Er; reflexivity].
  cbn [app rev] in *. subst r'.
  destruct r as [|c r]; [rewrite loopE_nil; reflexivity|].
  rewrite loopE_inside by reflexivity. reflexivity.
Qed.

Lemma eol_feed r : at_line_end r = true -> eol r = true.
Proof.
  destruct r as [|c r]; [reflexivity|]. cbn [at_line_end eol].
  intros H. apply N.eqb_eq in H. subst c. reflexivity.
Qed.

Lemma loopE_reaches_line t r (n : nat) : forall q before,
  (length q <= n)%nat ->
  (q = [] -> line_start before = true) ->
  at_line_start q = true ->
  t <> [] -> forallb text_char t = true -> eol r = true ->
  exists X out,
    loopE before (q ++ 42 :: 42 :: t ++ 42 :: 42 :: r) =
      X ++ (35 :: 35 :: 35 :: 32 :: t) ++ out /\
    length X = length q /\
    at_line_start X = true /\
    firstn 1 out = firstn 1 r.
Proof.
  induction n as [|n IH]; intros q before Hn Hb Hq Hne Ht Hr.
  - destruct q; [|simpl in Hn; lia].
    destruct (eol_split r) as [[w3 r']|] eqn:E;
      [|exfalso; apply (eol_split_some r Hr E)].
    pose proof (bold_view_build [] t r w3 r' eq_refl Hne Ht E) as V.
    cbn [app] in *. rewrite (loopE_hit _ _ _ _ _ _ (Hb eq_refl) V).
    eexists [], _. split; [reflexivity|].
    split; [reflexivity|]. split; [reflexivity|].
    apply loopE_after_heading; assumption.
  - set (S := q ++ 42 :: 42 :: t ++ 42 :: 42 :: r).
    destruct (line_start before && bold_shape S) eqn:D.
    + apply andb_true_iff in D. destruct D as [Ls Bs].
      unfold bold_shape in Bs.
      destruct (bold_view S) as [[[[w1 t'] w3] r']|] eqn:V; [|discriminate].
      rewrite (loopE_hit _ _ _ _ _ _ Ls V).
      destruct (bold_view_align q t r w1 t' w3 r' Hq Hne Ht V)
        as [(-> & -> & E)|(q4 & N4 & Eq & ->)].
      * eexists q, _. split; [reflexivity|].
        split; [reflexivity|]. split; [exact Hq|].
        apply loopE_after_heading; assumption.
      * assert (L4 : (length q4 <= n)%nat).
        { rewrite Eq in Hn. rewrite !length_app in Hn. cbn [length] in Hn.
          rewrite !length_app in Hn. cbn [length] in Hn.
          rewrite !length_app in Hn. lia. }
        assert (H4 : at_line_start q4 = true).
        { rewrite <- Hq, Eq.
          change (w1 ++ 42 :: 42 :: t' ++ 42 :: 42 :: w3 ++ q4)
            with (w1 ++ (42 :: 42 :: t' ++ 42 :: 42 :: w3 ++ q4)).
          rewrite at_line_start_app by discriminate.
          change (42 :: 42 :: t' ++ 42 :: 42 :: w3 ++ q4)
            with ([42; 42] ++ t' ++ [42; 42] ++ w3 ++ q4).
          rewrite !app_assoc. rewrite at_line_start_app by exact N4.
          reflexivity. }
        destruct (IH q4 (rev w3 ++ 42 :: 42 :: rev t' ++ 42 :: 42 :: rev w1 ++ before)
                    L4 (fun N => match N4 N with end) H4 Hne Ht Hr)
          as (X & out & E & LX & SX & Fo).
        rewrite E.
        exists (w1 ++ (35 :: 35 :: 35 :: 32 :: t') ++ w3 ++ X), out.
        split; [rewrite <- !app_assoc; reflexivity|].
        split.
        { rewrite Eq. repeat (rewrite length_app; cbn [length app]).
          unfold jsstring, char in *. lia. }
        split; [|exact Fo].
        assert (NX : X <> []).
        { intros ->. destruct q4; [contradiction | discriminate]. }
        rewrite !app_assoc. rewrite at_line_start_app by exact NX. exact SX.
    + destruct q as [|c q].
      * exfalso. rewrite (Hb eq_refl) in D. cbn [andb] in D.
        destruct (eol_split r) as [[w3 r']|] eqn:E;
          [|apply (eol_split_some r Hr E)].
        pose proof (bold_view_build [] t r w3 r' eq_refl Hne Ht E) as V.
        unfold bold_shape, S in D. rewrite V in D. discriminate.
      * unfold S in *. clear S. cbn [app] in *.
        rewrite (loopE_miss before c _ D).
        assert (Hq' : at_line_start q = true).
        { destruct q as [|d q]; [reflexivity|].
          rewrite <- Hq. symmetry. apply at_line_start_cons. discriminate. }
        destruct (IH q (c :: before)) as (X & out & E & LX & SX & Fo);
          try assumption.
        { simpl in Hn. lia. }
        { intros ->. unfold at_line_start in Hq. cbn in Hq.
          apply N.eqb_eq in Hq. subst c. reflexivity. }
        rewrite E. exists (c :: X), out. split; [reflexivity|].
        split; [cbn [length]; lia|]. split; [|exact Fo].
        destruct X as [|x X].
        -- destruct q; [exact Hq | discriminate].
        -- rewrite at_line_start_cons by discriminate. exact SX.
Qed.

Lemma text_char_free t :
  free_of 42 t = true -> free_of 10 t = true -> forallb text_char t = true.
Proof.
  unfold free_of. intros H1 H2. rewrite forallb_forall in *. intros x Hx.
  specialize (H1 x Hx). specialize (H2 x Hx).
  unfold text_char, none_of, one_of. cbn [existsb].
  apply negb_true_iff in H1, H2. rewrite H1, H2. reflexivity.
Qed.

(** Step 1 turns a bold line into a heading wherever the line stands. *)
Lemma fixEmphasisHeading_line p t r :
  t <> [] -> free_of 42 t = true -> free_of 10 t = true ->
  at_line_start p = true -> at_line_end r = true ->
  exists X out,
    fixEmphasisHeading (p ++ bold t ++ r) = X ++ js "### " ++ t ++ out /\
    length X = length p /\
    at_line_start X = true /\
    at_line_end out = true.
Proof.
  intros Hne H1 H2 Hp Hr.
  destruct (loopE_reaches_line t r (length p) p [] (Nat.le_refl _)
              (fun _ => eq_refl) Hp Hne (text_char_free t H1 H2) (eol_feed r Hr))
    as (X & out & E & LX & SX & Fo).
  exists X, out. split.
  - unfold bold. rewrite <- !app_assoc. exact E.
  - split; [exact LX|]. split; [exact SX|].
    destruct r as [|c r]; destruct out as [|d out]; try discriminate;
      try reflexivity.
    cbn [firstn] in Fo. inversion Fo. subst. exact Hr.
Qed.

End BoldAnywhere.

(** * The first fence of a document *)

Module FirstFence.

Local Open Scope N_scope.


Lemma free_of_app c u v : free_of c (u ++ v) = free_of c u && free_of c v.
Proof. apply forallb_app. Qed.


End FirstFence.

(** * The component *)

Module ComponentFacts.
Import Component.

Section Facts.

Variable parseFromString : jsstring -> list node.
Variable serialize : list node -> jsstring.
Variable translate : jsstring -> jsstring.
Variable reparse : jsstring -> jsstring.

Let conv := convertToMarkdown parseFromString serialize translate.
Let load := autoLoadSelection parseFromString serialize translate reparse.
Let input := handleInput parseFromString serialize translate.

Lemma convert_trailing html md :
  conv html = Some md -> ends_with_single_newline md = true.
Proof.
  unfold conv, convertToMarkdown, postProcessMarkdown. cbv zeta.
  destruct (cleanup (parseFromString html)); [|discriminate].
  intros H. inversion H. apply TrailingForm.trim_ends_with_single_newline.
Qed.

Lemma convert_not_empty html md : conv html = Some md -> md <> [].
Proof.
  intros H E. apply convert_trailing in H. rewrite E in H. discriminate.
Qed.

Lemma truthyResult_not_empty results html :
  truthyResult results = Some html -> html <> [].
Proof.
  unfold truthyResult. destruct results as [|[[|c h]|] ?]; try discriminate.
  intros H. inversion H. discriminate.
Qed.

(** Every run of [autoLoadSelection] ends in one of seven ways. *)
Lemma autoLoadSelection_outcome pf s : outcome conv pf s (after (load pf) s).
Proof.
  unfold after, load, autoLoadSelection.
  destruct (chrome pf) as [[[q|] [e|]]|]; try apply NoExtension.
  unfold try_catch, bind, setStatus, await, ret, throw. cbn [fst snd].
  destruct q as [tabs|]; cbn; [|apply Failed].
  destruct (truthyId tabs) as [tabId|]; cbn; [|apply NoTab].
  destruct (e tabId) as [results|]; cbn; [|apply Failed].
  destruct (truthyResult results) as [html|] eqn:R; cbn; [|apply NoSelection].
  pose proof (truthyResult_not_empty _ _ R) as Hne.
  unfold convert. fold conv.
  destruct (conv html) as [md|] eqn:C; cbn.
  - unfold clipboardWriteText. cbn.
    destruct (writeText pf md) eqn:W; cbn.
    + apply (Copied conv pf s html md _ _ Hne C W).
    + apply (NotCopied conv pf s html md _ _ Hne C W).
  - apply (NotConverted conv pf s html _ Hne C).
Qed.

Lemma autoLoadSelection_copied pf s :
  status (after (load pf) s) = copied ->
  clipboard (after (load pf) s) = markdownOutput (after (load pf) s) /\
  ends_with_single_newline (markdownOutput (after (load pf) s)) = true /\
  timers (after (load pf) s) = timers s ++ [(3000, idle)].
Proof.
  destruct (autoLoadSelection_outcome pf s)
    as [| | | | |html md e o Hne C W|]; cbn [status]; try discriminate.
  intros _. cbn [clipboard markdownOutput timers].
  split; [reflexivity|].
  split; [apply (convert_trailing html md C) | reflexivity].
Qed.

Lemma autoLoadSelection_quiet pf s :
  status (after (load pf) s) <> copied ->
  status (after (load pf) s) <> copy_failed ->
  status (after (load pf) s) <> scanning /\
  markdownOutput (after (load pf) s) = markdownOutput s /\
  outputRef (after (load pf) s) = outputRef s /\
  clipboard (after (load pf) s) = clipboard s /\
  timers (after (load pf) s) = timers s /\
  (status (after (load pf) s) <> error ->
   editorRef (after (load pf) s) = editorRef s).
Proof.
  destruct (autoLoadSelection_outcome pf s); cbn [status];
    intros Hcopied Hfailed; try contradiction;
    (split; [discriminate|]);
    cbn [markdownOutput outputRef clipboard timers editorRef];
    (split; [reflexivity|]); (split; [reflexivity|]);
    (split; [reflexivity|]); (split; [reflexivity|]);
    intros Herror; try reflexivity; contradiction.
Qed.

(** When the conversion of the selection throws, the editor already shows
    the selection, and the run ends with the status [error]. *)
Lemma autoLoadSelection_not_converted pf s q e tabs tabId results html ed :
  chrome pf = Some (Chrome (Some q) (Some e)) ->
  q = Fulfilled tabs -> truthyId tabs = Some tabId ->
  e tabId = Fulfilled results -> truthyResult results = Some html ->
  conv html = None ->
  editorRef s = Some ed ->
  status (after (load pf) s) = error /\
  editorRef (after (load pf) s) = Some (Element_ (reparse html) 0) /\
  markdownOutput (after (load pf) s) = markdownOutput s /\
  clipboard (after (load pf) s) = clipboard s.
Proof.
  intros Hc -> Ht He Hr C Hed.
  unfold after, load, autoLoadSelection. rewrite Hc.
  unfold try_catch, bind, setStatus, await, ret, throw. cbn [fst snd].
  rewrite Ht. cbn. rewrite He. cbn. rewrite Hr. cbn.
  unfold convert. fold conv. rewrite C. cbn. rewrite Hed. auto.
Qed.


(** An input event whose conversion returns. *)
Lemma handleInput_output s e md :
  editorRef s = Some e ->
  conv (innerHTML e) = Some md ->
  fst (input s) = Some tt /\
  markdownOutput (after input s) = md /\
  saveDisabled (after input s) = false /\
  ends_with_single_newline (contents (downloadMarkdown (after input s)))
    = true.
Proof.
  intros H C. unfold after, input, handleInput. rewrite H.
  unfold bind, convert. fold conv. rewrite C.
  cbn [ret setMarkdownOutput fst snd markdownOutput downloadMarkdown contents].
  split; [reflexivity|]. split; [reflexivity|].
  split; [|apply (convert_trailing _ _ C)].
  unfold saveDisabled. cbn [markdownOutput].
  pose proof (convert_not_empty _ _ C) as N.
  destruct md; [contradiction | reflexivity].
Qed.

(** An input event whose conversion throws: the handler throws and the
    state is as it was. *)
Lemma handleInput_throws s e :
  editorRef s = Some e ->
  conv (innerHTML e) = None ->
  input s = (None, s).
Proof.
  intros H C. unfold input, handleInput. rewrite H.
  unfold bind, convert. fold conv. rewrite C. reflexivity.
Qed.

End Facts.

End ComponentFacts.

(** * Properties *)

(** ** Language detection *)

(** C5: [detectLanguage] names [javascript] for the two-line console
    snippet, [shell] for [git status] and [json] for a one-member object
    literal. *)
Theorem C5_detectLanguage_examples :
  detectLanguage (js "const x = 1;\nconsole.log(x);") = js "javascript" /\
  detectLanguage (js "git status") = js "shell" /\
  detectLanguage (js "{\x22a\x22:1}") = js "json".
Proof. repeat split; vm_compute; reflexivity. Qed.

(** ** The rewrites inside a fenced block *)

(** C10: the line rewrites also fire inside a fenced code block: the code
    line [**x**] becomes [### x] and the code line [5. item] becomes
    [1. item]. *)
Theorem C10_rewrites_reach_code_lines :
  postProcessMarkdown
    (unlines [js "```text"; js "**x**"; js "5. item"; js "```"]) =
  unlines [js "```text"; js "### x"; js "1. item"; js ""; js "```"; js ""].
Proof. vm_compute. reflexivity. Qed.

(** ** List indentation *)

(** C3: a list line indented by two spaces is moved to four spaces by the
    first replacement of the re-indent step and then, now matching the
    second replacement, on to eight spaces. *)
Theorem C3_two_space_item_lands_on_eight :
  fixIndent2 (js "- a\n  - b") = js "- a\n    - b" /\
  fixIndentation (js "- a\n  - b") = js "- a\n        - b" /\
  fixIndentation (js "- a\n    - b") = js "- a\n        - b" /\
  postProcessMarkdown (js "- a\n  - b") = js "- a\n        - b\n".
Proof. repeat split; vm_compute; reflexivity. Qed.

(** ** The facade on a code block *)

(** C4: on the Python block, once the parser yields the [pre]/[code] pair
    and the translator emits the fenced block with the tag read from the
    class, the facade returns the block with a blank line before its closing
    fence. *)
Theorem C4_python_block_gets_blank_line_before_closing_fence
  (parseFromString : jsstring -> list node)
  (innerHTML : list node -> jsstring)
  (translate : jsstring -> jsstring)
  (Hparse : parseFromString (js "<pre><code>def f():\n    pass</code></pre>")
            = [pre_code [] [] (js "def f():\n    pass")])
  (Htranslate :
     translate (innerHTML [pre_code [] (js "language-python")
                                    (js "def f():\n    pass")])
     = js "```python\ndef f():\n    pass\n```") :
  convertToMarkdown parseFromString innerHTML translate
    (js "<pre><code>def f():\n    pass</code></pre>")
  = Some (js "```python\ndef f():\n    pass\n\n```\n").
Proof.
  unfold convertToMarkdown. rewrite Hparse.
  replace (cleanup [pre_code [] [] (js "def f():\n    pass")])
    with (Some [pre_code [] (js "language-python") (js "def f():\n    pass")])
    by (vm_compute; reflexivity).
  cbv zeta. rewrite Htranslate. vm_compute. reflexivity.
Qed.

Lemma C4_python_block_witness :
  convertToMarkdown
    (fun _ => [pre_code [] [] (js "def f():\n    pass")])
    (fun _ => [])
    (fun _ => js "```python\ndef f():\n    pass\n```")
    (js "<pre><code>def f():\n    pass</code></pre>")
  = Some (js "```python\ndef f():\n    pass\n\n```\n").
Proof.
  apply C4_python_block_gets_blank_line_before_closing_fence; reflexivity.
Defined.

(** The Turndown-based facade, whose rule [fencedCodeBlock] emits the block
    and whose clean-up has no fence rewrite, returns the block as it is. *)
Lemma turndown_python_block (turndown : jsstring -> jsstring) :
  turndown (js "<pre><code>def f():\n    pass</code></pre>")
    = Turndown.fencedCodeBlock (js "def f():\n    pass") [] ->
  Turndown.convertToMarkdown turndown
    (js "<pre><code>def f():\n    pass</code></pre>")
  = js "```python\ndef f():\n    pass\n```\n".
Proof.
  intros H. unfold Turndown.convertToMarkdown. rewrite H.
  vm_compute. reflexivity.
Qed.

(** ** Language tags after the clean-up *)

(** C9: a [code] element with a class that names no language, inside a
    [pre] annotated [language-python], receives an inferred tag of its own
    (the annotation of the container is only looked at when the [code]
    element has no class at all); an annotation on the [code] element is
    kept, and a [code] element without text receives the tag [text]. *)
Theorem C9_container_annotation_is_shadowed :
  cleanup [pre_code (js "language-python") (js "hljs") (js "print(1)")] =
  Some [pre_code (js "language-python") (js "hljs language-shell")
          (js "print(1)")] /\
  cleanup [pre_code (js "language-python") [] (js "print(1)")] =
  Some [pre_code (js "language-python") [] (js "print(1)")] /\
  cleanup [pre_code [] (js "hljs lang-py") (js "\nprint(1)\n")] =
  Some [pre_code [] (js "hljs lang-py") (js "print(1)")] /\
  cleanup [pre_code [] [] (js " \n")] =
  Some [Element (js "pre") [] []
          [Element (js "code") (js "language-text") [] []]].
Proof. repeat split; vm_compute; reflexivity. Qed.

(** ** Blank lines around fences *)




(** ** The trailing form of the facade's output *)



(** ** Bold paragraphs *)

(** C8, as stated, fails: a paragraph that is wrapped in strong-emphasis
    markers and holds an asterisk between them is left as it is by both
    facades. *)
Lemma C8_counterexample :
  Turndown.emphasisHeading (js "**a *b* c**") = js "\n\n**a *b* c**\n\n" /\
  fixEmphasisHeading (js "**a *b* c**") = js "**a *b* c**" /\
  postProcessMarkdown (js "**a *b* c**") = js "**a *b* c**\n".
Proof. repeat split; vm_compute; reflexivity. Qed.

(** C8, amended: a non-empty text [t] without asterisks between
    strong-emphasis markers becomes a level-3 heading with the markers
    stripped.  The rule [emphasisHeading] of the Turndown-based facade does
    so for a paragraph whose trimmed content is the marked text and is
    shorter than 100 code units.  Step 1 of the post-processor of
    src/App.tsx does so for a line that consists of the marked text, [t]
    holding no line feed, wherever the line stands in the document: the
    output has the line [### t] at the same place.  In particular
    [**Section Title**] becomes [### Section Title], alone or between other
    paragraphs. *)
Theorem C8_bold_paragraph_becomes_heading (t : jsstring)
  (Hne : t <> []) (Hstar : free_of 42%N t = true) :
  (forall content,
     trim content = bold t -> (length (trim content) < 100)%nat ->
     Turndown.emphasisHeading content = js "\n\n### " ++ t ++ js "\n\n") /\
  (forall p r,
     free_of 10%N t = true ->
     at_line_start p = true -> at_line_end r = true ->
     exists before after,
       fixEmphasisHeading (p ++ bold t ++ r) =
         before ++ js "### " ++ t ++ after /\
       length before = length p /\
       at_line_start before = true /\
       at_line_end after = true) /\
  Turndown.emphasisHeading (js "**Section Title**")
    = js "\n\n### Section Title\n\n" /\
  postProcessMarkdown (js "**Section Title**") = js "### Section Title\n" /\
  postProcessMarkdown (js "Intro\n\n**Section Title**\n\nBody")
    = js "Intro\n\n### Section Title\n\nBody\n".
Proof.
  split; [|split; [|split; [|split]]].
  - intros content Htrim Hlen.
    apply (Headings.emphasisHeading_promotes content t Htrim Hne Hstar Hlen).
  - intros p r Hnl Hp Hr.
    apply (BoldAnywhere.fixEmphasisHeading_line p t r Hne Hstar Hnl Hp Hr).
  - vm_compute. reflexivity.
  - vm_compute. reflexivity.
  - vm_compute. reflexivity.
Qed.

Lemma C8_bold_paragraph_witness :
  Turndown.emphasisHeading (js "  **Section Title** \n")
    = js "\n\n### " ++ js "Section Title" ++ js "\n\n" /\
  exists before after,
    fixEmphasisHeading
      (js "Intro\n\n" ++ bold (js "Section Title") ++ js "\n\nBody") =
      before ++ js "### " ++ js "Section Title" ++ after /\
    length before = length (js "Intro\n\n") /\
    at_line_start before = true /\
    at_line_end after = true.
Proof.
  assert (Hne : js "Section Title" <> []) by discriminate.
  destruct (C8_bold_paragraph_becomes_heading (js "Section Title") Hne eq_refl)
    as (H1 & H2 & _).
  split.
  - apply H1; [reflexivity | vm_compute; lia].
  - apply H2; reflexivity.
Defined.

(** ** Ordered-list markers *)



(** ** Running the post-processor twice *)

(** C1, as stated, fails: the line feed that the first run appends lets the
    renumbering rewrite match in the second run. *)
Lemma C1_counterexample :
  postProcessMarkdown (js "11.") = js "11.\n" /\
  postProcessMarkdown (postProcessMarkdown (js "11.")) = js "1.\n" /\
  postProcessMarkdown (postProcessMarkdown (js "11."))
    <> postProcessMarkdown (js "11.").
Proof.
  split; [vm_compute; reflexivity|]. split; [vm_compute; reflexivity|].
  vm_compute. discriminate.
Qed.

(** Steps 1 and 5 are not idempotent on their own either. *)
Lemma emphasis_and_fence_steps_not_idempotent :
  fixEmphasisHeading (fixEmphasisHeading (js "**a\r**b**\r**"))
    <> fixEmphasisHeading (js "**a\r**b**\r**") /\
  fixFences (fixFences (js "a\n```\n```\nx")) <> fixFences (js "a\n```\n```\nx").
Proof. split; vm_compute; discriminate. Qed.

(** C1, amended: the renumbering rewrite, the two re-indenting rewrites, the
    rewrite of escaped periods and the final trimming step are each
    idempotent; the output of the post-processor is a fixed point of the
    final step; and a second run of the post-processor changes nothing
    whenever the output of the first run is settled: no line of it is
    bold-only text, its ordered markers are all the literal one, no list
    marker is indented by exactly two or four spaces, no heading number has
    an escaped period, and no fence is crowded by a neighbouring line. *)
Theorem C1_idempotent_rewrites (md : jsstring) :
  fixOrderedPrefix (fixOrderedPrefix md) = fixOrderedPrefix md /\
  fixIndent2 (fixIndent2 md) = fixIndent2 md /\
  fixIndent4 (fixIndent4 md) = fixIndent4 md /\
  fixEscapedPeriod (fixEscapedPeriod md) = fixEscapedPeriod md /\
  fixTrailingNewline (fixTrailingNewline md) = fixTrailingNewline md /\
  fixTrailingNewline (postProcessMarkdown md) = postProcessMarkdown md /\
  (settled (postProcessMarkdown md) = true ->
   postProcessMarkdown (postProcessMarkdown md) = postProcessMarkdown md).
Proof.
  repeat split.
  - apply Ordered.fixOrderedPrefix_idem.
  - apply Indent.fixIndent2_idem.
  - apply Indent.fixIndent4_idem.
  - apply HeadingNumber.fixEscapedPeriod_idem.
  - unfold fixTrailingNewline. rewrite trim_snoc_newline. reflexivity.
  - unfold fixTrailingNewline, postProcessMarkdown.
    rewrite trim_snoc_newline. reflexivity.
  - apply Settled.settled_fixed.
Qed.

Lemma C1_settled_witness :
  settled (postProcessMarkdown (js "# T\n\n3. a\n  - c\n\n**B**\n```js\nx\n```\nz")) = true /\
  postProcessMarkdown (postProcessMarkdown (js "# T\n\n3. a\n  - c\n\n**B**\n```js\nx\n```\nz"))
  = postProcessMarkdown (js "# T\n\n3. a\n  - c\n\n**B**\n```js\nx\n```\nz").
Proof.
  split; [vm_compute; reflexivity|].
  apply (C1_idempotent_rewrites (js "# T\n\n3. a\n  - c\n\n**B**\n```js\nx\n```\nz")).
  vm_compute. reflexivity.
Defined.

(** * Further properties of the code *)

(** ** Language detection *)

(** X1: [detectLanguage] returns one of seven names; the name is never
    empty and consists of word characters only. *)
Theorem X1_detectLanguage_names (code : jsstring) :
  In (detectLanguage code) languages /\
  detectLanguage code <> [] /\
  forallb is_word (detectLanguage code) = true.
Proof.
  pose proof (Detect.detectLanguage_codomain code) as H.
  destruct (LanguageClass.languages_words _ H) as [Hne Hw]. auto.
Qed.

(** X2: [detectLanguage] answers [text] exactly for the code that consists
    of white space only (the empty string included). *)
Theorem X2_text_exactly_for_blank_code (code : jsstring) :
  detectLanguage code = js "text" <-> forallb is_space code = true.
Proof.
  rewrite Detect.detectLanguage_text. apply Detect.trim_nil_iff.
Qed.

(** X3: white space before and after the code does not change the
    language that is detected. *)
Theorem X3_surrounding_space_ignored (w1 code w2 : jsstring)
  (H1 : forallb is_space w1 = true) (H2 : forallb is_space w2 = true) :
  detectLanguage (w1 ++ code ++ w2) = detectLanguage code.
Proof. apply Detect.detectLanguage_pad; assumption. Qed.

Lemma X3_surrounding_space_witness :
  detectLanguage (js " \n\t" ++ js "body { margin: 0 }" ++ js "\n\n")
  = detectLanguage (js "body { margin: 0 }").
Proof. apply X3_surrounding_space_ignored; reflexivity. Defined.

(** X4: code whose first code unit after the leading white space is a
    dollar sign is labelled [shell], whatever follows. *)
Theorem X4_prompt_means_shell (code : jsstring)
  (H : startsWith (trim code) (js "$") = true) :
  detectLanguage code = js "shell".
Proof. apply Detect.detectLanguage_prompt, H. Qed.

Lemma X4_prompt_witness :
  detectLanguage (js "  $ python main.py\nimport os\nconsole.log(1)") = js "shell".
Proof. apply X4_prompt_means_shell. reflexivity. Defined.

(** X5: the keywords [import] and [class] stand in the JavaScript pattern
    and in the Python pattern; the JavaScript test comes first, so code that
    begins with one of them as a whole word is labelled [javascript], never
    [python]. *)
Theorem X5_shared_keywords_mean_javascript (code kw rest : jsstring)
  (Hkw : kw = js "import" \/ kw = js "class")
  (Htrim : trim code = kw ++ rest)
  (Hrest : match rest with c :: _ => is_word c = false | [] => True end) :
  detectLanguage code = js "javascript".
Proof. apply (Detect.detectLanguage_shared_keyword code kw rest); assumption. Qed.

Lemma X5_shared_keywords_witness :
  detectLanguage (js "import os\nfor k in os.environ:\n    print(k)")
  = js "javascript".
Proof.
  apply (X5_shared_keywords_mean_javascript _ (js "import")
           (js " os\nfor k in os.environ:\n    print(k)")).
  - left. reflexivity.
  - reflexivity.
  - reflexivity.
Defined.

(** X28: the labels [html], [json] and [css] are never given to code that
    lacks the brackets or braces they stand for: [html] only to code that,
    trimmed, begins with [<] and ends with [>], [json] only to code that
    begins with an opening and ends with a closing brace, [css] only to
    code that holds an opening brace. *)
Theorem X28_bracket_labels_are_sound (code : jsstring) :
  (detectLanguage code = js "html" ->
   startsWith (trim code) (js "<") = true /\
   endsWith (trim code) (js ">") = true) /\
  (detectLanguage code = js "json" ->
   startsWith (trim code) (js "{") = true /\
   endsWith (trim code) (js "}") = true) /\
  (detectLanguage code = js "css" ->
   includes (trim code) (js "{") = true).
Proof. apply Detect.detectLanguage_brackets. Qed.

(** ** The clean-up of the parsed document *)

(** X6: unwrapping the paragraphs of list items only moves nodes: the text
    of the tree is the same after it. *)
Theorem X6_unwrapping_keeps_text (n : node) :
  textContent (unwrapListParagraphs n) = textContent n.
Proof. apply Tree.unwrap_textContent. Qed.

(** X7: in a tree where no paragraph is the child of a paragraph, after the
    unwrapping no list item has a paragraph as a child. *)
Theorem X7_no_paragraph_left_in_list_items (n : node)
  (H : has_p_p n = false) :
  has_li_p (unwrapListParagraphs n) = false.
Proof. apply Tree.unwrap_no_li_p, H. Qed.

Lemma X7_no_paragraph_witness :
  has_li_p
    (unwrapListParagraphs
       (Element (js "ul") [] []
          [Element (js "li") [] []
             [Element (js "p") [] [] [Text (js "one")];
              Element (js "ul") [] []
                [Element (js "li") [] [] [Element (js "p") [] [] [Text (js "two")]]]]]))
  = false.
Proof. apply X7_no_paragraph_left_in_list_items. reflexivity. Defined.

(** X8: in the document the clean-up returns, every [code] element below
    a [pre] has a language annotation on it or on its parent element, and
    its text is trimmed. *)
Theorem X8_code_blocks_end_up_annotated (body out : list node)
  (H : cleanup body = Some out) :
  forallb (annotated false []) out = true.
Proof. apply (Cleanup.cleanup_annotated body out H). Qed.

Lemma X8_code_blocks_witness :
  forallb (annotated false [])
    [Element (js "pre") (js "lang-py") []
       [Element (js "code") [] [] [Text (js "print(1)")]];
     Element (js "pre") [] []
       [Element (js "code") (js "hljs language-shell") []
          [Text (js "ls -la")]]]
  = true.
Proof.
  apply (X8_code_blocks_end_up_annotated
           [Element (js "pre") (js "lang-py") []
              [Element (js "code") [] [] [Text (js "\nprint(1)\n")]];
            Element (js "pre") [] []
              [Element (js "code") (js "hljs") []
                 [Element (js "span") [] [] [Text (js " ls")];
                  Text (js " -la ")]]]).
  reflexivity.
Defined.

(** X9: on a document in which no paragraph is the child of a paragraph,
    the document the clean-up returns is returned as it is by a second
    clean-up. *)
Theorem X9_cleanup_idempotent (body out : list node)
  (H : forallb (fun n => negb (has_p_p n)) body = true)
  (R : cleanup body = Some out) :
  cleanup out = Some out.
Proof. apply (Cleanup.cleanup_idem body out H R). Qed.

Lemma X9_cleanup_idempotent_witness :
  cleanup [Element (js "li") [] [] [Text (js "a")];
           pre_code [] (js "hljs language-shell") (js "ls -la")]
  = Some [Element (js "li") [] [] [Text (js "a")];
          pre_code [] (js "hljs language-shell") (js "ls -la")].
Proof.
  apply (X9_cleanup_idempotent
           [Element (js "li") [] [] [Element (js "p") [] [] [Text (js "a")]];
            pre_code [] (js "hljs") (js "\nls -la\n")]);
    reflexivity.
Defined.

(** X10: a document without a paragraph inside a list item and without a
    [pre] element is not changed by the clean-up; in particular inline
    [code] is never given a class. *)
Theorem X10_cleanup_leaves_other_documents (body : list node)
  (H : forallb (fun n => negb (has_li_p n) && negb (has_pre n)) body = true) :
  cleanup body = Some body.
Proof. apply Cleanup.cleanup_fixed, H. Qed.

Lemma X10_cleanup_leaves_witness :
  cleanup [Element (js "p") [] []
             [Text (js "run "); Element (js "code") [] [] [Text (js " npm i ")]]]
  = Some [Element (js "p") [] []
            [Text (js "run "); Element (js "code") [] [] [Text (js " npm i ")]]].
Proof. apply X10_cleanup_leaves_other_documents. reflexivity. Defined.

(** ** The post-processor *)

(** X11: a text without stars, hyphens, hash marks, backticks and digits
    goes through the post-processor unchanged, but for the trimming and the
    final line feed. *)
Theorem X11_plain_prose_is_only_trimmed (md : jsstring)
  (H : prose md = true) :
  postProcessMarkdown md = trim md ++ js "\n".
Proof. apply Prose.postProcessMarkdown_prose, H. Qed.

Lemma X11_plain_prose_witness :
  postProcessMarkdown (js "  Dear all,\n\nsee you (soon).  \n\n")
  = trim (js "  Dear all,\n\nsee you (soon).  \n\n") ++ js "\n".
Proof. apply X11_plain_prose_is_only_trimmed. reflexivity. Defined.

(** X26: a document that is empty or holds white space only is turned
    into a single line feed. *)
Theorem X26_blank_document_becomes_line_feed (md : jsstring)
  (H : forallb is_space md = true) :
  postProcessMarkdown md = js "\n".
Proof. apply Prose.postProcessMarkdown_blank, H. Qed.

Lemma X26_blank_document_witness :
  postProcessMarkdown [] = js "\n" /\
  postProcessMarkdown (js " \n\t \r\n") = js "\n".
Proof. split; apply X26_blank_document_becomes_line_feed; reflexivity. Defined.

(** X27: step 3 on a list item of one line, for every indentation: the
    marker ends up behind eight spaces when it was behind exactly two or
    exactly four, and stays where it was behind any other number of
    spaces. *)
Theorem X27_indentation_of_a_list_line (k : nat) (s m r : jsstring)
  (Hm : marker_split s = Some (m, r)) (Hr : one_line r = true) :
  fixIndentation (spaces k ++ s) =
  if (k =? 2) || (k =? 4) then spaces 8 ++ s else spaces k ++ s.
Proof. apply (IndentLine.fixIndentation_line k s m r Hm Hr). Qed.

Lemma X27_indentation_witness :
  fixIndentation (spaces 2 ++ js "12. twelve") = spaces 8 ++ js "12. twelve" /\
  fixIndentation (spaces 4 ++ js "- four") = spaces 8 ++ js "- four" /\
  fixIndentation (spaces 3 ++ js "* three") = spaces 3 ++ js "* three" /\
  fixIndentation (spaces 6 ++ js "- six") = spaces 6 ++ js "- six".
Proof.
  split; [|split; [|split]].
  - apply (X27_indentation_of_a_list_line 2 _ (js "12.") (js " twelve"));
      reflexivity.
  - apply (X27_indentation_of_a_list_line 4 _ (js "-") (js " four"));
      reflexivity.
  - apply (X27_indentation_of_a_list_line 3 _ (js "*") (js " three"));
      reflexivity.
  - apply (X27_indentation_of_a_list_line 6 _ (js "-") (js " six"));
      reflexivity.
Defined.

(** X12: a one-line heading of one to six hash marks, white space, a number
    and an escaped period followed by a space loses the backslash, and
    nothing else changes but the trimming and the final line feed. *)
Theorem X12_numbered_heading_loses_backslash (h w d r : jsstring)
  (Hh : h <> []) (Ah : forallb is_hash h = true) (Lh : length h <= 6)
  (Hw : w <> []) (Aw : forallb is_space w = true) (Ow : one_line w = true)
  (Hd : d <> []) (Ad : forallb is_digit d = true)
  (Hr : one_line r = true) :
  postProcessMarkdown (h ++ w ++ d ++ js "\\. " ++ r) =
  trim (h ++ w ++ d ++ js ". " ++ r) ++ js "\n".
Proof. apply NumberedHeading.postProcessMarkdown_heading; assumption. Qed.

Lemma X12_numbered_heading_witness :
  postProcessMarkdown (js "###" ++ js " " ++ js "12" ++ js "\\. " ++ js "Set **up** ")
  = trim (js "###" ++ js " " ++ js "12" ++ js ". " ++ js "Set **up** ") ++ js "\n".
Proof.
  apply X12_numbered_heading_loses_backslash;
    first [reflexivity | discriminate | vm_compute; lia].
Defined.

(** X13: seven hash marks or more do not make a heading: step 4 leaves
    such a line as it is, escaped period included. *)
Theorem X13_seven_hashes_are_no_heading (h r : jsstring)
  (Ah : forallb is_hash h = true) (Lh : 7 <= length h)
  (Hr : one_line r = true) :
  fixEscapedPeriod (h ++ r) = h ++ r.
Proof.
  apply EscapedPeriod.fixEscapedPeriod_line.
  - apply EscapedPeriod.heading_shape_long; assumption.
  - fold (one_line (h ++ r)). rewrite Line.one_line_app, Hr, andb_true_r.
    apply (HeadingNumber.hashes_not_terminators h Ah).
Qed.

Lemma X13_seven_hashes_witness :
  fixEscapedPeriod (js "#######" ++ js " 1\\. Title") = js "#######" ++ js " 1\\. Title".
Proof.
  apply X13_seven_hashes_are_no_heading; reflexivity.
Defined.

(** ** The rules of the Turndown-based facade *)

(** X14: the fence written by the rule [fencedCodeBlock] always carries a
    language tag, one word long, and holds the trimmed code. *)
Theorem X14_fence_always_tagged (rawCode classSource : jsstring) :
  exists lang,
    lang <> [] /\ forallb is_word lang = true /\
    Turndown.fencedCodeBlock rawCode classSource =
    js "\n\n```" ++ lang ++ js "\n" ++ trim rawCode ++ js "\n```\n\n".
Proof. apply FencedRule.fencedCodeBlock_tag. Qed.

(** X15: a class that begins with [language-] or [lang-] and a word makes
    that word the tag of the fence, whatever the code looks like. *)
Theorem X15_annotation_decides_tag (rawCode p w r : jsstring)
  (Hp : p = js "language-" \/ p = js "lang-")
  (Hne : w <> []) (Hw : forallb is_word w = true)
  (Hr : match r with c :: _ => is_word c = false | [] => True end) :
  Turndown.fencedCodeBlock rawCode (p ++ w ++ r) =
  js "\n\n```" ++ w ++ js "\n" ++ trim rawCode ++ js "\n```\n\n".
Proof. apply FencedRule.fencedCodeBlock_annotation; assumption. Qed.

Lemma X15_annotation_witness :
  Turndown.fencedCodeBlock (js "$ ls\n") (js "lang-" ++ js "py" ++ js " hljs")
  = js "\n\n```" ++ js "py" ++ js "\n" ++ trim (js "$ ls\n") ++ js "\n```\n\n".
Proof.
  apply X15_annotation_decides_tag;
    [right; reflexivity | discriminate | reflexivity | reflexivity].
Defined.

(** X16: for a [pre] that holds one [code] element with no language
    annotation on either, the two facades agree: the rule of the
    Turndown-based one writes the detected language on the fence around
    the trimmed text, and the clean-up of src/App.tsx adds the class of
    that language to the [code] element and trims its text. *)
Theorem X16_facades_agree_on_unannotated_block
  (preClass codeClass text : jsstring)
  (H : test false re_language (existingClass preClass codeClass) = false) :
  TurndownRules.fencedCodeBlockRule (pre_code preClass codeClass text) =
    Some (js "\n\n```" ++ detectLanguage text ++ js "\n" ++ trim text
            ++ js "\n```\n\n") /\
  exists ch,
    cleanup [pre_code preClass codeClass text] =
      Some [Element (js "pre") preClass []
              [Element (js "code")
                 (classListAdd codeClass (js "language-" ++ detectLanguage text))
                 [] ch]] /\
    concat (map textContent ch) = trim text.
Proof.
  split.
  - rewrite FencedRule.fencedCodeBlockRule_pre_code.
    rewrite FencedRule.fencedCodeBlock_detect by exact H. reflexivity.
  - apply Cleanup.cleanup_pre_code, H.
Qed.

Lemma X16_facades_agree_witness :
  TurndownRules.fencedCodeBlockRule (pre_code [] (js "hljs") (js "\nnpm test\n")) =
    Some (js "\n\n```" ++ detectLanguage (js "\nnpm test\n") ++ js "\n"
            ++ trim (js "\nnpm test\n") ++ js "\n```\n\n") /\
  exists ch,
    cleanup [pre_code [] (js "hljs") (js "\nnpm test\n")] =
      Some [Element (js "pre") [] []
              [Element (js "code")
                 (classListAdd (js "hljs")
                    (js "language-" ++ detectLanguage (js "\nnpm test\n")))
                 [] ch]] /\
    concat (map textContent ch) = trim (js "\nnpm test\n").
Proof. apply X16_facades_agree_on_unannotated_block. reflexivity. Defined.

(** X17: the rule [emphasisHeading] promotes a paragraph only when its
    trimmed content is a non-empty text without stars between two pairs of
    stars and is shorter than one hundred code units; it emits any other
    paragraph trimmed, between blank lines. *)
Theorem X17_only_bold_paragraphs_are_promoted (content : jsstring) :
  (exists t,
     t <> [] /\ free_of 42%N t = true /\ trim content = bold t /\
     length (trim content) < 100 /\
     Turndown.emphasisHeading content = js "\n\n### " ++ t ++ js "\n\n")
  \/ Turndown.emphasisHeading content = js "\n\n" ++ trim content ++ js "\n\n".
Proof. apply EmphasisRule.emphasisHeading_cases. Qed.

(** X18: no line of the replacement written by the rule [listSpacing] ends
    in white space. *)
Theorem X18_list_lines_end_clean (content : jsstring)
  (parentName : option jsstring) :
  line_ends_clean (TurndownRules.listSpacing content parentName) = true.
Proof. apply ListRule.listSpacing_clean. Qed.

(** X19: the rule [listSpacing] is idempotent: applied to its own output
    (for the same parent) it returns that output. *)
Theorem X19_list_rule_idempotent (content : jsstring)
  (parentName : option jsstring) :
  TurndownRules.listSpacing (TurndownRules.listSpacing content parentName)
    parentName
  = TurndownRules.listSpacing content parentName.
Proof. apply ListRule.listSpacing_idem. Qed.

(** X20: the Turndown-based facade never returns three line feeds in a
    row: its output has no two blank lines in a row. *)
Theorem X20_no_two_blank_lines (turndown : jsstring -> jsstring)
  (html : jsstring) :
  includes (Turndown.convertToMarkdown turndown html) (js "\n\n\n") = false.
Proof.
  apply (Tidy.feeds_bounded_includes _ 0).
  apply (Tidy.tidy_feeds_bounded (turndown html)).
Qed.

(** X21: the clean-up that the Turndown-based facade applies to the output
    of [turndown] is idempotent, so the facade returns a fixed point of
    it. *)
Theorem X21_turndown_cleanup_idempotent (turndown : jsstring -> jsstring)
  (html md : jsstring) :
  Turndown.convertToMarkdown turndown html = tidy (turndown html) /\
  tidy (tidy md) = tidy md /\
  tidy (Turndown.convertToMarkdown turndown html)
    = Turndown.convertToMarkdown turndown html.
Proof.
  split; [reflexivity|]. split; [apply Tidy.tidy_idem|].
  apply (Tidy.tidy_idem (turndown html)).
Qed.

(** ** The component *)

(** X22: when [autoLoadSelection] ends with the status [copied], the
    clipboard holds exactly the Markdown that is displayed, that text ends
    with exactly one line feed, and one timer is pending that will set the
    status back to [idle] after 3000 ms. *)
Theorem X22_copied_means_clipboard_holds_output
  (parseFromString : jsstring -> list node) (serialize : list node -> jsstring)
  (translate reparse : jsstring -> jsstring)
  (pf : Component.platform) (s : Component.app)
  (H : Component.status
         (Component.after
            (Component.autoLoadSelection parseFromString serialize translate
               reparse pf) s) = Component.copied) :
  let s' := Component.after
              (Component.autoLoadSelection parseFromString serialize translate
                 reparse pf) s in
  Component.clipboard s' = Component.markdownOutput s' /\
  ends_with_single_newline (Component.markdownOutput s') = true /\
  Component.timers s' = Component.timers s ++ [(3000, Component.idle)].
Proof.
  apply (ComponentFacts.autoLoadSelection_copied parseFromString serialize
           translate reparse pf s H).
Qed.

Lemma X22_copied_witness :
  let s' := Component.after
              (Component.autoLoadSelection (fun _ => []) (fun _ => [])
                 (fun _ => js "Hello") (fun h => h) (example_platform true))
              mounted in
  Component.clipboard s' = Component.markdownOutput s' /\
  ends_with_single_newline (Component.markdownOutput s') = true /\
  Component.timers s' = Component.timers mounted ++ [(3000, Component.idle)].
Proof.
  apply (X22_copied_means_clipboard_holds_output (fun _ => []) (fun _ => [])
           (fun _ => js "Hello") (fun h => h) (example_platform true) mounted).
  reflexivity.
Defined.

(** X23: [autoLoadSelection] never leaves the status [scanning]; and when
    it ends with a status other than [copied] and [copy_failed] (outside an
    extension, without a tab, without a selection, after a rejected promise
    or after a conversion that threw), the output, the clipboard and the
    timers are as they were.  The editor is as it was too unless the status
    is [error]: when the conversion throws, the selection has already been
    written into the editor. *)
Theorem X23_without_selection_nothing_is_touched
  (parseFromString : jsstring -> list node) (serialize : list node -> jsstring)
  (translate reparse : jsstring -> jsstring)
  (pf : Component.platform) (s : Component.app)
  (H1 : Component.status
          (Component.after
             (Component.autoLoadSelection parseFromString serialize translate
                reparse pf) s) <> Component.copied)
  (H2 : Component.status
          (Component.after
             (Component.autoLoadSelection parseFromString serialize translate
                reparse pf) s) <> Component.copy_failed) :
  let s' := Component.after
              (Component.autoLoadSelection parseFromString serialize translate
                 reparse pf) s in
  Component.status s' <> Component.scanning /\
  Component.markdownOutput s' = Component.markdownOutput s /\
  Component.outputRef s' = Component.outputRef s /\
  Component.clipboard s' = Component.clipboard s /\
  Component.timers s' = Component.timers s /\
  (Component.status s' <> Component.error ->
   Component.editorRef s' = Component.editorRef s).
Proof.
  apply (ComponentFacts.autoLoadSelection_quiet parseFromString serialize
           translate reparse pf s H1 H2).
Qed.

Lemma X23_without_selection_witness :
  let s' := Component.after
              (Component.autoLoadSelection (fun _ => []) (fun _ => [])
                 (fun _ => js "Hello") (fun h => h) plain_page)
              mounted in
  Component.status s' <> Component.scanning /\
  Component.markdownOutput s' = Component.markdownOutput mounted /\
  Component.outputRef s' = Component.outputRef mounted /\
  Component.clipboard s' = Component.clipboard mounted /\
  Component.timers s' = Component.timers mounted /\
  (Component.status s' <> Component.error ->
   Component.editorRef s' = Component.editorRef mounted).
Proof.
  apply (X23_without_selection_nothing_is_touched (fun _ => []) (fun _ => [])
           (fun _ => js "Hello") (fun h => h) plain_page mounted);
    discriminate.
Defined.



(** X25: an input event on the mounted editor converts the editor's
    content.  When the conversion returns, the handler returns, the output
    is the converted text, it is not empty, so the button that saves the
    file is enabled, and the file that is saved ends with exactly one line
    feed.  When the conversion throws, the handler throws, having no
    handler of its own, and the state of the component is as it was. *)
Theorem X25_input_enables_saving
  (parseFromString : jsstring -> list node) (serialize : list node -> jsstring)
  (translate : jsstring -> jsstring)
  (s : Component.app) (e : Component.element)
  (H : Component.editorRef s = Some e) :
  let handler := Component.handleInput parseFromString serialize translate in
  let s' := Component.after handler s in
  match convertToMarkdown parseFromString serialize translate
          (Component.innerHTML e) with
  | Some md =>
      fst (handler s) = Some tt /\
      Component.markdownOutput s' = md /\
      Component.saveDisabled s' = false /\
      ends_with_single_newline
        (Component.contents (Component.downloadMarkdown s')) = true
  | None => handler s = (None, s)
  end.
Proof.
  cbv zeta.
  destruct (convertToMarkdown parseFromString serialize translate
              (Component.innerHTML e)) as [md|] eqn:C.
  - apply (ComponentFacts.handleInput_output parseFromString serialize
             translate s e md H C).
  - apply (ComponentFacts.handleInput_throws parseFromString serialize
             translate s e H C).
Qed.

(** A page whose editor holds a block that makes the conversion throw. *)
Lemma X25_input_witness :
  let nested :=
    [Element (js "pre") [] []
       [Element (js "code") [] []
          [Text (js "a"); Element (js "code") [] [] [Text (js "b")]]]] in
  let handler :=
    Component.handleInput (fun _ => nested) (fun _ => []) (fun _ => []) in
  handler mounted = (None, mounted).
Proof.
  apply (X25_input_enables_saving
           (fun _ => [Element (js "pre") [] []
                        [Element (js "code") [] []
                           [Text (js "a");
                            Element (js "code") [] [] [Text (js "b")]]]])
           (fun _ => []) (fun _ => [])
           mounted (Component.Element_ [] 0%N)).
  reflexivity.
Defined.

(** X29: on a document whose only line terminators are line feeds the
    promotion of bold-only lines to headings (step 1 of the post-processor)
    is idempotent: the lines it has rewritten begin with hash marks, and
    no line it has left alone has become bold-only. *)
Theorem X29_bold_promotion_idempotent (md : jsstring)
  (H : lf_only md = true) :
  fixEmphasisHeading (fixEmphasisHeading md) = fixEmphasisHeading md.
Proof. apply BoldIdem.fixEmphasisHeading_idem. exact H. Qed.

Lemma X29_bold_promotion_witness :
  fixEmphasisHeading (fixEmphasisHeading (js "intro\n  **Title** \nbody **b**"))
  = fixEmphasisHeading (js "intro\n  **Title** \nbody **b**").
Proof.
  apply X29_bold_promotion_idempotent. reflexivity.
Defined.

